(* ===== verification/_CoqProject ===== *)
-Q . S2P
Prelude.v
Json.v
Middleware.v
Express.v
Store.v
Dishes.v
Orders.v
Render.v
App.v
Concurrent.v
