(* ===== verification/Prelude.v ===== *)
(** * GrubDash: a verification development of the dishes and orders controllers

    The program ([src/Project-GrubDash/src]) is an Express API with two
    independent resource managers.  [dishes/dishes.controller.js] and
    [orders/orders.controller.js] each keep a module-level array of records
    ([dishes], [orders]) and export, per route, an array of middleware
    functions [(req, res, next)]: validators that call [next()] or
    [next({ status, message })], and a final handler that reads or mutates
    the array and sends the response.  The routers, [app.js], the id
    generator [utils/nextId.js] and the seed data are not under [src/].

    ** Files
    - [Prelude] (this file): the notation scope [grub_scope], the hint
      databases [grub] and [grub_rw], tactics, and the JavaScript [Array]
      methods the controllers call: [find] ([array_find]), [findIndex]
      ([array_find_index], [-1] when absent), [push] ([array_push],
      notation [xs ;+ x]) and [splice(i, 1)] ([array_splice1], which does
      nothing out of range, as [splice] does).
    - [Json]: the parsed request body as [jsval] (numbers are exact
      rationals), truthiness, [||], [Number.isInteger], [===] on strings,
      [Array.prototype.includes], property reads ([get_prop], [None] being
      the [TypeError] on [null]/[undefined]) and the three destructuring
      patterns of the source ([data_default], [data_or_empty], [body_field]);
      error messages are template literals ([message]); [data_equiv] is
      the equivalence of bodies whose [data] reads agree on every key;
      [is_json] (a value [JSON.parse] can produce: no [undefined]) and
      [stringify] ([JSON.parse(JSON.stringify(v))], the value a client
      reads back from a response).
    - [Middleware]: requests, errors and responses; a middleware is a
      function [request -> locals -> collection -> locals * collection *
      list act] returning the actions it performs in order ([next()],
      [next(err)], send, throw).  The spec's two readings of how an
      exported array runs: [run_cps] (every [next()] runs the rest of the
      chain, so both the error handler and the update handler may run:
      spec section 4.1) and [run_halt] (the first action decides: spec
      section 9's short-circuit pipeline), with [run_cps_halt_agree]
      relating them.  Spec section 9's "list of
      predicate+error pairs" is [rule]/[check_rules]/[rule_mw]; the
      [bodyDataHas] validators are instances.  The section [Outcomes]
      carries per-function facts (errors are 400/404, writes happen only
      with a response) over to whole chains, and [Proper] carries
      [req_equiv] (equivalent requests) through them.
    - [Express]: Express 4's [Route.prototype.dispatch], the dispatch the
      application really has ([run_express]): one layer index shared by
      every [next()] of a request, [next(err)] skipping every remaining
      non-error layer, a throw passed on as [next(err)], [done()] past the
      last layer ([EFallThrough]).  On the controllers' chains it gives the
      collection of [run_halt] and its emissions, followed at most by a
      fall-through ([run_express_halt]); [writes] counts the responses a
      run writes.
    - [Store]: collections keyed by a string id ([HasId], [find_by_id],
      [unique_ids]) and the id generator as an interface, the class
      [IdGen] (a [next_id] not among the given ids), with the instance
      [idgen_fresh] from stdpp's [fresh].  The controllers' theorems hold
      for every [IdGen].
    - [Dishes] (Module [Dishes]): every function of [dishes.controller.js]
      ([list_], [dishExists], [validateDishId], [read], [update], [create],
      [validatePrice], [bodyDataHas]) and its [module.exports] arrays;
      [res.locals.dish] is the index of the dish found.
    - [Orders] (Module [Orders]): every function of [orders.controller.js]
      ([list_], [create], [validateDishQuantity] with its [for] loop as
      [check_quantities], [orderExists], [bodyDataHas], [update], [read],
      [validateOrderId], [validateStatusProperty], [validateOrderStatus],
      [destroy]) and its exports.
    - [Render] (Module [Render]): what the client receives.  The records
      as the objects [create] builds ([dish_json], [order_json]),
      [res.json({ data })] serialized by [JSON.stringify] ([stringify] of
      Json.v, which drops [undefined] properties), [res.sendStatus], the
      error handler's [{ error: message }] and a throw's 500 ([wire_of]);
      the JSON schemas of spec section 6 as a small type language
      ([jtype], [has_type]).
    - [App] (Module [App]): the route table of spec section 6 ([route]),
      one request run to completion on the pair of arrays under a chosen
      dispatcher ([handle]; [Express], [Cps] or [Halt]),
      sequences of requests ([run_trace]) and the server's step relation
      ([app_step]); the responses of a request as the client reads them
      ([out_wires]) and the body type of each route ([route_type]).
    - [Concurrent] (Module [Concurrent]): the multi-threaded host of spec
      section 5, in which requests in flight interleave between
      middleware functions over the shared arrays: [step_chain] (one
      function of a chain), [thread], [spawn], the step relation [cstep]
      and schedules [run_sched]; [res.locals] stays the model's index.

    Each controller function is translated branch by branch: its guards are
    the code's conditions in the code's order, its early returns the
    [mw_fail]/[mw_next] results, its writes the returned collection.  The
    two [validate...Id] functions return [[AFail e; ANext]] because the code
    calls [next(err)] and then [next()].

    ** Theorems
    - Functional behaviour of each route on each branch, errors included
      (Dishes: [create_valid], [create_rejects_first_failure],
      [validatePrice_spec], [read_result], [update_valid],
      [update_not_found], [update_rejects_invalid]; Orders:
      [order_create_valid],
      [order_create_rejects_quantity], [order_create_rejects_no_dish],
      [order_update_valid], [order_update_rejects_delivered],
      [order_read_result], [order_update_then_read], [order_delete_pending],
      [order_delete_not_pending], [order_delete_then_read]).
    - Abstract effect specifications [dish_effect] and [order_effect]
      (append a valid record with a fresh id, overwrite in place keeping id
      (and status), delete a pending order) and the refinement lemmas
      [dish_route_effect] and [order_route_effect] for every route under
      both dispatchers; from them the invariants ([dishes_inv_preserved],
      [orders_inv_preserved]) and the safety facts ([order_status_preserved],
      [order_removed_only_if_pending]).
    - Abstract specifications of the two APIs, [dish_api] and [order_api]
      (spec sections 4 and 6: per route, the outcomes a request may have,
      the collection after it together with the emission that answers
      it), and the refinement theorems that Express 4's dispatch of every
      route implements them ([dish_routes_express_api],
      [order_routes_express_api]), from the same facts about [run_halt]
      ([dish_routes_halt_api], [order_routes_halt_api]) and the lemma
      [express_of_halt].
    - The dispatchers: the spec's two readings agree except on a PUT with
      a conflicting body id ([dishes_dispatch_agree],
      [orders_dispatch_agree]); there the continuation reading overwrites
      after the 400 ([update_conflict_cps_overwrites],
      [order_update_conflict_cps_overwrites]) and the short-circuit one
      does not ([update_conflict_halts]).  Express 4's dispatch refines the
      short-circuit one on every trace: same states, same answer to every
      request ([app_express_refines_halt]); so the missing [return] after
      [next(err)] is latent under Express.  The dispatch terminates
      ([express_terminates]), and every routed request gets exactly one
      response under Express, one or two under the continuation reading
      ([app_response_bounds]).
    - The whole application: invariants along every trace
      ([app_inv_trace]), by rule induction on [rtc app_step]; a settled
      order is kept with its status forever ([app_settled_order_kept]);
      dishes are never lost ([app_dish_ids_persist]); errors are 400/404
      and responses 200/201/204 ([app_responses_classified]); no partial
      mutation on failure under Express and [run_halt] ([app_error_atomic]); a record
      created by POST is what a GET of its new id answers
      ([app_dish_create_read], [app_order_create_read]); the ids of the
      dishes created along a trace are distinct from each other and from
      every earlier dish ([app_created_dish_ids_unique], from the ledger
      lemmas [run_cps_ledger]/[run_halt_ledger]); requests that
      differ only in how [data] is written give the same traces
      ([app_equiv_traces], by setoid rewriting with the [Proper] instance
      [handle_proper] for the equivalence [app_req_equiv]).  The lemma
      [app_delivered_order_changed] evaluates spec section 8's delivered
      scenario on the code.
    - What the client reads: under Express, from collections that satisfy
      the invariants, every response to a request with a JSON body has
      its route's JSON type, each field of a record of its type, and the
      collections stay free of [undefined] ([app_response_types], from
      the abstract API theorems and the typing lemmas of Render); a
      client that PUTs back the data a GET gave it changes nothing and
      gets the same record ([dish_get_put_roundtrip]), or a 400 for a
      delivered order ([order_get_put_roundtrip]).
    - Termination: Express 4's dispatch of every routed chain ends within
      [length ms + 1] nested [next()] calls ([app_express_terminates], an
      instance of [express_terminates]); with one request served at a
      time, every request of a trace is answered.
    - Concurrency (spec section 5): Node runs each chain synchronously,
      and the serial schedule of the interleaving host is exactly
      [App.run_trace] (the lemma [serial_refines_atomic], true of any
      chains: it ties the two semantics together).  Were requests
      interleaved, the arrays would keep their invariants
      ([interleaved_app_inv], by rule induction on [rtc cstep]); dish
      requests would stay linearizable ([dish_requests_linearizable], by
      a simulation: what a validator let through stays let through while
      the dish array only grows); order requests would not: a DELETE
      between a PUT's validators and its [update] makes the PUT throw,
      for any pending order and any PUT body the update chain accepts
      ([order_race_not_linearizable]).

    ** Bounds and fuel
    A schedule gives each request [length ms + 1] steps in
    [serial_sched], enough for any chain ([chain_steps_halt]).
    The only fuel proper is that of Express's dispatch ([express_next]), whose
    recursion is on nested [next()] calls, not on the chain: it is given
    [length ms + 1], and [express_terminates] shows that this is always
    enough (each nested call moves the layer index forward, and the last
    one finds it past the end) and that more fuel changes nothing.  Every
    other recursion ([check_quantities], [check_rules], [run_cps],
    [run_halt], [run_trace]) is structural, so every definition is total
    and executable by [vm_compute].  Numbers are exact rationals, so
    there is no overflow to model ([JSON.parse]'s rounding of literals
    beyond double precision is outside the model); [is_integer_spec] shows
    that the model of [Number.isInteger] holds exactly of the values equal
    to an integer, whatever their decimal writing.

    ** Not modelled
    The HTTP server and the JSON body parser (their output is the [jsval]
    body); methods the route table does not list and the app's 404/405
    fallbacks; the seed data (initial states are arbitrary, restricted by
    the invariants where a theorem needs them); the actual id generator
    (only its contract: an id not among the collection's current ids, so
    the theorems say nothing about reusing the id of a deleted order);
    the router layer above a route (the app's [Router] stack and
    [app.use] mounting: [route] maps a request straight to its chain);
    the error thrown by a second [res.json] after the headers are sent
    (the model records every emission; [client_status] reads the first
    and [writes] counts them).  The routers and [app.js] are not in the
    repository: only the route table the spec gives is modelled, and a
    method it does not list is [NoRoute]. *)

From stdpp Require Export base list strings option.
From Stdlib Require Export ZArith.

Declare Scope grub_scope.
Delimit Scope grub_scope with grub.

Create HintDb grub.
Create Rewrite HintDb grub_rw.

(** ** JavaScript [Array] methods, over any element type

    [xs.find(p)] returns the first element satisfying [p] (or [undefined]);
    [xs.findIndex(p)] its index, or [-1]; [xs.push(x)] appends;
    [xs.splice(i, 1)] removes the element at [i] when [0 <= i < xs.length]. *)

Section ArrayMethods.
Context {A : Type} (P : A -> Prop) `{!forall x, Decision (P x)}.

Definition array_find (xs : list A) : option A := snd <$> list_find P xs.

Definition array_find_index (xs : list A) : Z :=
  match list_find P xs with
  | Some (i, _) => Z.of_nat i
  | None => (-1)%Z
  end.
End ArrayMethods.

Definition array_push {A} (xs : list A) (x : A) : list A := xs ++ [x].

Definition array_splice1 {A} (xs : list A) (i : Z) : list A :=
  if decide (0 <= i < Z.of_nat (length xs))%Z then delete (Z.to_nat i) xs else xs.

Notation "xs ';+' x" := (array_push xs x) (at level 50, left associativity) : grub_scope.

Open Scope grub_scope.

(** ** Tactics *)

(** Destruct the [match] or [if] the goal is stuck on, keeping the equation. *)
Ltac case_goal :=
  match goal with
  | |- context [match ?e with _ => _ end] =>
      let E := fresh "E" in destruct e eqn:E
  end.

(** Close goals of the form [decide P = true/false] and their converse. *)
Ltac decide_tac :=
  repeat match goal with
  | H : context [decide ?P] |- _ => destruct (decide P); try discriminate H
  | |- context [decide ?P] => destruct (decide P)
  end; try done.

(** ** Generic lemmas on the array methods *)

Section ArrayLemmas.
Context {A : Type} (P : A -> Prop) `{!forall x, Decision (P x)}.

Lemma array_find_index_Some (xs : list A) i x :
  list_find P xs = Some (i, x) -> array_find_index P xs = Z.of_nat i.
Proof. unfold array_find_index. by intros ->. Qed.

Lemma array_find_index_None (xs : list A) :
  list_find P xs = None -> array_find_index P xs = (-1)%Z.
Proof. unfold array_find_index. by intros ->. Qed.

Lemma array_find_Some (xs : list A) i x :
  list_find P xs = Some (i, x) -> array_find P xs = Some x.
Proof. unfold array_find. by intros ->. Qed.

Lemma array_find_None (xs : list A) :
  list_find P xs = None -> array_find P xs = None.
Proof. unfold array_find. by intros ->. Qed.

Lemma list_find_lookup (xs : list A) i x :
  list_find P xs = Some (i, x) -> xs !! i = Some x /\ P x.
Proof. intros Hf. apply list_find_Some in Hf. naive_solver. Qed.
End ArrayLemmas.

Lemma array_splice1_in_range {A} (xs : list A) (i : nat) :
  (i < length xs)%nat -> array_splice1 xs (Z.of_nat i) = delete i xs.
Proof.
  intros Hi. unfold array_splice1. rewrite decide_True by lia.
  by rewrite Nat2Z.id.
Qed.

Lemma array_splice1_out_of_range {A} (xs : list A) (i : Z) :
  ~ (0 <= i < Z.of_nat (length xs))%Z -> array_splice1 xs i = xs.
Proof. intros Hi. unfold array_splice1. by rewrite decide_False. Qed.

Lemma length_array_push {A} (xs : list A) x : length (xs ;+ x) = S (length xs).
Proof. unfold array_push. rewrite length_app. simpl. lia. Qed.

#[export] Hint Resolve array_find_index_Some array_find_index_None
  array_find_Some array_find_None : grub.
#[export] Hint Rewrite @length_array_push : grub_rw.

(** ** Membership after an in-place write or a removal *)

Lemma elem_of_list_insert_inv {A} (l : list A) i x y : y ∈ <[i:=x]> l -> y = x \/ y ∈ l.
Proof.
  intros [j Hj]%list_elem_of_lookup.
  apply list_lookup_insert_Some in Hj as [(_ & -> & _)|(_ & Hj)]; [by left|right].
  by eapply list_elem_of_lookup_2.
Qed.

Lemma elem_of_delete_ne {A} (l : list A) i f y :
  l !! i = Some f -> y ∈ l -> y <> f -> y ∈ delete i l.
Proof.
  intros Hi [j Hj]%list_elem_of_lookup Hne. apply list_elem_of_lookup.
  destruct (decide (j < i)%nat).
  - exists j. by rewrite list_lookup_delete_lt.
  - assert (j <> i) by (intros ->; congruence).
    exists (j - 1)%nat. rewrite list_lookup_delete_ge by lia.
    by replace (S (j - 1)) with j by lia.
Qed.

(** The standard library's [map] is stdpp's [fmap] on lists. *)
Lemma map_fmap {A B} (f : A -> B) (l : list A) : map f l = f <$> l.
Proof. induction l as [|x l IH]; [done|]. simpl. by rewrite IH. Qed.
