(* ===== verification/Json.v ===== *)
(** * Json: the JavaScript values the controllers inspect

    A request body is what [express.json()] hands to the controllers: the
    result of [JSON.parse], i.e. [null], a boolean, a finite number, a string,
    an array or an object.  Property reads produce [undefined] as well, so
    [jsval] has a [JUndef] constructor.  Numbers are exact rationals [Q]: a
    JSON number literal is a decimal, and the tests the code performs on
    numbers ([Number.isInteger], [> 0], [<= 0], truthiness) are exact on the
    decimal value.  (Literals beyond double precision, which [JSON.parse]
    rounds, are outside the model.)

    Objects are association lists in source order; a property read returns
    the {i last} binding of a key, as [JSON.parse] keeps the last duplicate.
    Reading a property of [null] or [undefined] is a [TypeError]: [get_prop]
    returns [None] then.  The property names the controllers read ([data],
    [id], [name], [price], [status], [quantity], ...) are not properties of
    the prototypes of booleans, numbers, strings or arrays, so reading them
    on such a value gives [undefined].

    The last section serializes: [is_json] holds of the values
    [JSON.parse] can produce, and [stringify] is what a client reads back
    from [res.json]: [JSON.parse(JSON.stringify(v))], [undefined]
    properties dropped, [undefined] array elements read as [null],
    identity on JSON values ([stringify_json]). *)

From S2P Require Import Prelude.
From Stdlib Require Import QArith_base DecimalString.

Declare Scope js_scope.
Delimit Scope js_scope with js.

Inductive jsval : Type :=
| JUndef
| JNull
| JBool (b : bool)
| JNum (q : Q)
| JStr (s : string)
| JArr (xs : list jsval)
| JObj (fields : list (string * jsval)).

(** ** Conversions and tests of the language *)

(** [if (v)], [!v], [a && b], [a || b]: ToBoolean.  A number is falsy
    exactly when it is zero ([NaN] does not come out of [JSON.parse]). *)
Definition truthy (v : jsval) : bool :=
  match v with
  | JUndef | JNull => false
  | JBool b => b
  | JNum q => negb (Z.eqb (Qnum q) 0)
  | JStr s => negb (String.eqb s "")
  | JArr _ | JObj _ => true
  end.

(** [a || b] returns [a] when it is truthy, [b] otherwise. *)
Definition js_or (a b : jsval) : jsval := if truthy a then a else b.

Notation "a '||?' b" := (js_or a b) (at level 50, left associativity) : js_scope.

(** [Number.isInteger(v)]: a number whose value is a mathematical integer. *)
Definition is_integer (v : jsval) : bool :=
  match v with
  | JNum q => Z.eqb (Z.modulo (Qnum q) (Zpos (Qden q))) 0
  | _ => false
  end.

(** [v > 0] and [v <= 0], on the numbers the code compares (both are
    evaluated only after [Number.isInteger(v)] held). *)
Definition num_gt0 (v : jsval) : bool :=
  match v with JNum q => Z.ltb 0 (Qnum q) | _ => false end.

Definition num_le0 (v : jsval) : bool :=
  match v with JNum q => Z.leb (Qnum q) 0 | _ => false end.

(** [Array.isArray(v)] and [v.length] for arrays. *)
Definition is_array (v : jsval) : bool :=
  match v with JArr _ => true | _ => false end.

(** [v === "s"] and [v !== "s"]. *)
Definition strict_eq_str (v : jsval) (s : string) : bool :=
  match v with JStr s' => String.eqb s' s | _ => false end.

(** [["a", "b", ...].includes(v)] (SameValueZero on strings). *)
Definition includes_str (xs : list string) (v : jsval) : bool :=
  match v with JStr s => bool_decide (s ∈ xs) | _ => false end.

(** ** Property access *)

(** The value of key [k] in a parsed object: its last binding. *)
Definition obj_lookup (fs : list (string * jsval)) (k : string) : jsval :=
  fold_left (fun acc kv => if String.eqb kv.1 k then kv.2 else acc) fs JUndef.

(** [v[k]] / [v.k]: [None] is the [TypeError] thrown on [null]/[undefined]. *)
Definition get_prop (v : jsval) (k : string) : option jsval :=
  match v with
  | JUndef | JNull => None
  | JObj fs => Some (obj_lookup fs k)
  | _ => Some JUndef
  end.

Notation "v '.[' k ']'" := (get_prop v k) (at level 9, format "v .[ k ]") : js_scope.

Open Scope js_scope.

(** [const { data = {} } = req.body]: the default applies to [undefined]
    only; a [null] data stays [null] (and a later [data[k]] throws). *)
Definition data_default (body : jsval) : option jsval :=
  d ← body.["data"];
  Some (match d with JUndef => JObj [] | _ => d end).

(** [req.body.data || {}]. *)
Definition data_or_empty (body : jsval) : option jsval :=
  d ← body.["data"]; Some (d ||? JObj []).

(** [const { data: { k } = {} } = req.body] and [data[k]] after
    [const { data = {} } = req.body]: the same read. *)
Definition body_field (body : jsval) (k : string) : option jsval :=
  d ← data_default body; d.[k].

(** ** Template literals

    An error message is a template literal: literal text and interpolated
    values, kept as the code writes them.  Interpolated array indices are
    natural numbers, rendered in decimal as [`${i}`] does. *)

Inductive msg_part : Type :=
| MText (s : string)
| MVal (v : jsval).

Definition message := list msg_part.

Definition nat_to_string (n : nat) : string :=
  NilEmpty.string_of_uint (Nat.to_uint n).

(** ** Lemmas *)

Lemma truthy_defined v : truthy v = true -> v <> JUndef /\ v <> JNull.
Proof. destruct v; simpl; split; congruence. Qed.

Lemma js_or_truthy a b : truthy a = true -> (a ||? b) = a.
Proof. unfold js_or. by intros ->. Qed.

Lemma js_or_falsy a b : truthy a = false -> (a ||? b) = b.
Proof. unfold js_or. by intros ->. Qed.

Lemma get_prop_defined v k :
  v <> JUndef -> v <> JNull -> exists w, v.[k] = Some w.
Proof. destruct v; simpl; try congruence; eauto. Qed.

Lemma get_prop_truthy v k : truthy v = true -> exists w, v.[k] = Some w.
Proof. intros [? ?]%truthy_defined. by apply get_prop_defined. Qed.

Lemma data_or_empty_truthy body d :
  data_or_empty body = Some d -> truthy d = true.
Proof.
  unfold data_or_empty. destruct (body.["data"]) as [d0|]; simpl; [|done].
  intros [= <-]. unfold js_or. destruct (truthy d0) eqn:E; [done|done].
Qed.

Lemma obj_lookup_snoc fs k v :
  obj_lookup (fs ++ [(k, v)]) k = v.
Proof. unfold obj_lookup. rewrite fold_left_app. simpl. by rewrite String.eqb_refl. Qed.

Lemma is_integer_num v : is_integer v = true -> exists q, v = JNum q.
Proof. destruct v; simpl; try done. eauto. Qed.

#[export] Hint Resolve truthy_defined get_prop_truthy data_or_empty_truthy : grub.
#[export] Hint Rewrite js_or_truthy js_or_falsy using done : grub_rw.

(** A successful [data[k]] read implies that [req.body.data || {}] is a
    truthy value, whose properties can be read. *)
Lemma body_field_data_or_empty body k v :
  body_field body k = Some v -> exists d, data_or_empty body = Some d /\ truthy d = true.
Proof.
  unfold body_field, data_default, data_or_empty.
  destruct (body.["data"]) as [d|]; simpl; [|done]. intros _.
  exists (d ||? JObj []). split; [done|]. unfold js_or. by destruct (truthy d) eqn:E.
Qed.

(** [data[k]] succeeds for one key exactly when [data] is not [null]: then
    it succeeds for every key. *)
Lemma body_field_other body k k' v :
  body_field body k = Some v -> exists v', body_field body k' = Some v'.
Proof.
  unfold body_field. destruct (data_default body) as [d|]; simpl; [|done].
  intros Hk. destruct d; simpl in *; try done; eauto.
Qed.

Lemma js_or_truthy_r a b : truthy b = true -> truthy (a ||? b) = true.
Proof. unfold js_or. by destruct (truthy a) eqn:E. Qed.

(** After a successful [data[k]] read, every [(req.body.data || {})[k']]
    read succeeds. *)
Lemma data_or_empty_read body k v k' :
  body_field body k = Some v -> exists w, (data_or_empty body ≫= fun d => d.[k']) = Some w.
Proof.
  intros Hk. destruct (body_field_data_or_empty _ _ _ Hk) as (d & Hd & Ht).
  rewrite Hd. exact (get_prop_truthy d k' Ht).
Qed.

(** ** Bodies that read the same

    The controllers look at a body only through [data[k]] (after [const {
    data = {} } = req.body]) and [(req.body.data || {})[k]].  Two bodies
    whose reads agree on every key are equivalent; key order and shadowed
    duplicate keys in [data] do not matter. *)

Definition data_reads (body : jsval) (k : string) : option jsval * option jsval :=
  (body_field body k, data_or_empty body ≫= fun d => d.[k]).

Definition data_equiv (b1 b2 : jsval) : Prop := forall k, data_reads b1 k = data_reads b2 k.

#[export] Instance data_equiv_equivalence : Equivalence data_equiv.
Proof.
  split.
  - by intros b k.
  - intros b1 b2 H k. by rewrite H.
  - intros b1 b2 b3 H1 H2 k. by rewrite H1, H2.
Qed.

Lemma data_equiv_field b1 b2 k : data_equiv b1 b2 -> body_field b1 k = body_field b2 k.
Proof. intros H. exact (f_equal fst (H k)). Qed.

Lemma data_equiv_or b1 b2 k :
  data_equiv b1 b2 -> (data_or_empty b1 ≫= fun d => d.[k]) = (data_or_empty b2 ≫= fun d => d.[k]).
Proof. intros H. exact (f_equal snd (H k)). Qed.

(** Two bodies whose [data] objects have the same value for every key. *)
Lemma data_equiv_objs fs1 fs2 ds1 ds2 :
  obj_lookup fs1 "data" = JObj ds1 -> obj_lookup fs2 "data" = JObj ds2 ->
  (forall k, obj_lookup ds1 k = obj_lookup ds2 k) -> data_equiv (JObj fs1) (JObj fs2).
Proof.
  intros H1 H2 H k. unfold data_reads, body_field, data_default, data_or_empty. simpl.
  rewrite H1, H2. simpl. by rewrite H.
Qed.

(** ** [Number.isInteger] and [> 0] on the value of a number

    A number literal is an exact rational: [Number.isInteger] holds of it
    exactly when it is equal to an integer, whatever its representation. *)

Lemma is_integer_spec q : is_integer (JNum q) = true <-> exists z : Z, (q == inject_Z z)%Q.
Proof.
  simpl. rewrite Z.eqb_eq. unfold Qeq. simpl. split.
  - intros Hm. exists (Qnum q / Zpos (Qden q))%Z.
    apply Z.div_exact in Hm; [|lia]. rewrite Z.mul_1_r. lia.
  - intros [z Hz]. rewrite Z.mul_1_r in Hz. rewrite Hz. apply Z.mod_mul. lia.
Qed.

Lemma num_gt0_integer q z : (q == inject_Z z)%Q -> num_gt0 (JNum q) = true <-> (0 < z)%Z.
Proof.
  unfold Qeq. simpl. rewrite Z.mul_1_r, Z.ltb_lt. intros Hz.
  pose proof (Pos2Z.is_pos (Qden q)). split; nia.
Qed.

(** ** JSON values and [JSON.stringify]

    What [JSON.parse] produces never contains [undefined]: [is_json].
    [stringify v] is the value a client reads back from the text
    [JSON.stringify(v)] that [res.json] writes: a property whose value is
    [undefined] is left out, an [undefined] array element becomes [null],
    and an [undefined] top-level value writes nothing ([None]).  (Objects
    stay association lists whose reads take the last binding, as for
    request bodies.) *)

Section JsvalInd.
Variable P : jsval -> Prop.
Hypothesis HUndef : P JUndef.
Hypothesis HNull : P JNull.
Hypothesis HBool : forall b, P (JBool b).
Hypothesis HNum : forall q, P (JNum q).
Hypothesis HStr : forall s, P (JStr s).
Hypothesis HArr : forall xs, Forall P xs -> P (JArr xs).
Hypothesis HObj : forall fs, Forall (fun kv => P kv.2) fs -> P (JObj fs).

(** Induction through the arrays and objects a value contains. *)
Fixpoint jsval_nested_ind (v : jsval) : P v :=
  match v with
  | JUndef => HUndef
  | JNull => HNull
  | JBool b => HBool b
  | JNum q => HNum q
  | JStr s => HStr s
  | JArr xs =>
      HArr xs ((fix go (xs : list jsval) : Forall P xs :=
                  match xs with [] => List.Forall_nil _ | x :: r => @List.Forall_cons _ P x r (jsval_nested_ind x) (go r) end) xs)
  | JObj fs =>
      HObj fs ((fix go (fs : list (string * jsval)) : Forall (fun kv => P kv.2) fs :=
                  match fs with
                  | [] => List.Forall_nil _
                  | kv :: r => @List.Forall_cons _ (fun kv => P kv.2) kv r (jsval_nested_ind kv.2) (go r)
                  end) fs)
  end.
End JsvalInd.

Fixpoint is_json (v : jsval) : bool :=
  match v with
  | JUndef => false
  | JArr xs => (fix go (xs : list jsval) := match xs with [] => true | x :: r => is_json x && go r end) xs
  | JObj fs =>
      (fix go (fs : list (string * jsval)) := match fs with [] => true | kv :: r => is_json kv.2 && go r end) fs
  | _ => true
  end.

Fixpoint stringify (v : jsval) : option jsval :=
  match v with
  | JUndef => None
  | JArr xs =>
      Some (JArr ((fix go (xs : list jsval) :=
                     match xs with
                     | [] => []
                     | x :: r => match stringify x with Some y => y | None => JNull end :: go r
                     end) xs))
  | JObj fs =>
      Some (JObj ((fix go (fs : list (string * jsval)) :=
                     match fs with
                     | [] => []
                     | (k, x) :: r => match stringify x with Some y => (k, y) :: go r | None => go r end
                     end) fs))
  | _ => Some v
  end.

Lemma is_json_arr xs : is_json (JArr xs) = true <-> Forall (fun x => is_json x = true) xs.
Proof.
  induction xs as [|x xs IH]; simpl; [split; constructor|].
  rewrite andb_true_iff, IH, Forall_cons_iff. done.
Qed.

Lemma is_json_obj fs : is_json (JObj fs) = true <-> Forall (fun kv => is_json kv.2 = true) fs.
Proof.
  induction fs as [|kv fs IH]; simpl; [split; constructor|].
  rewrite andb_true_iff, IH, Forall_cons_iff. done.
Qed.

(** [JSON.stringify] gives back every JSON value unchanged. *)
Lemma stringify_json v : is_json v = true -> stringify v = Some v.
Proof.
  induction v as [| | | | |xs IH|fs IH] using jsval_nested_ind; try done.
  - rewrite is_json_arr. intros Hj. simpl. f_equal. f_equal.
    induction xs as [|x xs IHxs]; [done|].
    apply Forall_cons_iff in IH as [IHx IHr]. apply Forall_cons_iff in Hj as [Hx Hr].
    rewrite (IHx Hx). f_equal. by apply IHxs.
  - rewrite is_json_obj. intros Hj. simpl. f_equal. f_equal.
    induction fs as [|[k x] fs IHfs]; [done|].
    apply Forall_cons_iff in IH as [IHx IHr]. apply Forall_cons_iff in Hj as [Hx Hr]. simpl in *.
    rewrite (IHx Hx). f_equal. by apply IHfs.
Qed.

Lemma fold_lookup_json fs k acc :
  Forall (fun kv => is_json kv.2 = true) fs -> acc = JUndef \/ is_json acc = true ->
  let r := fold_left (fun acc kv => if String.eqb kv.1 k then kv.2 else acc) fs acc in
  r = JUndef \/ is_json r = true.
Proof.
  intros Hfs. revert acc. induction Hfs as [|[k' x] fs Hx Hfs IH]; intros acc Hacc; [done|].
  simpl. destruct (String.eqb k' k); apply IH; auto.
Qed.

(** A property read of a JSON value is a JSON value or [undefined]. *)
Lemma obj_lookup_json fs k :
  is_json (JObj fs) = true -> obj_lookup fs k = JUndef \/ is_json (obj_lookup fs k) = true.
Proof. rewrite is_json_obj. intros Hfs. apply fold_lookup_json; [done|by left]. Qed.

Lemma get_prop_json v k w : is_json v = true -> v.[k] = Some w -> w = JUndef \/ is_json w = true.
Proof. destruct v; simpl; intros Hj [= <-]; try by left. by apply obj_lookup_json. Qed.

(** The fields the controllers read from a JSON body are JSON values or
    [undefined]. *)
Lemma body_field_json body k v :
  is_json body = true -> body_field body k = Some v -> v = JUndef \/ is_json v = true.
Proof.
  unfold body_field, data_default. intros Hb.
  destruct (body.["data"]) as [d|] eqn:Hd; simpl; [|done].
  destruct (get_prop_json _ _ _ Hb Hd) as [->|Hdj]; simpl.
  - intros [= <-]. by left.
  - destruct d; try (by apply get_prop_json); simpl; intros [= <-]; by left.
Qed.

Lemma truthy_json_field body k v :
  is_json body = true -> body_field body k = Some v -> truthy v = true -> is_json v = true.
Proof. intros Hb Hv Ht. destruct (body_field_json _ _ _ Hb Hv) as [->|]; [done|done]. Qed.
