(* ===== verification/Middleware.v ===== *)
(** * Middleware: Express middleware chains

    A controller exports, per route, an array of functions
    [(req, res, next) => ...]; Express calls them in order.  A function may
    read the request, read and write [res.locals] and the module's
    collection, and then call [next()] (go on), [next(err)] (hand an error to
    the error handler, which answers [err.status] with [{ error:
    err.message }]), send a response, or throw (Express catches a synchronous
    throw and answers 500).  The two [validate...Id] functions call [next(err)]
    and then [next()]: a function performs a {i sequence} of these actions.

    [middleware S L P] is such a function over a collection of type [S],
    [res.locals] of type [L] and response payloads of type [P]: it returns the
    new locals and collection and the actions it performs, in order.

    Two dispatchers run a chain:
    - [run_cps]: each [next()] runs the rest of the chain, as a continuation
      does; [next(err)] emits the error; the actions of one function run one
      after the other.  This is the reading of spec section 4.1 (the handler
      still runs after [next(err); next()]).
    - [run_halt]: the first action decides (spec section 9's pipeline that
      short-circuits on the first failure).
    Theorem [run_cps_halt_agree]: the two agree along any path on which each
    function performs exactly one action.  Express 4's own dispatch, with
    its shared layer index, is [run_express] of Express.v.

    The rest of the file carries facts about single functions over to whole
    chains: validation rules ([rule], [check_rules], [rule_mw]),
    validators that do not write ([validator]), what a chain may emit
    ([acts_ok], [emit_ok]), writes that happen only with a response
    ([clean_fail], so that [run_halt] fails atomically), requests that
    read the same ([req_equiv], [mw_proper]), and the keys a run adds to a
    collection against those its responses announce ([ledger]). *)

From S2P Require Import Prelude Json.

(** ** Requests, responses, errors *)

(** [req.params.<id>] (the route's one parameter) and [req.body]. *)
Record request : Type := mk_request { req_param : string; req_body : jsval }.

(** [{ status, message }] passed to [next(err)]. *)
Record http_error : Type := mk_error { err_status : Z; err_message : message }.

Definition error_text (status : Z) (s : string) : http_error :=
  mk_error status [MText s].

(** [res.status(s).json({ data: p })] (status 200 for [res.json]) and
    [res.sendStatus(s)]. *)
Inductive response (P : Type) : Type :=
| RJson (status : Z) (payload : P)
| RStatus (status : Z).
Arguments RJson {P} status payload.
Arguments RStatus {P} status.

(** What one middleware does, in order. *)
Inductive act (P : Type) : Type :=
| ANext
| AFail (e : http_error)
| ASend (r : response P)
| AThrow.
Arguments ANext {P}.
Arguments AFail {P} e.
Arguments ASend {P} r.
Arguments AThrow {P}.

(** What the client observes: responses, error responses (from [next(err)]),
    500s from a thrown [TypeError], and control falling off the end of the
    chain (a [next()] with no function left, handed back to the router). *)
Inductive emit (P : Type) : Type :=
| EResp (r : response P)
| EError (e : http_error)
| EThrow
| EFallThrough.
Arguments EResp {P} r.
Arguments EError {P} e.
Arguments EThrow {P}.
Arguments EFallThrough {P}.

Definition middleware (S L P : Type) : Type := request -> L -> S -> L * S * list (act P).

(** Single-action middleware results. *)
Definition mw_next {S L P} (l : L) (s : S) : L * S * list (act P) := (l, s, [ANext]).
Definition mw_fail {S L P} (l : L) (s : S) (e : http_error) : L * S * list (act P) :=
  (l, s, [AFail e]).
Definition mw_throw {S L P} (l : L) (s : S) : L * S * list (act P) := (l, s, [AThrow]).
Definition mw_send {S L P} (l : L) (s : S) (r : response P) : L * S * list (act P) :=
  (l, s, [ASend r]).

Section Dispatch.
Context {S L P : Type}.
Implicit Types (m : middleware S L P) (ms : list (middleware S L P)) (rq : request) (l : L) (s : S).

(** One action, given the continuation [k] that runs the rest of the chain. *)
Definition do_act (k : S -> S * list (emit P)) (acc : S * list (emit P)) (a : act P)
  : S * list (emit P) :=
  let '(s0, out) := acc in
  match a with
  | ANext => let '(s1, o1) := k s0 in (s1, out ++ o1)
  | AFail e => (s0, out ++ [EError e])
  | ASend r => (s0, out ++ [EResp r])
  | AThrow => (s0, out ++ [EThrow])
  end.

Fixpoint run_cps ms rq l s : S * list (emit P) :=
  match ms with
  | [] => (s, [EFallThrough])
  | m :: rest =>
      let '(l', s', acts) := m rq l s in
      fold_left (do_act (run_cps rest rq l')) acts (s', [])
  end.

Definition emit_of (a : act P) : emit P :=
  match a with
  | ANext => EFallThrough
  | AFail e => EError e
  | ASend r => EResp r
  | AThrow => EThrow
  end.

Fixpoint run_halt ms rq l s : S * list (emit P) :=
  match ms with
  | [] => (s, [EFallThrough])
  | m :: rest =>
      let '(l', s', acts) := m rq l s in
      match acts with
      | ANext :: _ => run_halt rest rq l' s'
      | a :: _ => (s', [emit_of a])
      | [] => (s', [])
      end
  end.

(** Every function on the path performs exactly one action. *)
Fixpoint single_path ms rq l s : bool :=
  match ms with
  | [] => true
  | m :: rest =>
      let '(l', s', acts) := m rq l s in
      match acts with
      | [ANext] => single_path rest rq l' s'
      | [_] => true
      | _ => false
      end
  end.

(** ** Unfolding lemmas for the components *)

Lemma run_cps_next m ms rq l s l' s' :
  m rq l s = (l', s', [ANext]) -> run_cps (m :: ms) rq l s = run_cps ms rq l' s'.
Proof. simpl. intros ->. simpl. by destruct (run_cps ms rq l' s'). Qed.

Lemma run_cps_fail m ms rq l s l' s' e :
  m rq l s = (l', s', [AFail e]) -> run_cps (m :: ms) rq l s = (s', [EError e]).
Proof. simpl. by intros ->. Qed.

Lemma run_cps_send m ms rq l s l' s' r :
  m rq l s = (l', s', [ASend r]) -> run_cps (m :: ms) rq l s = (s', [EResp r]).
Proof. simpl. by intros ->. Qed.

Lemma run_cps_throw m ms rq l s l' s' :
  m rq l s = (l', s', [AThrow]) -> run_cps (m :: ms) rq l s = (s', [EThrow]).
Proof. simpl. by intros ->. Qed.

(** [next(err); next()]: the error is emitted, then the rest of the chain runs. *)
Lemma run_cps_fail_next m ms rq l s l' s' e :
  m rq l s = (l', s', [AFail e; ANext]) ->
  run_cps (m :: ms) rq l s =
    (fst (run_cps ms rq l' s'), EError e :: snd (run_cps ms rq l' s')).
Proof. simpl. intros ->. simpl. by destruct (run_cps ms rq l' s'). Qed.

Lemma run_halt_next m ms rq l s l' s' acts :
  m rq l s = (l', s', ANext :: acts) -> run_halt (m :: ms) rq l s = run_halt ms rq l' s'.
Proof. simpl. by intros ->. Qed.

Lemma run_halt_fail m ms rq l s l' s' e acts :
  m rq l s = (l', s', AFail e :: acts) -> run_halt (m :: ms) rq l s = (s', [EError e]).
Proof. simpl. by intros ->. Qed.

Lemma run_halt_send m ms rq l s l' s' r acts :
  m rq l s = (l', s', ASend r :: acts) -> run_halt (m :: ms) rq l s = (s', [EResp r]).
Proof. simpl. by intros ->. Qed.

Lemma run_halt_throw m ms rq l s l' s' acts :
  m rq l s = (l', s', AThrow :: acts) -> run_halt (m :: ms) rq l s = (s', [EThrow]).
Proof. simpl. by intros ->. Qed.

(** ** Refinement: the two dispatchers agree on single-action paths *)

Theorem run_cps_halt_agree ms rq l s :
  single_path ms rq l s = true -> run_cps ms rq l s = run_halt ms rq l s.
Proof.
  revert l s. induction ms as [|m ms IH]; intros l s Hs; [done|].
  simpl in *. destruct (m rq l s) as [[l' s'] acts].
  destruct acts as [|a [|a' acts]]; [done| |by destruct a].
  destruct a; simpl; try done.
  rewrite <- IH by done. by destruct (run_cps ms rq l' s').
Qed.

(** ** Invariants preserved by every function are preserved by a run *)

Section Preservation.
Variable I : S -> Prop.

Definition mw_preserves (m : middleware S L P) : Prop :=
  forall rq l s, I s -> I (m rq l s).1.2.

Lemma fold_do_act_preserves k acts acc :
  (forall s, I s -> I (k s).1) -> I acc.1 -> I (fold_left (do_act k) acts acc).1.
Proof.
  intros Hk. revert acc. induction acts as [|a acts IH]; intros [s0 out] H0; [done|].
  simpl. apply IH. destruct a; simpl; try done.
  specialize (Hk s0 H0). destruct (k s0). done.
Qed.

Lemma run_cps_preserves ms rq l s :
  Forall mw_preserves ms -> I s -> I (run_cps ms rq l s).1.
Proof.
  revert l s. induction ms as [|m ms IH]; intros l s Hall Hs; [done|].
  inversion Hall as [|? ? Hm Hrest]; subst. simpl.
  specialize (Hm rq l s Hs). destruct (m rq l s) as [[l' s'] acts].
  apply fold_do_act_preserves; [|done]. intros s0 H0. by apply IH.
Qed.

Lemma run_halt_preserves ms rq l s :
  Forall mw_preserves ms -> I s -> I (run_halt ms rq l s).1.
Proof.
  revert l s. induction ms as [|m ms IH]; intros l s Hall Hs; [done|].
  inversion Hall as [|? ? Hm Hrest]; subst. simpl.
  specialize (Hm rq l s Hs). destruct (m rq l s) as [[l' s'] acts].
  destruct acts as [|[] ?]; simpl; auto.
Qed.
End Preservation.
End Dispatch.

(** ** Field-validation rules (spec section 9's predicate and error pairs)

    Most validators of both controllers have one shape: read [data[k]]
    (after [const { data = {} } = req.body]), call [next()] when a test on it
    holds, [next(err)] otherwise.  [rule_mw] is that shape, [check_rules]
    evaluates a list of rules in order and stops at the first failure
    ([None] is the [TypeError] of a [null] [data]). *)

Record rule : Type := mk_rule {
  rule_field : string;
  rule_ok : jsval -> bool;
  rule_error : http_error
}.

Fixpoint check_rules (body : jsval) (rs : list rule) : option (option http_error) :=
  match rs with
  | [] => Some None
  | r :: rs' =>
      match body_field body (rule_field r) with
      | None => None
      | Some v => if rule_ok r v then check_rules body rs' else Some (Some (rule_error r))
      end
  end.

(** A rule holds of the body's data. *)
Definition rule_holds (body : jsval) (r : rule) : Prop :=
  exists v, body_field body (rule_field r) = Some v /\ rule_ok r v = true.

Definition rule_fails (body : jsval) (r : rule) : Prop :=
  exists v, body_field body (rule_field r) = Some v /\ rule_ok r v = false.

Section Rules.
Context {S L P : Type}.

Definition rule_mw (r : rule) : middleware S L P := fun rq l s =>
  match body_field (req_body rq) (rule_field r) with
  | None => mw_throw l s
  | Some v => if rule_ok r v then mw_next l s else mw_fail l s (rule_error r)
  end.

Definition rules_outcome (rs : list rule) (rq : request) (s : S)
    (k : S * list (emit P)) : S * list (emit P) :=
  match check_rules (req_body rq) rs with
  | None => (s, [EThrow])
  | Some (Some e) => (s, [EError e])
  | Some None => k
  end.

Lemma run_halt_rules rs (rest : list (middleware S L P)) rq l s :
  run_halt (map rule_mw rs ++ rest) rq l s = rules_outcome rs rq s (run_halt rest rq l s).
Proof.
  unfold rules_outcome. induction rs as [|r rs IH]; [done|]. simpl.
  unfold rule_mw at 1. destruct (body_field (req_body rq) (rule_field r)); [|done].
  by destruct (rule_ok r j).
Qed.

Lemma run_cps_rules rs (rest : list (middleware S L P)) rq l s :
  run_cps (map rule_mw rs ++ rest) rq l s = rules_outcome rs rq s (run_cps rest rq l s).
Proof.
  unfold rules_outcome. induction rs as [|r rs IH]; [done|]. simpl.
  unfold rule_mw at 1. destruct (body_field (req_body rq) (rule_field r)); [|done].
  destruct (rule_ok r j); simpl; [|done]. rewrite <- IH. by destruct (run_cps _ _ _ _).
Qed.

Lemma single_path_rules rs (rest : list (middleware S L P)) rq l s :
  check_rules (req_body rq) rs = Some None ->
  single_path (map rule_mw rs ++ rest) rq l s = single_path rest rq l s.
Proof.
  induction rs as [|r rs IH]; [done|]. simpl. unfold rule_mw at 1.
  destruct (body_field (req_body rq) (rule_field r)); [|done].
  destruct (rule_ok r j); [exact IH|done].
Qed.
End Rules.

(** The first failing rule decides: [check_rules] fails with [e] exactly
    when the rules before some [r] hold, [r] fails, and [e] is [r]'s error. *)
Lemma check_rules_first_failure body rs e :
  check_rules body rs = Some (Some e) <->
  exists pre r post, rs = pre ++ r :: post /\ Forall (rule_holds body) pre /\
                     rule_fails body r /\ e = rule_error r.
Proof.
  induction rs as [|r rs IH]; simpl.
  - split; [done|]. intros (pre & r & post & Heq & _). by destruct pre.
  - destruct (body_field body (rule_field r)) as [v|] eqn:Hv.
    + destruct (rule_ok r v) eqn:Hok.
      * rewrite IH. split.
        -- intros (pre & r' & post & -> & Hpre & Hf & ->).
           exists (r :: pre), r', post. split; [done|].
           split; [constructor; [by exists v|done]|]. by split.
        -- intros ([|r0 pre] & r' & post & Heq & Hpre & Hf & ->); simplify_eq/=.
           ++ destruct Hf as (v' & Hv' & Hok'). congruence.
           ++ inversion Hpre; subst. eauto 10.
      * split.
        -- intros [= <-]. exists [], r, rs. split; [done|].
           split; [constructor|]. split; [by exists v|done].
        -- intros ([|r0 pre] & r' & post & Heq & Hpre & Hf & ->); simplify_eq/=; [done|].
           inversion Hpre as [|? ? (v' & Hv' & Hok')]; congruence.
    + split; [done|]. intros ([|r0 pre] & r' & post & Heq & Hpre & Hf & ->); simplify_eq/=.
      * destruct Hf as (v' & Hv' & _). congruence.
      * inversion Hpre as [|? ? (v' & Hv' & _)]; congruence.
Qed.

(** All rules hold exactly when [check_rules] lets the request through. *)
Lemma check_rules_pass body rs :
  check_rules body rs = Some None <-> Forall (rule_holds body) rs.
Proof.
  induction rs as [|r rs IH]; simpl; [split; auto|].
  rewrite Forall_cons_iff, <- IH.
  destruct (body_field body (rule_field r)) as [v|] eqn:Hv.
  - destruct (rule_ok r v) eqn:Hok.
    + split; [intros H; split; [by exists v|done]|tauto].
    + split; [done|]. intros [(v' & Hv' & Hok') _]. congruence.
  - split; [done|]. intros [(v' & Hv' & _) _]. congruence.
Qed.

(** A chain of rules followed by a handler that performs one action runs the
    same under both dispatchers. *)
Lemma rules_handler_agree {S L P} rs (h : middleware S L P) rq l s :
  single_path [h] rq l s = true ->
  run_cps (map rule_mw rs ++ [h]) rq l s = run_halt (map rule_mw rs ++ [h]) rq l s.
Proof.
  intros Hh. rewrite run_cps_rules, run_halt_rules. unfold rules_outcome.
  by rewrite run_cps_halt_agree.
Qed.

(** ** Validators: functions that change neither state nor locals

    A validator returns its [locals] and collection unchanged and calls
    [next()] at most once.  [run_halt_validator] and [run_cps_validator] carry
    a relation [E] between the collection before and after a run past a
    validator, using only what the validator's [next()] call tells. *)

Fixpoint count_next {P} (acts : list (act P)) : nat :=
  match acts with
  | [] => 0
  | ANext :: acts' => S (count_next acts')
  | _ :: acts' => count_next acts'
  end.

Definition validator {S L P} (m : middleware S L P) : Prop :=
  forall rq l s, (m rq l s).1 = (l, s) /\ (count_next (m rq l s).2 <= 1)%nat.

Section Validators.
Context {S L P : Type}.
Implicit Types (m : middleware S L P) (rest : list (middleware S L P)).

Lemma fold_do_act_no_next (k : S -> S * list (emit P)) (acts : list (act P)) (s : S) out :
  count_next acts = 0%nat -> (fold_left (do_act k) acts (s, out)).1 = s.
Proof.
  revert out. induction acts as [|a acts IH]; intros out Hc; [done|].
  destruct a; simpl in *; try lia; apply IH; done.
Qed.

Lemma fold_do_act_one_next (k : S -> S * list (emit P)) (acts : list (act P)) (s : S) out :
  (count_next acts <= 1)%nat ->
  (fold_left (do_act k) acts (s, out)).1 = s \/
  (ANext ∈ acts /\ (fold_left (do_act k) acts (s, out)).1 = (k s).1).
Proof.
  revert out. induction acts as [|a acts IH]; intros out Hc; [by left|].
  destruct a; simpl in *.
  - right. split; [constructor|]. destruct (k s) as [s1 o1] eqn:Hk. simpl.
    by rewrite fold_do_act_no_next by lia.
  - destruct (IH (out ++ [EError e]) Hc) as [H|[Hin H]]; [by left|right].
    split; [by constructor|done].
  - destruct (IH (out ++ [EResp r]) Hc) as [H|[Hin H]]; [by left|right].
    split; [by constructor|done].
  - destruct (IH (out ++ [EThrow]) Hc) as [H|[Hin H]]; [by left|right].
    split; [by constructor|done].
Qed.

Lemma run_halt_validator (E : S -> S -> Prop) m rest rq l s :
  validator m -> E s s ->
  (ANext ∈ (m rq l s).2 -> E s (run_halt rest rq l s).1) ->
  E s (run_halt (m :: rest) rq l s).1.
Proof.
  intros Hv Hrefl Hnext. destruct (Hv rq l s) as [Hls _]. simpl.
  destruct (m rq l s) as [[l' s'] acts]. simpl in *. injection Hls as -> ->.
  destruct acts as [|[] acts]; simpl; try done. apply Hnext. constructor.
Qed.

Lemma run_cps_validator (E : S -> S -> Prop) m rest rq l s :
  validator m -> E s s ->
  (ANext ∈ (m rq l s).2 -> E s (run_cps rest rq l s).1) ->
  E s (run_cps (m :: rest) rq l s).1.
Proof.
  intros Hv Hrefl Hnext. destruct (Hv rq l s) as [Hls Hc]. simpl.
  destruct (m rq l s) as [[l' s'] acts]. simpl in *. injection Hls as -> ->.
  destruct (fold_do_act_one_next (run_cps rest rq l) acts s [] Hc) as [->|[Hin ->]]; auto.
Qed.

(** The same over a prefix of rules: the rest runs only when they all pass. *)
Lemma run_rules_effect (E : S -> S -> Prop) rs rest rq l s :
  E s s -> (check_rules (req_body rq) rs = Some None ->
            E s (run_halt rest rq l s).1 /\ E s (run_cps rest rq l s).1) ->
  E s (run_halt (map rule_mw rs ++ rest) rq l s).1 /\
  E s (run_cps (map rule_mw rs ++ rest) rq l s).1.
Proof.
  intros Hrefl Hrest. rewrite run_halt_rules, run_cps_rules. unfold rules_outcome.
  destruct (check_rules (req_body rq) rs) as [[e|]|]; simpl; auto.
Qed.
End Validators.

(** Prove [validator m] by unfolding [m] and splitting its branches. *)
Ltac solve_validator m :=
  intros ? ? ?; unfold m; repeat case_match; simpl; (split; [reflexivity|lia]).

(** ** Single-action functions: both dispatchers agree on chains of them *)

Definition single_act {S L P} (m : middleware S L P) : Prop :=
  forall rq l s, exists a, (m rq l s).2 = [a].

Lemma single_path_single_act {S L P} (ms : list (middleware S L P)) rq l s :
  Forall single_act ms -> single_path ms rq l s = true.
Proof.
  revert l s. induction ms as [|m ms IH]; intros l s Hall; [done|].
  inversion Hall as [|? ? Hm Hms]; subst. simpl. destruct (Hm rq l s) as [a Ha].
  destruct (m rq l s) as [[l' s'] acts]. simpl in Ha. subst acts. by destruct a; [apply IH| | |].
Qed.

Lemma run_cps_halt_single {S L P} (ms : list (middleware S L P)) rq l s :
  Forall single_act ms -> run_cps ms rq l s = run_halt ms rq l s.
Proof. intros Hall. by apply run_cps_halt_agree, single_path_single_act. Qed.

Lemma rule_mw_single {S L P} r : single_act (S:=S) (L:=L) (P:=P) (rule_mw r).
Proof. intros rq l s. unfold rule_mw. repeat case_match; by eexists. Qed.

Lemma Forall_rules_single {S L P} rs : Forall (single_act (S:=S) (L:=L) (P:=P)) (map rule_mw rs).
Proof. apply Forall_fmap, Forall_true. intros r. apply rule_mw_single. Qed.

(** Prove [single_act m] by unfolding [m] and splitting its branches. *)
Ltac solve_single m := intros ? ? ?; unfold m; repeat case_match; by eexists.

(** ** What a chain can emit, from what its functions do

    [acts_ok Pe Pr m]: every error [m] passes to [next(err)] satisfies [Pe]
    and every response it sends satisfies [Pr].  The dispatchers emit only
    what the functions of the chain do, so the property carries over to the
    chain's output. *)

Definition act_ok {P} (Pe : http_error -> Prop) (Pr : response P -> Prop) (a : act P) : Prop :=
  match a with AFail e => Pe e | ASend r => Pr r | _ => True end.

Definition emit_ok {P} (Pe : http_error -> Prop) (Pr : response P -> Prop) (o : emit P) : Prop :=
  match o with EError e => Pe e | EResp r => Pr r | _ => True end.

Definition acts_ok {S L P} Pe Pr (m : middleware S L P) : Prop :=
  forall rq l s, Forall (act_ok Pe Pr) (m rq l s).2.

(** [clean_fail m]: [m] changes the collection only when it sends a
    response (or throws, or does nothing): it never writes and then calls
    [next()] or [next(err)] first. *)
Definition clean_fail {S L P} (m : middleware S L P) : Prop :=
  forall rq l s,
    match m rq l s with
    | (_, s', ANext :: _) | (_, s', AFail _ :: _) => s' = s
    | _ => True
    end.

(** Spec sections 6 and 7: an error is a ValidationError (400) or a
    NotFound (404); a success is 200, 201 (created) or 204 (no content). *)
Definition client_error (e : http_error) : Prop := err_status e = 400%Z \/ err_status e = 404%Z.

Definition success_status {P} (r : response P) : Prop :=
  match r with
  | RJson st _ => st = 200%Z \/ st = 201%Z
  | RStatus st => st = 204%Z
  end.

Section Outcomes.
Context {S L P : Type} (Pe : http_error -> Prop) (Pr : response P -> Prop).
Implicit Types (m : middleware S L P) (ms : list (middleware S L P)).

Lemma fold_do_act_emits (k : S -> S * list (emit P)) acts s out :
  (forall s', Forall (emit_ok Pe Pr) (k s').2) -> Forall (act_ok Pe Pr) acts ->
  Forall (emit_ok Pe Pr) out -> Forall (emit_ok Pe Pr) (fold_left (do_act k) acts (s, out)).2.
Proof.
  intros Hk. revert s out. induction acts as [|a acts IH]; intros s out Ha Hout; [done|].
  apply Forall_cons_iff in Ha as [Ha Has]. simpl.
  destruct a; simpl; [destruct (k s) as [s1 o1] eqn:E|..]; apply IH; try done;
    apply Forall_app; (split; [done|]); [specialize (Hk s); by rewrite E in Hk|..];
    by repeat constructor.
Qed.

Lemma run_cps_emits ms rq l s :
  Forall (acts_ok Pe Pr) ms -> Forall (emit_ok Pe Pr) (run_cps ms rq l s).2.
Proof.
  revert l s. induction ms as [|m ms IH]; intros l s Hall; [by repeat constructor|].
  apply Forall_cons_iff in Hall as [Hm Hms]. simpl. specialize (Hm rq l s).
  destruct (m rq l s) as [[l' s'] acts]. apply fold_do_act_emits; auto.
Qed.

Lemma run_halt_emits ms rq l s :
  Forall (acts_ok Pe Pr) ms -> Forall (emit_ok Pe Pr) (run_halt ms rq l s).2.
Proof.
  revert l s. induction ms as [|m ms IH]; intros l s Hall; [by repeat constructor|].
  apply Forall_cons_iff in Hall as [Hm Hms]. simpl. specialize (Hm rq l s).
  destruct (m rq l s) as [[l' s'] acts]. simpl in Hm.
  destruct acts as [|[] acts]; apply Forall_cons_iff in Hm as [Ha _] || idtac; simpl; auto.
Qed.

(** Under [run_halt], a run that emits an error leaves the collection as it
    was: the failing function and every function before it did not write. *)
Lemma run_halt_error_unchanged ms rq l s e :
  Forall clean_fail ms -> EError e ∈ (run_halt ms rq l s).2 -> (run_halt ms rq l s).1 = s.
Proof.
  revert l s. induction ms as [|m ms IH]; intros l s Hall He.
  { simpl in He. by apply list_elem_of_singleton in He. }
  apply Forall_cons_iff in Hall as [Hm Hms]. simpl in *. specialize (Hm rq l s).
  destruct (m rq l s) as [[l' s'] acts]. destruct acts as [|[] acts]; simpl in *.
  2: subst s'; by apply (IH l').
  2: done.
  all: exfalso; revert He; rewrite ?list_elem_of_singleton, ?elem_of_nil; congruence.
Qed.

Lemma validator_clean_fail m : validator m -> clean_fail m.
Proof.
  intros Hv rq l s. destruct (Hv rq l s) as [Hls _].
  destruct (m rq l s) as [[l' s'] acts]. simpl in Hls. injection Hls as -> ->.
  by destruct acts as [|[] ?].
Qed.

Lemma rule_mw_acts_ok r : Pe (rule_error r) -> acts_ok Pe Pr (rule_mw (S:=S) (L:=L) r).
Proof. intros He rq l s. unfold rule_mw. repeat case_match; simpl; repeat constructor; simpl; done. Qed.

Lemma rules_acts_ok rs :
  Forall (fun r => Pe (rule_error r)) rs -> Forall (acts_ok Pe Pr) (map (rule_mw (S:=S) (L:=L)) rs).
Proof. induction 1 as [|r rs Hr _ IH]; simpl; constructor; [by apply rule_mw_acts_ok|done]. Qed.

Lemma rules_clean_fail rs : Forall clean_fail (map (rule_mw (S:=S) (L:=L) (P:=P)) rs).
Proof.
  apply Forall_fmap, Forall_true. intros r rq l s.
  unfold rule_mw, mw_throw, mw_next, mw_fail. repeat case_match; simplify_eq/=; done.
Qed.
End Outcomes.

(** Prove [acts_ok Pe Pr m] or [clean_fail m] for the functions [unf]
    unfolds: split every branch and check the one action it performs. *)
Ltac solve_acts_by unf :=
  intros ? ? ?; unf; unfold mw_next, mw_fail, mw_throw, mw_send; repeat case_match; simplify_eq/=;
  repeat apply List.Forall_cons; try apply List.Forall_nil;
  unfold act_ok, client_error, success_status, error_text; simpl; (done || lia).
Ltac solve_clean_by unf :=
  intros ? ? ?; unf; unfold mw_next, mw_fail, mw_throw, mw_send; repeat case_match; simplify_eq/=; done.

(** ** Requests that read the same

    [req_equiv]: same route parameter and equivalent bodies.  A function is
    [mw_proper] when it gives the same result on equivalent requests;
    chains of such functions do, under both dispatchers. *)

Definition req_equiv (rq1 rq2 : request) : Prop :=
  req_param rq1 = req_param rq2 /\ data_equiv (req_body rq1) (req_body rq2).

#[export] Instance req_equiv_equivalence : Equivalence req_equiv.
Proof.
  split.
  - intros rq. by split.
  - intros rq1 rq2 [Hp Hb]. by split.
  - intros rq1 rq2 rq3 [Hp1 Hb1] [Hp2 Hb2]. split; [congruence|by etrans].
Qed.

Definition mw_proper {S L P} (m : middleware S L P) : Prop :=
  Proper (req_equiv ==> eq ==> eq ==> eq) m.

Section Proper.
Context {S L P : Type}.
Implicit Types (m : middleware S L P) (ms : list (middleware S L P)).

Lemma run_halt_proper ms : Forall mw_proper ms -> Proper (req_equiv ==> eq ==> eq ==> eq) (run_halt ms).
Proof.
  induction 1 as [|m ms Hm _ IH]; intros rq1 rq2 Hrq l ? <- s ? <-; [done|].
  simpl. rewrite (Hm rq1 rq2 Hrq l l eq_refl s s eq_refl).
  destruct (m rq2 l s) as [[l' s'] [|[] ?]]; try done. by apply IH.
Qed.

Lemma fold_do_act_ext (k1 k2 : S -> S * list (emit P)) acts acc :
  (forall x, k1 x = k2 x) -> fold_left (do_act k1) acts acc = fold_left (do_act k2) acts acc.
Proof.
  intros Hk. revert acc. induction acts as [|a acts IH]; intros [s0 out]; [done|].
  simpl. rewrite <- IH. destruct a; simpl; [by rewrite Hk|done..].
Qed.

Lemma run_cps_proper ms : Forall mw_proper ms -> Proper (req_equiv ==> eq ==> eq ==> eq) (run_cps ms).
Proof.
  induction 1 as [|m ms Hm _ IH]; intros rq1 rq2 Hrq l ? <- s ? <-; [done|].
  simpl. rewrite (Hm rq1 rq2 Hrq l l eq_refl s s eq_refl).
  destruct (m rq2 l s) as [[l' s'] acts]. apply fold_do_act_ext. intros x. by apply IH.
Qed.

Lemma rule_mw_proper r : mw_proper (rule_mw (S:=S) (L:=L) (P:=P) r).
Proof. intros rq1 rq2 [_ Hb] l ? <- s ? <-. unfold rule_mw. by rewrite (data_equiv_field _ _ _ Hb). Qed.
End Proper.

(** Prove [mw_proper m] for the functions [unf] unfolds to their reads of
    the request. *)
Ltac solve_proper_by unf :=
  let Hp := fresh "Hp" in let Hb := fresh "Hb" in
  intros ? ? [Hp Hb] ? ? <- ? ? <-; unf;
  rewrite ?Hp, ?(data_equiv_field _ _ _ Hb), ?(data_equiv_or _ _ _ Hb); reflexivity.

(** ** A ledger of created records

    [f s] lists the keys of a collection and [g r] the keys a response
    announces as created.  A function keeps the ledger when the keys after
    it are, up to order, the keys before it and those its responses
    announce, it calls [next()] at most once, and only its first action may
    announce anything.  Chains of such functions keep it: the keys after a
    run are the keys before and those of the run's responses. *)

Section Ledger.
Context {S L P K : Type} (f : S -> list K) (g : response P -> list K).
Implicit Types (m : middleware S L P) (ms : list (middleware S L P)).

Definition act_created (a : act P) : list K := match a with ASend r => g r | _ => [] end.
Definition emit_created (o : emit P) : list K := match o with EResp r => g r | _ => [] end.

Definition ledger m : Prop :=
  forall rq l s,
    f (m rq l s).1.2 ≡ₚ f s ++ concat (map act_created (m rq l s).2) /\
    (count_next (m rq l s).2 <= 1)%nat /\ concat (map act_created (tail (m rq l s).2)) = [].

Lemma fold_do_act_no_next_out (k : S -> S * list (emit P)) acts s0 out :
  count_next acts = 0%nat ->
  concat (map emit_created (fold_left (do_act k) acts (s0, out)).2) =
    concat (map emit_created out) ++ concat (map act_created acts).
Proof.
  revert out. induction acts as [|a acts IH]; intros out Hc; simpl; [by rewrite app_nil_r|].
  destruct a; simpl in *; try lia; rewrite IH by done; rewrite map_app, concat_app; simpl;
    by rewrite ?app_nil_r, <- ?app_assoc.
Qed.

Lemma fold_do_act_ledger (k : S -> S * list (emit P)) acts s0 out :
  (forall x, f (k x).1 ≡ₚ f x ++ concat (map emit_created (k x).2)) -> (count_next acts <= 1)%nat ->
  f (fold_left (do_act k) acts (s0, out)).1 ++ concat (map emit_created out) ++ concat (map act_created acts)
    ≡ₚ f s0 ++ concat (map emit_created (fold_left (do_act k) acts (s0, out)).2).
Proof.
  intros Hk. revert out. induction acts as [|a acts IH]; intros out Hc; simpl; [by rewrite !app_nil_r|].
  destruct a; simpl in *.
  2-4: rewrite <- IH by done; rewrite map_app, concat_app; simpl; by rewrite ?app_nil_r, <- ?app_assoc.
  destruct (k s0) as [s1 o1] eqn:E. simpl.
  rewrite fold_do_act_no_next, fold_do_act_no_next_out by lia.
  specialize (Hk s0). rewrite E in Hk. simpl in Hk. rewrite Hk, map_app, concat_app.
  rewrite <- !app_assoc. apply Permutation_app_head. rewrite !app_assoc.
  apply Permutation_app_tail, Permutation_app_comm.
Qed.

Lemma run_cps_ledger ms rq l s :
  Forall ledger ms -> f (run_cps ms rq l s).1 ≡ₚ f s ++ concat (map emit_created (run_cps ms rq l s).2).
Proof.
  revert l s. induction ms as [|m ms IH]; intros l s Hall; simpl; [by rewrite app_nil_r|].
  apply Forall_cons_iff in Hall as [Hm Hms]. destruct (Hm rq l s) as (Hf & Hc & _).
  destruct (m rq l s) as [[l' s'] acts]. simpl in *.
  pose proof (fold_do_act_ledger (run_cps ms rq l') acts s' [] (fun x => IH l' x Hms) Hc) as Hfold.
  simpl in Hfold. apply (Permutation_app_inv_r (concat (map act_created acts))).
  rewrite Hfold, Hf, <- !app_assoc. apply Permutation_app_head, Permutation_app_comm.
Qed.

Lemma run_halt_ledger ms rq l s :
  Forall ledger ms -> f (run_halt ms rq l s).1 ≡ₚ f s ++ concat (map emit_created (run_halt ms rq l s).2).
Proof.
  revert l s. induction ms as [|m ms IH]; intros l s Hall; simpl; [by rewrite app_nil_r|].
  apply Forall_cons_iff in Hall as [Hm Hms]. destruct (Hm rq l s) as (Hf & _ & Ht).
  destruct (m rq l s) as [[l' s'] acts]. simpl in *.
  destruct acts as [|a acts]; simpl in *; [done|]. rewrite Ht, app_nil_r in Hf.
  destruct a; simpl in *; [|by rewrite Hf, app_nil_r..].
  rewrite (IH l' s' Hms), Hf. by rewrite app_nil_r.
Qed.

End Ledger.
