(* ===== verification/Express.v ===== *)
(** * Express: the route dispatch of Express 4

    [router.route(path).get(f1, f2, ...)] stores the functions of an
    exported array as the layers of a route; [Route.prototype.dispatch]
    runs them with one [next] closure and one layer index [idx] shared by
    the whole request:
    - [next()] takes [stack[idx++]] and calls it; past the last layer it
      calls [done()], which leaves the route (the request falls through to
      the app's later handlers; after a response, Express's final handler
      ignores it);
    - [next(err)] walks every remaining layer with [handle_error], which
      skips a function of arity 3 and calls [next(err)] again, so the index
      ends past the last layer and [done(err)] hands the error to the
      app's error handler;
    - a function that throws is caught by [Layer.handle_request], which
      calls [next(err)].
    [express_next] is that [next()], with the layer index, the collection
    and the emissions so far threaded through; [run_acts] runs the actions
    of one function in order.  The recursion is on the depth of nested
    [next()] calls, bounded by fuel: [express_terminates] shows that
    [length ms + 1] is always enough and that more fuel changes nothing.

    The consequence for the two [validate...Id] functions, which call
    [next(err)] and then [next()]: the second [next()] finds the index past
    the last layer and only leaves the route.  [run_express_halt]: on
    chains of functions that perform one action, or [next(err)] then
    [next()], Express gives the collection of the short-circuit pipeline
    [run_halt] and its emissions followed at most by that fall-through. *)

From S2P Require Import Prelude Json Middleware.

(** The two shapes of action sequences the controllers' functions have. *)
Definition express_shape {St L P} (m : middleware St L P) : Prop :=
  forall rq l s, (exists a, (m rq l s).2 = [a]) \/ (exists e, (m rq l s).2 = [AFail e; ANext]).

Section Dispatch.
Context {St L P : Type} (ms : list (middleware St L P)) (rq : request).

(** The shared index, the collection and the emissions so far. *)
Definition frame : Type := nat * St * list (emit P).

(** The actions of one function, in order; [next] is the route's [next()]. *)
Fixpoint run_acts (next : nat -> L -> St -> list (emit P) -> option frame)
    (idx : nat) (l : L) (s : St) (out : list (emit P)) (acts : list (act P)) : option frame :=
  match acts with
  | [] => Some (idx, s, out)
  | ANext :: rest =>
      match next idx l s out with
      | Some (idx', s', out') => run_acts next idx' l s' out' rest
      | None => None
      end
  | AFail e :: rest => run_acts next (length ms) l s (out ++ [EError e]) rest
  | ASend r :: rest => run_acts next idx l s (out ++ [EResp r]) rest
  | AThrow :: _ => Some (length ms, s, out ++ [EThrow])
  end.

(** [next()]: call [stack[idx++]], or leave the route past the last layer.
    [None] when the fuel (the depth of nested calls) runs out. *)
Fixpoint express_next (fuel : nat) (idx : nat) (l : L) (s : St) (out : list (emit P)) : option frame :=
  match fuel with
  | O => None
  | Datatypes.S f =>
      match @lookup nat (middleware St L P) _ _ idx ms with
      | None => Some (idx, s, out ++ [EFallThrough])
      | Some m => let '(l', s', acts) := m rq l s in run_acts (express_next f) (Datatypes.S idx) l' s' out acts
      end
  end.
End Dispatch.

(** [route.dispatch(req, res, done)]: the first [next()], with a fuel of one
    more than the number of layers. *)
Definition run_express {St L P} (ms : list (middleware St L P)) (rq : request) (l : L) (s : St)
  : St * list (emit P) :=
  match express_next ms rq (Datatypes.S (length ms)) 0 l s [] with
  | Some (_, s', out) => (s', out)
  | None => (s, [])
  end.

Section Proofs.
Context {St L P : Type} (ms : list (middleware St L P)) (rq : request).
Implicit Types (idx : nat) (l : L) (s : St) (out : list (emit P)) (acts : list (act P)).

(** ** The fuel is enough *)

(** A [next] that, given fuel for the layers left, returns without moving
    the index backwards. *)
Definition next_ok (next : nat -> L -> St -> list (emit P) -> option frame) (f : nat) : Prop :=
  forall idx l s out, length ms - idx < f ->
    exists idx' s' out', next idx l s out = Some (idx', s', out') /\ length ms - idx' <= length ms - idx.

Lemma run_acts_total next f idx l s out acts :
  next_ok next f -> length ms - idx < f ->
  exists idx' s' out', run_acts ms next idx l s out acts = Some (idx', s', out') /\
                       length ms - idx' <= length ms - idx.
Proof.
  intros Hn. revert idx s out. induction acts as [|a acts IH]; intros idx s out Hf; simpl.
  - by eauto 10.
  - destruct a.
    + destruct (Hn idx l s out Hf) as (idx1 & s1 & out1 & -> & H1).
      destruct (IH idx1 s1 out1 ltac:(lia)) as (idx2 & s2 & out2 & -> & H2). eauto 10 with lia.
    + destruct (IH (length ms) s (out ++ [EError e]) ltac:(lia)) as (idx2 & s2 & out2 & -> & H2).
      eauto 10 with lia.
    + destruct (IH idx s (out ++ [EResp r]) Hf) as (idx2 & s2 & out2 & -> & H2). eauto 10 with lia.
    + eauto 10 with lia.
Qed.

Lemma express_next_total f : next_ok (express_next ms rq f) f.
Proof.
  induction f as [|f IH]; intros idx l s out Hf; [lia|]. simpl.
  destruct (ms !! idx) as [m|] eqn:Hm; [|by eauto 10].
  apply lookup_lt_Some in Hm. change (idx < length ms) in Hm. destruct (m rq l s) as [[l' s'] acts].
  assert (Hf' : length ms - Datatypes.S idx < f) by lia.
  destruct (run_acts_total (express_next ms rq f) f (Datatypes.S idx) l' s' out acts IH Hf')
    as (idx' & s1 & out1 & -> & H). eauto 10 with lia.
Qed.

(** More fuel gives the same result. *)
Lemma run_acts_mono (next1 next2 : nat -> L -> St -> list (emit P) -> option frame) idx l s out acts r :
  (forall idx l s out r, next1 idx l s out = Some r -> next2 idx l s out = Some r) ->
  run_acts ms next1 idx l s out acts = Some r -> run_acts ms next2 idx l s out acts = Some r.
Proof.
  intros Hn. revert idx s out. induction acts as [|a acts IH]; intros idx s out; simpl; [done|].
  destruct a; try apply IH; try done.
  destruct (next1 idx l s out) as [[[idx1 s1] out1]|] eqn:E; [|done].
  rewrite (Hn _ _ _ _ _ E). apply IH.
Qed.

Lemma express_next_mono f idx l s out r :
  express_next ms rq f idx l s out = Some r -> express_next ms rq (Datatypes.S f) idx l s out = Some r.
Proof.
  revert idx l s out r. induction f as [|f IH]; intros idx l s out r; [done|].
  cbn [express_next]. destruct (ms !! idx) as [m|]; [|done].
  destruct (m rq l s) as [[l' s'] acts]. by apply run_acts_mono.
Qed.

Lemma express_next_more f k idx l s out r :
  express_next ms rq f idx l s out = Some r -> express_next ms rq (f + k) idx l s out = Some r.
Proof.
  intros H. induction k as [|k IHk]; [by rewrite Nat.add_0_r|].
  rewrite Nat.add_succ_r. by apply express_next_mono.
Qed.
(** ** Express and the short-circuit pipeline *)

Lemma express_next_halt f idx l s out :
  Forall express_shape ms -> length ms - idx < f ->
  exists idx' tail,
    express_next ms rq f idx l s out =
      Some (idx', (run_halt (drop idx ms) rq l s).1, out ++ (run_halt (drop idx ms) rq l s).2 ++ tail) /\
    (tail = [] \/ tail = [EFallThrough]) /\ (single_path (drop idx ms) rq l s = true -> tail = []).
Proof.
  intros Hall. revert idx l s out. induction f as [|f IH]; intros idx l s out Hf; [lia|].
  cbn [express_next]. destruct (ms !! idx) as [m|] eqn:Hm.
  2: { rewrite drop_ge by (by apply lookup_ge_None). exists idx, []. simpl. rewrite ?app_nil_r. by repeat split; auto. }
  pose proof (lookup_lt_Some _ _ _ Hm) as Hlt. change (idx < length ms) in Hlt.
  rewrite (drop_S ms m idx Hm). cbn [run_halt single_path].
  destruct (Forall_lookup_1 _ _ _ _ Hall Hm rq l s) as [[a Ha]|[e He]];
    destruct (m rq l s) as [[l' s'] acts]; simpl in *; subst acts.
  - destruct a; simpl.
    + destruct (IH (Datatypes.S idx) l' s' out ltac:(lia)) as (idx' & tail & -> & Ht & Hs).
      exists idx', tail. by repeat split; auto.
    + exists (length ms), []. rewrite ?app_nil_r. by repeat split; auto.
    + exists (Datatypes.S idx), []. rewrite ?app_nil_r. by repeat split; auto.
    + exists (length ms), []. rewrite ?app_nil_r. by repeat split; auto.
  - destruct f as [|f]; [lia|]. cbn [express_next].
    cbn [run_acts]. rewrite (lookup_ge_None_2 ms (length ms) (le_n _)). simpl.
    exists (length ms), [EFallThrough]. rewrite <- app_assoc. repeat split; auto. discriminate.
Qed.

(** On chains of the controllers' shapes, Express leaves the collection
    as the short-circuit pipeline does and emits what it emits, followed at
    most by a fall-through; on a path of single actions, exactly the same. *)
Lemma run_express_halt l s :
  Forall express_shape ms ->
  (run_express ms rq l s).1 = (run_halt ms rq l s).1 /\
  exists tail, (run_express ms rq l s).2 = (run_halt ms rq l s).2 ++ tail /\
               (tail = [] \/ tail = [EFallThrough]) /\ (single_path ms rq l s = true -> tail = []).
Proof.
  intros Hall. unfold run_express.
  destruct (express_next_halt (Datatypes.S (length ms)) 0 l s [] Hall ltac:(lia)) as (idx & tail & -> & Ht & Hs).
  simpl. split; [done|]. by exists tail.
Qed.

Lemma run_express_single l s :
  Forall express_shape ms -> single_path ms rq l s = true -> run_express ms rq l s = run_halt ms rq l s.
Proof.
  intros Hall Hs. destruct (run_express_halt l s Hall) as (H1 & tail & H2 & _ & Ht).
  rewrite (Ht Hs), app_nil_r in H2. destruct (run_express ms rq l s), (run_halt ms rq l s). simpl in *. by subst.
Qed.
End Proofs.

(** ** Equivalent requests *)

Lemma run_acts_ext {St L P} (ms : list (middleware St L P)) next1 next2 idx l s out acts :
  (forall idx l s out, next1 idx l s out = next2 idx l s out) ->
  run_acts ms next1 idx l s out acts = run_acts ms next2 idx l s out acts.
Proof.
  intros Hn. revert idx s out. induction acts as [|a acts IH]; intros idx s out; simpl; [done|].
  destruct a; try apply IH; try done. rewrite Hn. destruct (next2 idx l s out) as [[[? ?] ?]|]; [apply IH|done].
Qed.

Lemma run_express_proper {St L P} (ms : list (middleware St L P)) :
  Forall mw_proper ms -> Proper (req_equiv ==> eq ==> eq ==> eq) (run_express ms).
Proof.
  intros Hall rq1 rq2 Hrq l ? <- s ? <-. unfold run_express.
  assert (Hf : forall f idx l s out, express_next ms rq1 f idx l s out = express_next ms rq2 f idx l s out).
  { induction f as [|f IH]; intros idx l' s' out; [done|]. cbn [express_next].
    destruct (@lookup nat (middleware St L P) _ _ idx ms) as [m|] eqn:Hm; [|done].
    rewrite (Forall_lookup_1 _ _ _ _ Hall Hm rq1 rq2 Hrq l' l' eq_refl s' s' eq_refl).
    destruct (m rq2 l' s') as [[l'' s''] acts]. by apply run_acts_ext. }
  by rewrite Hf.
Qed.

(** ** Termination *)

(** The route dispatch terminates: whatever functions a route holds and
    whatever they do, [length ms + 1] nested calls of [next()] are enough
    to run a request to the end, and more fuel gives the same result. *)
Lemma express_terminates {St L P} (ms : list (middleware St L P)) rq l s :
  exists r, express_next ms rq (Datatypes.S (length ms)) 0 l s [] = Some r /\
            forall k, express_next ms rq (Datatypes.S (length ms) + k) 0 l s [] = Some r.
Proof.
  destruct (express_next_total ms rq (Datatypes.S (length ms)) 0 l s [] ltac:(lia)) as (i & s' & o & H & _).
  exists (i, s', o). split; [done|]. intros k. by apply express_next_more.
Qed.

(** Prove [express_shape m] or [single_act m] for the functions [unf]
    unfolds. *)
Ltac solve_shape_by unf :=
  intros ? ? ?; unf; unfold mw_next, mw_fail, mw_throw, mw_send; repeat case_match; simplify_eq/=;
  first [left; by eexists | right; by eexists].
Ltac solve_single_by unf :=
  intros ? ? ?; unf; unfold mw_next, mw_fail, mw_throw, mw_send; repeat case_match; simplify_eq/=;
  by eexists.

(** On chains of the controllers' shapes the short-circuit pipeline emits
    exactly one thing. *)
Lemma run_halt_one {St L P} (ms : list (middleware St L P)) rq l s :
  Forall express_shape ms -> exists o, (run_halt ms rq l s).2 = [o].
Proof.
  revert l s. induction ms as [|m ms IH]; intros l s Hall; [by eexists|].
  apply Forall_cons_iff in Hall as [Hm Hms]. simpl.
  destruct (Hm rq l s) as [[a Ha]|[e He]]; destruct (m rq l s) as [[l' s'] acts]; simpl in *; subst acts;
    [destruct a; [by apply IH|by eexists..]|by eexists].
Qed.

Lemma single_act_shape {St L P} (m : middleware St L P) : single_act m -> express_shape m.
Proof. intros Hm rq l s. left. apply Hm. Qed.

(** On chains of single-action functions Express 4 runs exactly the
    short-circuit pipeline. *)
Lemma run_express_single_act {St L P} (ms : list (middleware St L P)) rq l s :
  Forall single_act ms -> run_express ms rq l s = run_halt ms rq l s.
Proof.
  intros Hall. apply run_express_single; [|by apply single_path_single_act].
  eapply List.Forall_impl; [|exact Hall]. intros m Hm. by apply single_act_shape.
Qed.

(** ** Counting the responses of a request *)

(** The emissions that write a response to the client: a response sent by
    a handler, the error handler's [res.status(status).json(...)], and the
    500 of a thrown error.  A fall-through writes nothing once a response
    was sent. *)
Fixpoint writes {P} (out : list (emit P)) : nat :=
  match out with
  | [] => 0
  | EFallThrough :: rest => writes rest
  | _ :: rest => Datatypes.S (writes rest)
  end.

(** A route handler: it answers, it never calls [next()]. *)
Definition answers {St L P} (h : middleware St L P) : Prop :=
  forall rq l s, exists a, (h rq l s).2 = [a] /\ a <> ANext.

Lemma writes_app {P} (o1 o2 : list (emit P)) : writes (o1 ++ o2) = writes o1 + writes o2.
Proof. induction o1 as [|[] o1 IH]; simpl; lia. Qed.

Lemma writes_le {P} (o : list (emit P)) : writes o <= length o.
Proof. induction o as [|[] o IH]; simpl; lia. Qed.

Lemma writes_tail {P} (tail : list (emit P)) : tail = [] \/ tail = [EFallThrough] -> writes tail = 0.
Proof. by intros [-> | ->]. Qed.

Section Counting.
Context {St L P : Type}.
Implicit Types (ms pre post : list (middleware St L P)) (m h : middleware St L P).

(** A chain that ends with a handler is answered by one of its functions:
    the short-circuit pipeline emits one thing, not a fall-through. *)
Lemma run_halt_answer ms h rq l s :
  Forall express_shape ms -> answers h ->
  exists o, (run_halt (ms ++ [h]) rq l s).2 = [o] /\ o <> EFallThrough.
Proof.
  intros Hall Hh. revert l s. induction ms as [|m ms IH]; intros l s.
  - simpl. destruct (Hh rq l s) as [a [Ha Hna]]. destruct (h rq l s) as [[l' s'] acts]; simpl in *; subst acts.
    destruct a; [done|by eexists..].
  - apply Forall_cons_iff in Hall as [Hm Hms]. simpl.
    destruct (Hm rq l s) as [[a Ha]|[e He]]; destruct (m rq l s) as [[l' s'] acts]; simpl in *; subst acts;
      [destruct a; [by apply IH|by eexists..]|by eexists].
Qed.

(** The continuation reading emits what the short-circuit pipeline emits,
    then possibly more. *)
Lemma run_cps_halt_prefix ms rq l s :
  Forall express_shape ms -> exists rest, (run_cps ms rq l s).2 = (run_halt ms rq l s).2 ++ rest.
Proof.
  revert l s. induction ms as [|m ms IH]; intros l s Hall; [by exists []|].
  apply Forall_cons_iff in Hall as [Hm Hms].
  destruct (Hm rq l s) as [[a Ha]|[e He]]; destruct (m rq l s) as [[l' s'] acts] eqn:Em; [simpl in Ha|simpl in He]; subst acts.
  - destruct a.
    + rewrite (run_cps_next _ _ _ _ _ _ _ Em), (run_halt_next _ _ _ _ _ _ _ _ Em). by apply IH.
    + rewrite (run_cps_fail _ _ _ _ _ _ _ _ Em), (run_halt_fail _ _ _ _ _ _ _ _ _ Em). by exists [].
    + rewrite (run_cps_send _ _ _ _ _ _ _ _ Em), (run_halt_send _ _ _ _ _ _ _ _ _ Em). by exists [].
    + rewrite (run_cps_throw _ _ _ _ _ _ _ Em), (run_halt_throw _ _ _ _ _ _ _ _ Em). by exists [].
  - rewrite (run_cps_fail_next _ _ _ _ _ _ _ _ Em), (run_halt_fail _ _ _ _ _ _ _ _ _ Em).
    by exists (run_cps ms rq l' s').2.
Qed.

(** A chain with at most one function that calls [next(err)] then [next()]
    emits at most two things under the continuation reading. *)
Lemma run_cps_one_double pre m post rq l s :
  Forall single_act pre -> express_shape m -> Forall single_act post ->
  length (run_cps (pre ++ m :: post) rq l s).2 <= 2.
Proof.
  intros Hpre Hm Hpost.
  assert (Hone : forall l s, length (run_cps post rq l s).2 <= 1).
  { intros l0 s0. rewrite run_cps_halt_single by done.
    destruct (run_halt_one post rq l0 s0) as [o ->]; [|simpl; lia].
    eapply List.Forall_impl; [|exact Hpost]. intros ? ?. by apply single_act_shape. }
  revert l s. induction pre as [|p pre IH]; intros l s; cbn [app].
  - destruct (Hm rq l s) as [[a Ha]|[e He]]; destruct (m rq l s) as [[l' s'] acts] eqn:Em; [simpl in Ha|simpl in He]; subst acts.
    + destruct a; [rewrite (run_cps_next _ _ _ _ _ _ _ Em); specialize (Hone l' s'); lia|..];
        [rewrite (run_cps_fail _ _ _ _ _ _ _ _ Em)|rewrite (run_cps_send _ _ _ _ _ _ _ _ Em)
        |rewrite (run_cps_throw _ _ _ _ _ _ _ Em)]; simpl; lia.
    + rewrite (run_cps_fail_next _ _ _ _ _ _ _ _ Em). simpl. specialize (Hone l' s'). lia.
  - apply Forall_cons_iff in Hpre as [Hp Hpre']. destruct (Hp rq l s) as [a Ha].
    destruct (p rq l s) as [[l' s'] acts] eqn:Ep; simpl in Ha; subst acts.
    destruct a; [rewrite (run_cps_next _ _ _ _ _ _ _ Ep); by apply IH|..];
      [rewrite (run_cps_fail _ _ _ _ _ _ _ _ Ep)|rewrite (run_cps_send _ _ _ _ _ _ _ _ Ep)
      |rewrite (run_cps_throw _ _ _ _ _ _ _ Ep)]; simpl; lia.
Qed.
End Counting.

(** A chain in which at most one function calls [next(err)] then
    [next()]. *)
Definition one_double {St L P} (ms : list (middleware St L P)) : Prop :=
  exists pre m post, ms = pre ++ m :: post /\ Forall single_act pre /\ express_shape m /\ Forall single_act post.

Lemma one_double_shape {St L P} (ms : list (middleware St L P)) : one_double ms -> Forall express_shape ms.
Proof.
  intros (pre & m & post & -> & Hpre & Hm & Hpost). apply Forall_app. split; [|constructor; [done|]];
    (eapply List.Forall_impl; [|eassumption]); intros ? ?; by apply single_act_shape.
Qed.

Lemma one_double_here {St L P} (m : middleware St L P) ms :
  express_shape m -> Forall single_act ms -> one_double (m :: ms).
Proof. intros Hm Hms. by exists [], m, ms. Qed.

Lemma one_double_cons {St L P} (m : middleware St L P) ms :
  single_act m -> one_double ms -> one_double (m :: ms).
Proof.
  intros Hm (pre & m' & post & -> & Hpre & Hm' & Hpost). exists (m :: pre), m', post.
  rewrite app_comm_cons. by repeat split; [constructor|..].
Qed.

(** A chain with at most one double call that ends with a handler writes
    exactly one response under Express 4 and under the short-circuit
    pipeline, and one or two under the continuation reading. *)
Lemma chain_writes {St L P} (ms : list (middleware St L P)) h rq l s :
  one_double ms -> list.last ms = Some h -> answers h ->
  writes (run_express ms rq l s).2 = 1 /\ writes (run_halt ms rq l s).2 = 1 /\
  1 <= writes (run_cps ms rq l s).2 <= 2.
Proof.
  intros Hd Hl Hh. pose proof (one_double_shape ms Hd) as Hs.
  assert (Hhalt : writes (run_halt ms rq l s).2 = 1).
  { apply last_Some in Hl as [ms' ->]. apply Forall_app in Hs as [Hs _].
    destruct (run_halt_answer ms' h rq l s Hs Hh) as [o [-> Ho]]. by destruct o. }
  destruct (run_express_halt ms rq l s Hs) as (_ & tail & -> & Ht & _).
  destruct (run_cps_halt_prefix ms rq l s Hs) as [rest Hrest].
  destruct Hd as (pre & m & post & E & Hpre & Hm & Hpost).
  pose proof (run_cps_one_double pre m post rq l s Hpre Hm Hpost) as Hle. rewrite <- E in Hle.
  pose proof (writes_le (run_cps ms rq l s).2) as Hw.
  rewrite writes_app, (writes_tail tail Ht). rewrite Hrest, writes_app in *. lia.
Qed.

Ltac solve_answers_by unf :=
  intros ? ? ?; unf; unfold mw_next, mw_fail, mw_throw, mw_send; repeat case_match; simplify_eq/=;
  eexists; (split; [reflexivity|discriminate]).

(** Prove [one_double ms] for a concrete chain, finding the double call. *)
Ltac solve_one_double unf :=
  first [apply one_double_here;
           [solve_shape_by unf|repeat apply List.Forall_cons; try apply List.Forall_nil; solve_single_by unf]
        |apply one_double_cons; [solve_single_by unf|solve_one_double unf]].

(** ** Runs that answer with one emission *)

Lemma run_one {St E} (r : St * list E) s' o (Q : St -> E -> Prop) :
  r = (s', [o]) -> Q s' o -> exists s' o, r = (s', [o]) /\ Q s' o.
Proof. intros -> HQ. by exists s', o. Qed.

(** A validator that calls [next()] (when [Pn] holds), calls [next(err)]
    with an error satisfying [Pe], or throws; it writes nothing. *)
Definition vcases {St L P} (m : middleware St L P) rq l s (Pe : http_error -> Prop) (Pn : Prop) : Prop :=
  (m rq l s = (l, s, [ANext]) /\ Pn) \/ (exists e, m rq l s = (l, s, [AFail e]) /\ Pe e) \/
  m rq l s = (l, s, [AThrow]).

Lemma halt_vcases {St L P} (m : middleware St L P) rest rq l s Pe Pn (Q : St -> emit P -> Prop) :
  vcases m rq l s Pe Pn -> (forall e, Pe e -> Q s (EError e)) -> Q s EThrow ->
  (Pn -> exists s' o, run_halt rest rq l s = (s', [o]) /\ Q s' o) ->
  exists s' o, run_halt (m :: rest) rq l s = (s', [o]) /\ Q s' o.
Proof.
  intros [[Hm Hn]|[(e & Hm & He)|Hm]] Herr Hth Hrest.
  - rewrite (run_halt_next _ _ _ _ _ _ _ _ Hm). by apply Hrest.
  - eapply run_one; [exact (run_halt_fail _ _ _ _ _ _ _ _ _ Hm)|]. by apply Herr.
  - eapply run_one; [exact (run_halt_throw _ _ _ _ _ _ _ _ Hm)|]. done.
Qed.

(** What the short-circuit pipeline answers with one emission, Express 4
    answers with the same emission first, and whatever follows writes
    nothing. *)
Lemma express_of_halt {St L P} (ms : list (middleware St L P)) rq l s (Q : St -> emit P -> Prop) :
  Forall express_shape ms ->
  (exists s' o, run_halt ms rq l s = (s', [o]) /\ Q s' o) ->
  exists s' o tail, run_express ms rq l s = (s', o :: tail) /\ writes tail = 0%nat /\ Q s' o.
Proof.
  intros Hs (s' & o & Hh & HQ).
  destruct (run_express_halt ms rq l s Hs) as (H1 & tail & H2 & Ht & _). rewrite Hh in H1, H2.
  exists s', o, tail. split; [|split; [by apply writes_tail|done]].
  destruct (run_express ms rq l s). simpl in *. by subst.
Qed.

(** Prove [vcases] for a validator whose errors are all 400s. *)
Ltac solve_vcases unf :=
  unfold vcases; unf; unfold mw_next, mw_fail, mw_throw; repeat case_match; simplify_eq/=;
  first [by right; right | right; left; eexists; split; [reflexivity|done] | by left].

(** A run of the short-circuit pipeline that does not end in an error
    followed only single actions, so Express 4 gives exactly that run. *)
Lemma halt_single_path {St L P} (ms : list (middleware St L P)) rq l s :
  Forall express_shape ms -> (forall e, (run_halt ms rq l s).2 <> [EError e]) -> single_path ms rq l s = true.
Proof.
  revert l s. induction ms as [|m ms IH]; intros l s Hall Hne; [done|].
  apply Forall_cons_iff in Hall as [Hm Hms]. simpl in *.
  destruct (Hm rq l s) as [[a Ha]|[e He]]; destruct (m rq l s) as [[l' s'] acts]; simpl in *; subst acts.
  - destruct a; [by apply IH|done..].
  - by destruct (Hne e).
Qed.

Lemma run_express_no_error {St L P} (ms : list (middleware St L P)) rq l s s' o :
  Forall express_shape ms -> run_halt ms rq l s = (s', [o]) -> (forall e, o <> EError e) ->
  run_express ms rq l s = (s', [o]).
Proof.
  intros Hs Hh Ho. rewrite run_express_single; [done|done|].
  apply halt_single_path; [done|]. rewrite Hh. intros e [= He]. by apply (Ho e).
Qed.

Lemma single_path_next {St L P} (m : middleware St L P) ms rq l s l' s' :
  m rq l s = (l', s', [ANext]) -> single_path (m :: ms) rq l s = single_path ms rq l' s'.
Proof. simpl. by intros ->. Qed.

Lemma single_path_stop {St L P} (m : middleware St L P) ms rq l s l' s' a :
  m rq l s = (l', s', [a]) -> a <> ANext -> single_path (m :: ms) rq l s = true.
Proof. simpl. intros -> Ha. by destruct a. Qed.

Lemma writes_0 {P} (tail : list (emit P)) : writes tail = 0%nat -> Forall (fun o => o = EFallThrough) tail.
Proof. induction tail as [|[] tail IH]; simpl; intros H; try lia; [constructor|constructor; [done|by apply IH]]. Qed.
