(* ===== verification/Store.v ===== *)
(** * Store: the in-memory collections and the id generator

    Each controller keeps a module-level array ([dishes], [orders]) of
    records that carry a string [id].  [HasId] is the interface a record type
    offers the store; [find_by_id] is [xs.find((x) => x.id === k)] together
    with the index of the element it returns (the reference the controllers
    mutate in place).  [unique_ids] is the invariant that no two records of
    one collection share an id.

    [IdGen] is the interface of [src/utils/nextId] (not under [src/] here;
    the spec calls it "a unique-ID generator"): [next_id] returns a string
    that is not among the ids it is given.  The controllers' theorems are
    proved against the interface; [idgen_fresh] discharges it with stdpp's
    [fresh] on strings. *)

From S2P Require Import Prelude.
From stdpp Require Import infinite.

Class HasId (A : Type) := id_of : A -> string.

Class IdGen := {
  next_id : list string -> string;
  next_id_fresh : forall ids, next_id ids ∉ ids
}.

#[export] Instance idgen_fresh : IdGen := {|
  next_id := fun ids => fresh ids;
  next_id_fresh := fun ids => infinite_is_fresh ids
|}.

Section Store.
Context {A : Type} `{HasId A}.
Implicit Types (xs : list A) (x y : A) (k : string).

Definition ids xs : list string := id_of <$> xs.

Definition find_by_id k xs : option (nat * A) := list_find (fun x => id_of x = k) xs.

Definition unique_ids xs : Prop := NoDup (ids xs).

(** ** Lookup *)

Lemma find_by_id_Some k xs i x :
  find_by_id k xs = Some (i, x) -> xs !! i = Some x /\ id_of x = k.
Proof. intros Hf. exact (list_find_lookup (fun x => id_of x = k) xs i x Hf). Qed.

Lemma find_by_id_None k xs : find_by_id k xs = None <-> k ∉ ids xs.
Proof.
  unfold find_by_id, ids. rewrite list_find_None, Forall_forall.
  rewrite list_elem_of_fmap. split.
  - intros Hall (x & Hk & Hx). exact (Hall x Hx (eq_sym Hk)).
  - intros Hn x Hx Heq. apply Hn. by exists x.
Qed.

Lemma find_by_id_elem k xs x : x ∈ xs -> id_of x = k -> exists i y, find_by_id k xs = Some (i, y).
Proof.
  intros Hx Hk. destruct (list_find_elem_of (fun x => id_of x = k) xs x Hx Hk) as [[i y] ?].
  eauto.
Qed.

(** With unique ids, the record found is the only one with that id. *)
Lemma find_by_id_unique k xs i x j y :
  unique_ids xs -> find_by_id k xs = Some (i, x) -> xs !! j = Some y -> id_of y = k -> j = i.
Proof.
  intros Hu [Hi Hx]%find_by_id_Some Hj Hy.
  eapply NoDup_lookup; [exact Hu| |].
  - unfold ids. rewrite list_lookup_fmap, Hj. simpl. rewrite Hy. done.
  - unfold ids. rewrite list_lookup_fmap, Hi. simpl. by rewrite Hx.
Qed.

(** ** The three mutations: push, overwrite in place, splice *)

Lemma ids_push xs x : ids (xs ;+ x) = ids xs ++ [id_of x].
Proof. unfold ids, array_push. by rewrite fmap_app. Qed.

Lemma ids_insert_same xs i x y :
  xs !! i = Some y -> id_of x = id_of y -> ids (<[i:=x]> xs) = ids xs.
Proof.
  intros Hi Heq. unfold ids. rewrite list_fmap_insert, Heq.
  apply list_insert_id. rewrite list_lookup_fmap, Hi. done.
Qed.

Lemma unique_ids_push xs x :
  unique_ids xs -> id_of x ∉ ids xs -> unique_ids (xs ;+ x).
Proof.
  unfold unique_ids. intros Hu Hn. rewrite ids_push.
  apply NoDup_app. split; [done|]. split; [|apply NoDup_singleton].
  intros z Hz ->%list_elem_of_singleton. done.
Qed.

Lemma unique_ids_insert xs i x y :
  xs !! i = Some y -> id_of x = id_of y -> unique_ids xs -> unique_ids (<[i:=x]> xs).
Proof. unfold unique_ids. intros Hi Heq. by rewrite (ids_insert_same xs i x y). Qed.

Lemma unique_ids_delete xs i : unique_ids xs -> unique_ids (delete i xs).
Proof.
  unfold unique_ids, ids. rewrite list_fmap_delete. intros Hu.
  eapply sublist_NoDup; [exact Hu|apply sublist_delete].
Qed.

(** After splicing out the record found for [k], no record has id [k]. *)
Lemma find_by_id_delete_found xs k i x :
  unique_ids xs -> find_by_id k xs = Some (i, x) -> find_by_id k (delete i xs) = None.
Proof.
  intros Hu Hf. apply find_by_id_None. unfold ids. rewrite list_fmap_delete.
  intros Hin. apply list_elem_of_lookup in Hin as [j Hj].
  apply find_by_id_Some in Hf as [Hi Hx].
  assert (Hl : (ids xs) !! i = Some k) by (unfold ids; rewrite list_lookup_fmap, Hi; simpl; by rewrite Hx).
  destruct (decide (j < i)%nat).
  - rewrite list_lookup_delete_lt in Hj by done.
    assert (j = i) by (eapply NoDup_lookup; [exact Hu|exact Hj|exact Hl]). lia.
  - rewrite list_lookup_delete_ge in Hj by lia.
    assert (S j = i) by (eapply NoDup_lookup; [exact Hu|exact Hj|exact Hl]). lia.
Qed.

(** A fresh id is not found, and once pushed it is found at the end. *)
Lemma find_by_id_push_fresh xs x :
  id_of x ∉ ids xs -> find_by_id (id_of x) (xs ;+ x) = Some (length xs, x).
Proof.
  intros Hn. unfold find_by_id, array_push.
  apply list_find_Some. split; [|split; [done|]].
  - rewrite lookup_app_r by lia. by rewrite Nat.sub_diag.
  - intros j y Hj Hlt Hy. apply Hn. unfold ids. apply list_elem_of_fmap.
    exists y. split; [done|]. rewrite lookup_app_l in Hj by done.
    by eapply list_elem_of_lookup_2.
Qed.

(** With unique ids, a record is determined by its id. *)
Lemma unique_ids_elem_eq xs x y :
  unique_ids xs -> x ∈ xs -> y ∈ xs -> id_of x = id_of y -> x = y.
Proof.
  intros Hu [i Hi]%list_elem_of_lookup [j Hj]%list_elem_of_lookup Heq.
  assert (i = j) as ->.
  { eapply NoDup_lookup; [exact Hu| |].
    - unfold ids. rewrite list_lookup_fmap, Hi. done.
    - unfold ids. rewrite list_lookup_fmap, Hj. simpl. by rewrite Heq. }
  congruence.
Qed.

Lemma elem_of_ids xs x : x ∈ xs -> id_of x ∈ ids xs.
Proof. intros Hx. unfold ids. apply list_elem_of_fmap. by exists x. Qed.
(** Overwriting the record found for [k] with one of the same id: it is
    still the one found. *)
Lemma find_by_id_insert_found xs k i x y :
  find_by_id k xs = Some (i, x) -> id_of y = k -> find_by_id k (<[i:=y]> xs) = Some (i, y).
Proof.
  unfold find_by_id. intros (Hi & Hx & Hbefore)%list_find_Some Hy.
  apply list_find_Some. split; [|split; [done|]].
  - apply list_lookup_insert_eq. by eapply lookup_lt_Some.
  - intros j z Hj Hlt. rewrite list_lookup_insert_ne in Hj by lia. by eapply Hbefore.
Qed.
(** ** Collections that only grow

    When the ids of [xs] are a prefix of those of [ys] (records appended,
    or overwritten keeping their id), a record of [xs] has a record of the
    same id at the same index in [ys], and a lookup by id that succeeds
    in [xs] finds the same index in [ys]. *)
Lemma ids_prefix_lookup xs ys i x :
  ids xs `prefix_of` ids ys -> xs !! i = Some x -> exists y, ys !! i = Some y /\ id_of y = id_of x.
Proof.
  intros Hp Hx. assert (Hy : ids ys !! i = Some (id_of x)).
  { apply (prefix_lookup_Some (ids xs)); [|done]. unfold ids. by rewrite list_lookup_fmap, Hx. }
  unfold ids in Hy. rewrite list_lookup_fmap in Hy. destruct (ys !! i) as [y|]; simplify_eq/=. eauto.
Qed.

Lemma find_by_id_prefix k xs ys i x :
  ids xs `prefix_of` ids ys -> find_by_id k xs = Some (i, x) -> exists y, find_by_id k ys = Some (i, y).
Proof.
  intros [r Hr] Hf.
  assert (Hl : forall zs, list_find (fun s => s = k) (ids zs) = prod_map id id_of <$> find_by_id k zs)
    by (intros zs; apply list_find_fmap).
  pose proof (Hl xs) as Hx. rewrite Hf in Hx. simpl in Hx.
  apply (list_find_app_l _ _ r) in Hx. rewrite <- Hr, Hl in Hx.
  destruct (find_by_id k ys) as [[j y]|]; simplify_eq/=. eauto.
Qed.
End Store.

#[export] Hint Resolve unique_ids_push unique_ids_insert unique_ids_delete : grub.
