(* ===== verification/Dishes.v ===== *)
(** * Dishes: [src/Project-GrubDash/src/dishes/dishes.controller.js]

    The collection is the module-level array [dishes]; [res.locals.dish]
    holds a reference to one of its elements, modelled as the element's index
    (the controllers never change the array between setting and using it, so
    the index keeps denoting the same object).  Each middleware of the source
    is one [Definition] of type [mw]; [exports_create], [exports_read],
    [exports_update] and [exports_list] are the arrays of [module.exports].
    Every property below is stated for both dispatchers of [Middleware]
    where they agree, and separately where they do not; [dish_api] is the
    abstract API of the routes, which Express 4's dispatch ([Express])
    implements ([dish_routes_express_api]). *)

From S2P Require Import Prelude Json Middleware Express Store.
From Stdlib Require Import QArith_base.

Module Dishes.

(** A dish as stored: [id] is assigned by [nextId()]; the other fields are
    whatever the request body held, validated by the chain. *)
Record dish : Type := mk_dish {
  dish_id : string;
  name : jsval;
  description : jsval;
  price : jsval;
  image_url : jsval
}.

#[export] Instance dish_has_id : HasId dish := dish_id.

(** The [data] of a JSON response: one dish, the array, or [undefined]. *)
Inductive payload : Type :=
| PDish (d : dish)
| PDishes (ds : list dish)
| PUndef.

(** [res.locals.dish]: the index of the dish it refers to, once set. *)
Definition locals : Type := option nat.

Notation mw := (middleware (list dish) locals payload).

Section Controller.
Context `{!IdGen}.

(** [function list(req, res)] *)
Definition list_ : mw := fun rq l ds => mw_send l ds (RJson 200 (PDishes ds)).

(** [function dishExists(req, res, next)] *)
Definition dishExists : mw := fun rq l ds =>
  let dishId := req_param rq in
  match find_by_id dishId ds with
  | Some (i, _) => mw_next (Some i) ds
  | None => mw_fail l ds (error_text 404 ("Dish does not exist: " +:+ dishId +:+ "."))
  end.

(** The dish [res.locals.dish] refers to. *)
Definition found_dish (l : locals) (ds : list dish) : option dish := l ≫= fun i => ds !! i.

Definition id_mismatch (id : jsval) (routeId : string) : http_error :=
  mk_error 400 [MText "Dish id does not match route id. Dish: "; MVal id;
                MText ", Route: "; MText routeId].

(** [const { id } = req.body.data || {}] *)
Definition body_id (rq : request) : option jsval :=
  data_or_empty (req_body rq) ≫= fun d => d.["id"].

(** [function validateDishId(req, res, next)]: on a mismatch it calls
    [next(err)] and then, unconditionally, [next()]. *)
Definition validateDishId : mw := fun rq l ds =>
  match body_id rq with
  | None => mw_throw l ds
  | Some id =>
      if truthy id then
        match found_dish l ds with
        | None => mw_throw l ds
        | Some foundDish =>
            if strict_eq_str id (dish_id foundDish) then mw_next l ds
            else (l, ds, [AFail (id_mismatch id (dish_id foundDish)); ANext])
        end
      else mw_next l ds
  end.

(** [function read(req, res)] *)
Definition read : mw := fun rq l ds =>
  mw_send l ds (RJson 200 (match found_dish l ds with Some d => PDish d | None => PUndef end)).

(** [const { data: { name, description, price, image_url } = {} } = req.body] *)
Definition dish_fields (body : jsval) : option (jsval * jsval * jsval * jsval) :=
  d ← data_default body;
  nm ← d.["name"]; de ← d.["description"]; pr ← d.["price"]; im ← d.["image_url"];
  Some (nm, de, pr, im).

(** [function update(req, res)]: overwrites the four fields of the dish
    [res.locals.dish] refers to, in place. *)
Definition update : mw := fun rq l ds =>
  match dish_fields (req_body rq), l with
  | Some (nm, de, pr, im), Some i =>
      match ds !! i with
      | Some foundDish =>
          let d' := mk_dish (dish_id foundDish) nm de pr im in
          mw_send l (<[i:=d']> ds) (RJson 200 (PDish d'))
      | None => mw_throw l ds
      end
  | _, _ => mw_throw l ds
  end.

(** [function create(req, res)] *)
Definition create : mw := fun rq l ds =>
  match dish_fields (req_body rq) with
  | Some (nm, de, pr, im) =>
      let newDish := mk_dish (next_id (ids ds)) nm de pr im in
      mw_send l (ds ;+ newDish) (RJson 201 (PDish newDish))
  | None => mw_throw l ds
  end.

Definition price_error : http_error :=
  error_text 400 "Dish must have a price that is an integer greater than 0".

(** [function validatePrice(req, res, next)] *)
Definition validatePrice : mw := fun rq l ds =>
  match body_field (req_body rq) "price" with
  | None => mw_throw l ds
  | Some price =>
      if is_integer price && num_gt0 price then mw_next l ds else mw_fail l ds price_error
  end.

Definition missing_error (propertyName : string) : http_error :=
  error_text 400 ("Dish must include a " +:+ propertyName).

(** [function bodyDataHas(propertyName)] *)
Definition bodyDataHas (propertyName : string) : mw := fun rq l ds =>
  match body_field (req_body rq) propertyName with
  | None => mw_throw l ds
  | Some v => if truthy v then mw_next l ds else mw_fail l ds (missing_error propertyName)
  end.

(** [module.exports] *)
Definition exports_create : list mw :=
  [bodyDataHas "name"; bodyDataHas "description"; bodyDataHas "image_url";
   validatePrice; create].

Definition exports_read : list mw := [dishExists; read].

Definition exports_update : list mw :=
  [dishExists; validateDishId; bodyDataHas "name"; bodyDataHas "description";
   bodyDataHas "image_url"; validatePrice; update].

Definition exports_list : list mw := [list_].
End Controller.

(** ** The validation rules and the decomposition of the chains *)

Definition price_ok (v : jsval) : bool := is_integer v && num_gt0 v.

(** [bodyDataHas("name")], [bodyDataHas("description")],
    [bodyDataHas("image_url")], [validatePrice], in this order. *)
Definition dish_rules : list rule :=
  [mk_rule "name" truthy (missing_error "name");
   mk_rule "description" truthy (missing_error "description");
   mk_rule "image_url" truthy (missing_error "image_url");
   mk_rule "price" price_ok price_error].

Definition not_found_error (dishId : string) : http_error :=
  error_text 404 ("Dish does not exist: " +:+ dishId +:+ ".").

(** A stored dish satisfies what the validators check. *)
Definition dish_ok (d : dish) : bool :=
  truthy (name d) && truthy (description d) && truthy (image_url d) && price_ok (price d).

Definition dishes_inv (ds : list dish) : Prop :=
  unique_ids ds /\ Forall (fun d => dish_ok d = true) ds.

(** The body's [id] conflicts with the route's [dishId]. *)
Definition body_id_conflict (rq : request) : bool :=
  match body_id rq with
  | Some id => truthy id && negb (strict_eq_str id (req_param rq))
  | None => false
  end.

(** [d]'s four fields are the values the body's [data] holds. *)
Definition dish_from_body (body : jsval) (d : dish) : Prop :=
  body_field body "name" = Some (name d) /\ body_field body "description" = Some (description d) /\
  body_field body "price" = Some (price d) /\ body_field body "image_url" = Some (image_url d).

(** ** Abstract specification of a request's effect on the collection

    Spec section 3: a dish is created by [create] (with a fresh id), mutated
    in place by [update] (all fields but [id] overwritten), never deleted;
    what is stored passed the validators. *)
Inductive dish_effect (ds : list dish) : list dish -> Prop :=
| eff_none : dish_effect ds ds
| eff_push nd : dish_id nd ∉ ids ds -> dish_ok nd = true -> dish_effect ds (ds ;+ nd)
| eff_overwrite i f d' :
    ds !! i = Some f -> dish_id d' = dish_id f -> dish_ok d' = true ->
    dish_effect ds (<[i:=d']> ds).

(** The id a response announces as created: the dish of a 201. *)
Definition dish_created (r : response payload) : list string :=
  match r with
  | RJson st p => if Z.eqb st 201 then match p with PDish d => [dish_id d] | _ => [] end else []
  | RStatus _ => []
  end.

(** ** Abstract specification of the dish API (spec sections 4.1, 6)

    What one request to route [n] of [dish_routes] (0: GET /dishes, 1: POST
    /dishes, 2: GET /dishes/:dishId, 3: PUT /dishes/:dishId) may do to the
    collection [ds], and the emission that answers it. *)
Inductive dish_api (n : nat) (rq : request) (ds : list dish) : list dish -> emit payload -> Prop :=
| api_list : n = 0%nat -> dish_api n rq ds ds (EResp (RJson 200 (PDishes ds)))
| api_create nd :
    n = 1%nat -> dish_id nd ∉ ids ds -> dish_ok nd = true -> dish_from_body (req_body rq) nd ->
    dish_api n rq ds (ds ;+ nd) (EResp (RJson 201 (PDish nd)))
| api_read i d :
    n = 2%nat -> find_by_id (req_param rq) ds = Some (i, d) -> dish_api n rq ds ds (EResp (RJson 200 (PDish d)))
| api_update i f d' :
    n = 3%nat -> find_by_id (req_param rq) ds = Some (i, f) -> dish_id d' = req_param rq -> dish_ok d' = true ->
    dish_from_body (req_body rq) d' -> dish_api n rq ds (<[i:=d']> ds) (EResp (RJson 200 (PDish d')))
| api_not_found :
    n = 2%nat \/ n = 3%nat -> find_by_id (req_param rq) ds = None ->
    dish_api n rq ds ds (EError (not_found_error (req_param rq)))
| api_invalid e : n = 1%nat \/ n = 3%nat -> err_status e = 400%Z -> dish_api n rq ds ds (EError e)
| api_throw : n = 1%nat \/ n = 3%nat -> dish_api n rq ds ds EThrow.

Section Proofs.
Context `{!IdGen}.
Implicit Types (rq : request) (l : locals) (ds : list dish).

Lemma exports_create_rules : exports_create = map rule_mw dish_rules ++ [create].
Proof. reflexivity. Qed.

Lemma exports_update_rules :
  exports_update = dishExists :: validateDishId :: (map rule_mw dish_rules ++ [update]).
Proof. reflexivity. Qed.

Lemma find_dish_Some k ds i f :
  find_by_id k ds = Some (i, f) -> ds !! i = Some f /\ dish_id f = k.
Proof. apply find_by_id_Some. Qed.

Lemma dishExists_found rq l ds i d :
  find_by_id (req_param rq) ds = Some (i, d) -> dishExists rq l ds = (Some i, ds, [ANext]).
Proof. unfold dishExists. by intros ->. Qed.

Lemma dishExists_missing rq l ds :
  find_by_id (req_param rq) ds = None ->
  dishExists rq l ds = (l, ds, [AFail (not_found_error (req_param rq))]).
Proof. unfold dishExists. by intros ->. Qed.

(** A chain that starts with [dishExists] answers 404 for an absent id. *)
Lemma dish_missing_run ms rq l ds :
  find_by_id (req_param rq) ds = None ->
  run_halt (dishExists :: ms) rq l ds = (ds, [EError (not_found_error (req_param rq))]) /\
  run_cps (dishExists :: ms) rq l ds = (ds, [EError (not_found_error (req_param rq))]).
Proof.
  intros Hf. pose proof (dishExists_missing rq l ds Hf). split; [eapply run_halt_fail|eapply run_cps_fail]; eauto.
Qed.

(** When the rules pass, the destructuring of [create]/[update] succeeds and
    reads the values the rules checked: any dish built from them is valid. *)
Lemma dish_fields_rules body :
  check_rules body dish_rules = Some None ->
  exists nm de pr im, dish_fields body = Some (nm, de, pr, im) /\
    forall k, dish_ok (mk_dish k nm de pr im) = true /\
              dish_from_body body (mk_dish k nm de pr im).
Proof.
  intros Hc. unfold dish_fields, check_rules, dish_rules, dish_from_body, body_field in *.
  cbn -[get_prop truthy price_ok data_default] in *.
  destruct (data_default body) as [d|]; cbn -[get_prop truthy price_ok] in *; [|done].
  destruct (d.["name"]) as [nm|]; cbn -[get_prop truthy price_ok] in *; [|done].
  destruct (truthy nm) eqn:?; [|done].
  destruct (d.["description"]) as [de|]; cbn -[get_prop truthy price_ok] in *; [|done].
  destruct (truthy de) eqn:?; [|done].
  destruct (d.["image_url"]) as [im|]; cbn -[get_prop truthy price_ok] in *; [|done].
  destruct (truthy im) eqn:?; [|done].
  destruct (d.["price"]) as [pr|]; cbn -[get_prop truthy price_ok] in *; [|done].
  destruct (price_ok pr) eqn:?; [|done].
  exists nm, de, pr, im. split; [done|]. intros k. unfold dish_ok. simpl.
  repeat match goal with H : _ = true |- _ => rewrite H end. by repeat split.
Qed.

(** Once the first rule has read [data.name], the [id] read succeeds too. *)
Lemma rules_read_body_id rq x :
  check_rules (req_body rq) dish_rules = Some x -> exists id, body_id rq = Some id.
Proof.
  simpl. destruct (body_field (req_body rq) "name") as [v|] eqn:Hn; [|done]. intros _.
  destruct (body_field_data_or_empty _ _ _ Hn) as (d & Hd & Ht).
  unfold body_id. rewrite Hd. exact (get_prop_truthy d "id" Ht).
Qed.

Lemma validateDishId_cases rq i f ds :
  ds !! i = Some f -> dish_id f = req_param rq ->
  validateDishId rq (Some i) ds =
    match body_id rq with
    | None => (Some i, ds, [AThrow])
    | Some id =>
        if truthy id && negb (strict_eq_str id (req_param rq))
        then (Some i, ds, [AFail (id_mismatch id (req_param rq)); ANext])
        else (Some i, ds, [ANext])
    end.
Proof.
  intros Hi Hid. unfold validateDishId, found_dish. simpl. rewrite Hi, Hid.
  destruct (body_id rq) as [id|]; [|done].
  by destruct (truthy id), (strict_eq_str id (req_param rq)).
Qed.

Lemma validateDishId_pass rq i f ds :
  ds !! i = Some f -> dish_id f = req_param rq -> is_Some (body_id rq) ->
  body_id_conflict rq = false -> validateDishId rq (Some i) ds = (Some i, ds, [ANext]).
Proof.
  intros Hi Hid [id Hb] Hnc. rewrite (validateDishId_cases rq i f ds Hi Hid), Hb.
  unfold body_id_conflict in Hnc. by rewrite Hb, Hnc in *.
Qed.

Lemma validateDishId_conflict rq i f ds id :
  ds !! i = Some f -> dish_id f = req_param rq -> body_id rq = Some id ->
  truthy id = true -> strict_eq_str id (req_param rq) = false ->
  validateDishId rq (Some i) ds = (Some i, ds, [AFail (id_mismatch id (req_param rq)); ANext]).
Proof.
  intros Hi Hid Hb Ht Hs. rewrite (validateDishId_cases rq i f ds Hi Hid), Hb, Ht, Hs. done.
Qed.

(** The part of [exports_update] after [validateDishId]. *)
Definition update_tail : list mw := map rule_mw dish_rules ++ [update].

Lemma run_update_found rq l ds i f :
  find_by_id (req_param rq) ds = Some (i, f) ->
  run_halt exports_update rq l ds = run_halt (validateDishId :: update_tail) rq (Some i) ds /\
  run_cps exports_update rq l ds = run_cps (validateDishId :: update_tail) rq (Some i) ds.
Proof.
  intros Hf. rewrite exports_update_rules.
  split; [eapply run_halt_next|eapply run_cps_next]; by eapply dishExists_found.
Qed.

Lemma update_tail_valid rq i f ds :
  ds !! i = Some f -> check_rules (req_body rq) dish_rules = Some None ->
  exists d', run_halt update_tail rq (Some i) ds = (<[i:=d']> ds, [EResp (RJson 200 (PDish d'))]) /\
    run_cps update_tail rq (Some i) ds = (<[i:=d']> ds, [EResp (RJson 200 (PDish d'))]) /\
    dish_id d' = dish_id f /\ dish_ok d' = true /\ dish_from_body (req_body rq) d'.
Proof.
  intros Hi Hc. unfold update_tail. rewrite run_halt_rules, run_cps_rules.
  unfold rules_outcome. rewrite Hc.
  destruct (dish_fields_rules _ Hc) as (nm & de & pr & im & Hf & Hok).
  destruct (Hok (dish_id f)) as [Hok' Hb].
  exists (mk_dish (dish_id f) nm de pr im). simpl. unfold update. rewrite Hf, Hi. by simpl.
Qed.

Lemma update_tail_invalid rq i ds e :
  check_rules (req_body rq) dish_rules = Some (Some e) ->
  run_halt update_tail rq (Some i) ds = (ds, [EError e]) /\
  run_cps update_tail rq (Some i) ds = (ds, [EError e]).
Proof.
  intros Hc. unfold update_tail. rewrite run_halt_rules, run_cps_rules.
  unfold rules_outcome. by rewrite Hc.
Qed.

(** ** Properties of the dish routes *)

(** When the four rules pass, POST /dishes comes down to its handler. *)
Lemma create_chain_pass rq l ds :
  check_rules (req_body rq) dish_rules = Some None ->
  run_halt exports_create rq l ds = run_halt [create] rq l ds /\
  run_cps exports_create rq l ds = run_cps [create] rq l ds.
Proof.
  intros Hc. rewrite exports_create_rules, run_halt_rules, run_cps_rules.
  unfold rules_outcome. by rewrite Hc.
Qed.

(** The handler pushes the dish it answers with. *)
Lemma create_handler_run rq l ds nm de pr im :
  dish_fields (req_body rq) = Some (nm, de, pr, im) ->
  let nd := mk_dish (next_id (ids ds)) nm de pr im in
  run_halt [create] rq l ds = (ds ;+ nd, [EResp (RJson 201 (PDish nd))]) /\
  run_cps [create] rq l ds = (ds ;+ nd, [EResp (RJson 201 (PDish nd))]).
Proof. intros Hf. simpl. unfold create. by rewrite Hf. Qed.

(** GET /dishes/:dishId on a dish that is found answers it. *)
Lemma read_found rq l ds i d :
  find_by_id (req_param rq) ds = Some (i, d) ->
  run_halt exports_read rq l ds = (ds, [EResp (RJson 200 (PDish d))]) /\
  run_cps exports_read rq l ds = (ds, [EResp (RJson 200 (PDish d))]).
Proof.
  intros Hf. unfold exports_read.
  erewrite run_halt_next, run_cps_next by (by eapply dishExists_found). simpl.
  unfold read, found_dish. simpl. by rewrite (proj1 (find_dish_Some _ _ _ _ Hf)).
Qed.

(** C1: POST /dishes with a body whose [data] passes the four
    validators appends one dish and answers 201 with it, under both
    dispatchers; its id is fresh in the collection, and its fields are the
    body's. *)
Theorem create_valid rq l ds :
  check_rules (req_body rq) dish_rules = Some None ->
  exists nd,
    run_halt exports_create rq l ds = (ds ;+ nd, [EResp (RJson 201 (PDish nd))]) /\
    run_cps exports_create rq l ds = (ds ;+ nd, [EResp (RJson 201 (PDish nd))]) /\
    dish_id nd ∉ ids ds /\ dish_ok nd = true /\ dish_from_body (req_body rq) nd.
Proof.
  intros Hc. destruct (create_chain_pass rq l ds Hc) as [-> ->].
  destruct (dish_fields_rules _ Hc) as (nm & de & pr & im & Hf & Hok).
  destruct (Hok (next_id (ids ds))) as [Hok' Hb].
  destruct (create_handler_run rq l ds _ _ _ _ Hf) as [-> ->].
  eexists. split; [done|]. split; [done|]. split; [apply next_id_fresh|done].
Qed.

(** C3: POST /dishes answers 400 with error [e] and leaves the
    collection unchanged exactly when, in the order name, description,
    image_url, price, the validators before some rule accept the body, that
    rule rejects it, and [e] is that rule's message. *)
Theorem create_rejects_first_failure rq l ds e :
  run_halt exports_create rq l ds = (ds, [EError e]) <->
  exists pre r post, dish_rules = pre ++ r :: post /\ Forall (rule_holds (req_body rq)) pre /\
                     rule_fails (req_body rq) r /\ e = rule_error r.
Proof.
  rewrite <- check_rules_first_failure, exports_create_rules, run_halt_rules.
  unfold rules_outcome. destruct (check_rules _ _) as [[e'|]|]; simpl.
  - split; by intros [= ->].
  - unfold create. destruct (dish_fields (req_body rq)) as [[[[? ?] ?] ?]|]; simpl; done.
  - done.
Qed.

(** C27: [validatePrice] calls [next()] exactly when the body's price is a
    number equal to a positive integer (whatever its decimal writing, e.g.
    [8.0]), and otherwise calls [next] with the 400 "Dish must have a price
    that is an integer greater than 0". *)
Theorem validatePrice_spec rq l ds v :
  body_field (req_body rq) "price" = Some v ->
  (validatePrice rq l ds = mw_next l ds /\
     exists z, (0 < z)%Z /\ exists q, v = JNum q /\ (q == inject_Z z)%Q) \/
  (validatePrice rq l ds = mw_fail l ds price_error /\
     ~ exists z, (0 < z)%Z /\ exists q, v = JNum q /\ (q == inject_Z z)%Q).
Proof.
  intros Hv. unfold validatePrice. rewrite Hv.
  destruct v as [| | |q| | |]; simpl; try (right; split; [done|]; intros (z & _ & q & [=] & _)).
  destruct (is_integer (JNum q)) eqn:Hi.
  - destruct (proj1 (is_integer_spec q) Hi) as [z Hz]. simpl in Hi. rewrite Hi.
    destruct (num_gt0 (JNum q)) eqn:Hg; simpl in Hg; rewrite Hg.
    + left. split; [done|]. exists z. split; [by apply (num_gt0_integer q z Hz)|by exists q].
    + right. split; [done|]. intros (z' & Hz' & q' & [= <-] & Hq').
      pose proof (proj2 (num_gt0_integer q z' Hq') Hz') as Hpos. simpl in Hpos. congruence.
  - simpl in Hi. rewrite Hi. right. split; [done|]. intros (z & _ & q' & [= <-] & Hq).
    assert (Hint : is_integer (JNum q) = true) by (apply is_integer_spec; by exists z).
    simpl in Hint. congruence.
Qed.

(** GET /dishes/:dishId answers 200 with the first dish whose id is
    [dishId], or 404 with the message "Dish does not exist: <dishId>.";
    the collection is unchanged. *)
Lemma read_result rq l ds :
  run_halt exports_read rq l ds =
    match find_by_id (req_param rq) ds with
    | Some (_, d) => (ds, [EResp (RJson 200 (PDish d))])
    | None => (ds, [EError (not_found_error (req_param rq))])
    end.
Proof.
  destruct (find_by_id (req_param rq) ds) as [[i d]|] eqn:Hf.
  - exact (proj1 (read_found rq l ds i d Hf)).
  - exact (proj1 (dish_missing_run [read] rq l ds Hf)).
Qed.

(** C35: PUT /dishes/:dishId on an absent id answers 404
    and changes nothing, under both dispatchers. *)
Theorem update_not_found rq l ds :
  find_by_id (req_param rq) ds = None ->
  run_halt exports_update rq l ds = (ds, [EError (not_found_error (req_param rq))]) /\
  run_cps exports_update rq l ds = (ds, [EError (not_found_error (req_param rq))]).
Proof.
  intros Hf. rewrite exports_update_rules. by apply dish_missing_run.
Qed.

(** C31: PUT /dishes/:dishId on an existing dish, with no
    conflicting body id and a body that passes the validators, overwrites
    that dish (at its index) with the body's four fields, keeps its id, and
    answers 200 with it, under both dispatchers. *)
Theorem update_valid rq l ds i f :
  find_by_id (req_param rq) ds = Some (i, f) ->
  body_id_conflict rq = false ->
  check_rules (req_body rq) dish_rules = Some None ->
  exists d',
    run_halt exports_update rq l ds = (<[i:=d']> ds, [EResp (RJson 200 (PDish d'))]) /\
    run_cps exports_update rq l ds = (<[i:=d']> ds, [EResp (RJson 200 (PDish d'))]) /\
    dish_id d' = req_param rq /\ dish_from_body (req_body rq) d'.
Proof.
  intros Hf Hnc Hc. destruct (run_update_found rq l ds i f Hf) as [-> ->].
  destruct (find_dish_Some _ _ _ _ Hf) as [Hi Hid].
  destruct (rules_read_body_id rq _ Hc) as [id Hb].
  destruct (update_tail_valid rq i f ds Hi Hc) as (d' & Hh & Hcps & Hdid & _ & Hfb).
  pose proof (validateDishId_pass rq i f ds Hi Hid ltac:(by eexists) Hnc) as Hv.
  exists d'. erewrite run_halt_next, run_cps_next by exact Hv. by rewrite Hdid, Hid.
Qed.

(** C36: With an existing dish and no conflicting body id, a
    body that fails a validator gets that validator's 400, in the same
    order as for create, and nothing changes. *)
Theorem update_rejects_invalid rq l ds i f e :
  find_by_id (req_param rq) ds = Some (i, f) ->
  body_id_conflict rq = false ->
  check_rules (req_body rq) dish_rules = Some (Some e) ->
  run_halt exports_update rq l ds = (ds, [EError e]) /\
  run_cps exports_update rq l ds = (ds, [EError e]).
Proof.
  intros Hf Hnc Hc. destruct (run_update_found rq l ds i f Hf) as [-> ->].
  destruct (find_dish_Some _ _ _ _ Hf) as [Hi Hid].
  destruct (rules_read_body_id rq _ Hc) as [id Hb].
  pose proof (validateDishId_pass rq i f ds Hi Hid ltac:(by eexists) Hnc) as Hv.
  erewrite run_halt_next, run_cps_next by exact Hv. by apply update_tail_invalid.
Qed.

(** When the body carries a truthy [id] other than
    the route's, the short-circuiting pipeline answers 400 "Dish id does not
    match route id. ..." and leaves the collection unchanged. *)
Theorem update_conflict_halts rq l ds i f id :
  find_by_id (req_param rq) ds = Some (i, f) -> body_id rq = Some id ->
  truthy id = true -> strict_eq_str id (req_param rq) = false ->
  run_halt exports_update rq l ds = (ds, [EError (id_mismatch id (req_param rq))]).
Proof.
  intros Hf Hb Ht Hs. destruct (run_update_found rq l ds i f Hf) as [-> _].
  destruct (find_dish_Some _ _ _ _ Hf) as [Hi Hid].
  by erewrite run_halt_fail by (by eapply validateDishId_conflict).
Qed.

(** C33: [validateDishId] calls [next()] after
    [next(err)]; when [next] continues the chain, a conflicting body id is
    reported with 400 and then the update still runs: the dish is
    overwritten and a second response, 200, follows the error. *)
Theorem update_conflict_cps_overwrites rq l ds i f id :
  find_by_id (req_param rq) ds = Some (i, f) -> body_id rq = Some id ->
  truthy id = true -> strict_eq_str id (req_param rq) = false ->
  check_rules (req_body rq) dish_rules = Some None ->
  exists d',
    run_cps exports_update rq l ds =
      (<[i:=d']> ds, [EError (id_mismatch id (req_param rq)); EResp (RJson 200 (PDish d'))]) /\
    dish_id d' = req_param rq /\ dish_from_body (req_body rq) d'.
Proof.
  intros Hf Hb Ht Hs Hc. destruct (run_update_found rq l ds i f Hf) as [_ ->].
  destruct (find_dish_Some _ _ _ _ Hf) as [Hi Hid].
  destruct (update_tail_valid rq i f ds Hi Hc) as (d' & _ & Hcps & Hdid & _ & Hfb).
  exists d'. erewrite run_cps_fail_next by (by eapply validateDishId_conflict).
  rewrite Hcps. simpl. by rewrite Hdid, Hid.
Qed.

(** ** Every route refines [dish_effect] *)

Definition dish_routes : list (list mw) :=
  [exports_list; exports_create; exports_read; exports_update].

Lemma update_handler_single rq l ds : single_path [update] rq l ds = true.
Proof. simpl. unfold update. by repeat case_match. Qed.

Lemma create_handler_single rq l ds : single_path [create] rq l ds = true.
Proof. simpl. unfold create. by repeat case_match. Qed.

Lemma update_tail_effect rq i f ds :
  ds !! i = Some f ->
  dish_effect ds (run_halt update_tail rq (Some i) ds).1 /\
  dish_effect ds (run_cps update_tail rq (Some i) ds).1.
Proof.
  intros Hi. destruct (check_rules (req_body rq) dish_rules) as [[e|]|] eqn:Hc.
  - destruct (update_tail_invalid rq i ds e Hc) as [-> ->]. split; constructor.
  - destruct (update_tail_valid rq i f ds Hi Hc) as (d' & -> & -> & Hid & Hok & _).
    split; by eapply eff_overwrite.
  - unfold update_tail. rewrite run_halt_rules, run_cps_rules. unfold rules_outcome.
    rewrite Hc. split; constructor.
Qed.

Lemma update_route_effect rq l ds :
  dish_effect ds (run_halt exports_update rq l ds).1 /\
  dish_effect ds (run_cps exports_update rq l ds).1.
Proof.
  destruct (find_by_id (req_param rq) ds) as [[i f]|] eqn:Hf.
  2: { rewrite exports_update_rules. destruct (dish_missing_run (validateDishId :: (map rule_mw dish_rules ++ [update])) rq l ds Hf) as [-> ->]. split; constructor. }
  destruct (run_update_found rq l ds i f Hf) as [-> ->].
  destruct (find_dish_Some _ _ _ _ Hf) as [Hi Hid].
  pose proof (validateDishId_cases rq i f ds Hi Hid) as Hv.
  destruct (update_tail_effect rq i f ds Hi) as [Eh Ec].
  destruct (body_id rq) as [id|].
  - destruct (truthy id && negb (strict_eq_str id (req_param rq))).
    + erewrite run_halt_fail, run_cps_fail_next by exact Hv. split; [constructor|done].
    + erewrite run_halt_next, run_cps_next by exact Hv. done.
  - erewrite run_halt_throw, run_cps_throw by exact Hv. split; constructor.
Qed.

Lemma create_route_effect rq l ds :
  dish_effect ds (run_halt exports_create rq l ds).1 /\
  dish_effect ds (run_cps exports_create rq l ds).1.
Proof.
  destruct (check_rules (req_body rq) dish_rules) as [[e|]|] eqn:Hc.
  - rewrite exports_create_rules, run_halt_rules, run_cps_rules. unfold rules_outcome.
    rewrite Hc. split; constructor.
  - destruct (create_chain_pass rq l ds Hc) as [-> ->].
    destruct (dish_fields_rules _ Hc) as (nm & de & pr & im & Hf & Hok).
    destruct (create_handler_run rq l ds _ _ _ _ Hf) as [-> ->].
    split; (constructor; [apply next_id_fresh|apply Hok]).
  - rewrite exports_create_rules, run_halt_rules, run_cps_rules. unfold rules_outcome.
    rewrite Hc. split; constructor.
Qed.

Lemma read_route_effect rq l ds :
  run_halt exports_read rq l ds = run_cps exports_read rq l ds /\
  (run_halt exports_read rq l ds).1 = ds.
Proof.
  destruct (find_by_id (req_param rq) ds) as [[i d]|] eqn:Hf;
    [destruct (read_found rq l ds i d Hf) as [-> ->]
    |unfold exports_read; destruct (dish_missing_run [read] rq l ds Hf) as [-> ->]]; done.
Qed.

Lemma dish_route_effect n ms rq l ds :
  dish_routes !! n = Some ms ->
  dish_effect ds (run_halt ms rq l ds).1 /\ dish_effect ds (run_cps ms rq l ds).1.
Proof.
  destruct n as [|[|[|[|n]]]]; simpl; intros [= <-].
  - split; constructor.
  - apply create_route_effect.
  - destruct (read_route_effect rq l ds) as [<- ->]. split; constructor.
  - apply update_route_effect.
Qed.

(** ** Every route meets the API *)

Lemma dish_rules_400 body e : check_rules body dish_rules = Some (Some e) -> err_status e = 400%Z.
Proof. simpl. repeat case_match; intros ?; simplify_eq; done. Qed.

Lemma create_api rq l ds :
  exists ds' o, run_halt exports_create rq l ds = (ds', [o]) /\ dish_api 1 rq ds ds' o.
Proof.
  destruct (check_rules (req_body rq) dish_rules) as [[e|]|] eqn:Hc.
  - eapply run_one; [rewrite exports_create_rules, run_halt_rules; unfold rules_outcome; by rewrite Hc|].
    apply api_invalid; [by left|exact (dish_rules_400 _ _ Hc)].
  - destruct (create_chain_pass rq l ds Hc) as [-> _].
    destruct (dish_fields_rules _ Hc) as (nm & de & pr & im & Hf & Hok).
    destruct (Hok (next_id (ids ds))) as [Hok' Hb].
    eapply run_one; [exact (proj1 (create_handler_run rq l ds _ _ _ _ Hf))|].
    by apply api_create; [|apply next_id_fresh|..].
  - eapply run_one; [rewrite exports_create_rules, run_halt_rules; unfold rules_outcome; by rewrite Hc|].
    apply api_throw; by left.
Qed.

Lemma read_api rq l ds :
  exists ds' o, run_halt exports_read rq l ds = (ds', [o]) /\ dish_api 2 rq ds ds' o.
Proof.
  destruct (find_by_id (req_param rq) ds) as [[i d]|] eqn:Hf.
  - eapply run_one; [exact (proj1 (read_found rq l ds i d Hf))|]. by eapply api_read.
  - eapply run_one; [unfold exports_read; by erewrite run_halt_fail by (by apply dishExists_missing)|].
    apply api_not_found; [by left|done].
Qed.

Lemma update_api rq l ds :
  exists ds' o, run_halt exports_update rq l ds = (ds', [o]) /\ dish_api 3 rq ds ds' o.
Proof.
  destruct (find_by_id (req_param rq) ds) as [[i f]|] eqn:Hf.
  2: { eapply run_one; [rewrite exports_update_rules; by erewrite run_halt_fail by (by apply dishExists_missing)|].
       apply api_not_found; [by right|done]. }
  destruct (run_update_found rq l ds i f Hf) as [-> _].
  destruct (find_dish_Some _ _ _ _ Hf) as [Hi Hid].
  pose proof (validateDishId_cases rq i f ds Hi Hid) as Hv.
  destruct (body_id rq) as [id|].
  2: { eapply run_one; [by erewrite run_halt_throw by exact Hv|]. apply api_throw; by right. }
  destruct (truthy id && negb (strict_eq_str id (req_param rq))).
  { eapply run_one; [by erewrite run_halt_fail by exact Hv|]. apply api_invalid; [by right|done]. }
  erewrite run_halt_next by exact Hv.
  destruct (check_rules (req_body rq) dish_rules) as [[e|]|] eqn:Hc.
  - eapply run_one; [exact (proj1 (update_tail_invalid rq i ds e Hc))|].
    apply api_invalid; [by right|exact (dish_rules_400 _ _ Hc)].
  - destruct (update_tail_valid rq i f ds Hi Hc) as (d' & Hh & _ & Hdid & Hok & Hfb).
    eapply run_one; [exact Hh|]. eapply api_update; [done|exact Hf|congruence|done|done].
  - eapply run_one; [unfold update_tail; rewrite run_halt_rules; unfold rules_outcome; by rewrite Hc|].
    apply api_throw; by right.
Qed.

Lemma dish_routes_halt_api n ms rq l ds :
  dish_routes !! n = Some ms -> exists ds' o, run_halt ms rq l ds = (ds', [o]) /\ dish_api n rq ds ds' o.
Proof.
  destruct n as [|[|[|[|n]]]]; simpl; intros [= <-];
    [eapply run_one; [reflexivity|by constructor]|apply create_api|apply read_api|apply update_api].
Qed.

Lemma dish_routes_shape n ms : dish_routes !! n = Some ms -> Forall express_shape ms.
Proof.
  destruct n as [|[|[|[|n]]]]; simpl; intros [= <-]; repeat apply List.Forall_cons; try apply List.Forall_nil;
    solve_shape_by ltac:(unfold list_, dishExists, validateDishId, read, update, create, validatePrice, bodyDataHas).
Qed.

(** C12: Express 4's dispatch of every dish route implements the dish API
    of spec sections 4.1 and 6: whatever the request and the collection,
    the first emission and the collection after the request are one of
    the outcomes [dish_api] allows for that route (the list, a valid dish
    with a fresh id appended and answered 201, the dish found, the dish
    found overwritten in place with the body's fields and its id kept, a
    404 for an absent id, a 400, or a thrown [TypeError]), and whatever
    follows the first emission writes nothing. *)
Theorem dish_routes_express_api n ms rq l ds :
  dish_routes !! n = Some ms ->
  exists ds' o tail, run_express ms rq l ds = (ds', o :: tail) /\ writes tail = 0%nat /\ dish_api n rq ds ds' o.
Proof.
  intros Hn. apply express_of_halt; [exact (dish_routes_shape n ms Hn)|exact (dish_routes_halt_api n ms rq l ds Hn)].
Qed.

Lemma dish_effect_inv ds ds' : dishes_inv ds -> dish_effect ds ds' -> dishes_inv ds'.
Proof.
  intros [Hu Hok] Heff. destruct Heff as [|nd Hf Hnd|i f d' Hi Hid Hd'].
  - by split.
  - split; [by apply unique_ids_push|]. unfold array_push. apply Forall_app. by split; [|constructor].
  - split; [by eapply unique_ids_insert|]. by apply Forall_insert.
Qed.

Lemma dish_effect_ids ds ds' : dish_effect ds ds' -> ids ds `prefix_of` ids ds'.
Proof.
  intros [|nd _ _|i f d' Hi Hid _].
  - done.
  - rewrite ids_push. by eexists.
  - by rewrite (ids_insert_same ds i d' f).
Qed.

(** C5: every dish route, under either dispatcher, preserves the
    collection invariant: ids are unique and every stored dish has a
    truthy name, description and image_url and an integer price > 0. *)
Theorem dishes_inv_preserved n ms rq l ds :
  dish_routes !! n = Some ms -> dishes_inv ds ->
  dishes_inv (run_halt ms rq l ds).1 /\ dishes_inv (run_cps ms rq l ds).1.
Proof.
  intros Hms Hinv. destruct (dish_route_effect n ms rq l ds Hms) as [Eh Ec].
  split; eapply dish_effect_inv; eauto.
Qed.

(** No dish route deletes a dish or changes an id: the ids before a
    request are a prefix of the ids after it. *)
Lemma dish_ids_prefix n ms rq l ds :
  dish_routes !! n = Some ms ->
  ids ds `prefix_of` ids (run_halt ms rq l ds).1 /\ ids ds `prefix_of` ids (run_cps ms rq l ds).1.
Proof.
  intros Hms. destruct (dish_route_effect n ms rq l ds Hms) as [Eh Ec].
  split; by apply dish_effect_ids.
Qed.

(** The two dispatchers give the same run on every dish
    route, except PUT with a body id that conflicts with the route's. *)
Theorem dishes_dispatch_agree n ms rq l ds :
  dish_routes !! n = Some ms -> (n = 3%nat -> body_id_conflict rq = false) ->
  run_cps ms rq l ds = run_halt ms rq l ds.
Proof.
  destruct n as [|[|[|[|n]]]]; simpl; intros [= <-] Hnc.
  - done.
  - rewrite exports_create_rules. apply rules_handler_agree, create_handler_single.
  - symmetry. apply read_route_effect.
  - specialize (Hnc eq_refl).
    destruct (find_by_id (req_param rq) ds) as [[i f]|] eqn:Hf.
    2: { rewrite exports_update_rules. by destruct (dish_missing_run (validateDishId :: (map rule_mw dish_rules ++ [update])) rq l ds Hf) as [-> ->]. }
    destruct (run_update_found rq l ds i f Hf) as [-> ->].
    destruct (find_dish_Some _ _ _ _ Hf) as [Hi Hid].
    pose proof (validateDishId_cases rq i f ds Hi Hid) as Hv.
    unfold body_id_conflict in Hnc. destruct (body_id rq) as [id|].
    + rewrite Hnc in Hv. erewrite run_halt_next, run_cps_next by exact Hv.
      apply rules_handler_agree, update_handler_single.
    + by erewrite run_halt_throw, run_cps_throw by exact Hv.
Qed.
(** ** What the routes emit, and when they write *)

Lemma dish_routes_acts n ms :
  dish_routes !! n = Some ms -> Forall (acts_ok client_error success_status) ms.
Proof.
  destruct n as [|[|[|[|n]]]]; simpl; intros [= <-]; repeat apply List.Forall_cons; try apply List.Forall_nil;
    solve_acts_by ltac:(unfold list_, dishExists, validateDishId, read, update, create, validatePrice,
                               bodyDataHas, price_error, missing_error, not_found_error, id_mismatch).
Qed.

Lemma dish_routes_clean n ms : dish_routes !! n = Some ms -> Forall clean_fail ms.
Proof.
  destruct n as [|[|[|[|n]]]]; simpl; intros [= <-]; repeat apply List.Forall_cons; try apply List.Forall_nil;
    solve_clean_by ltac:(unfold list_, dishExists, validateDishId, read, update, create, validatePrice,
                                bodyDataHas).
Qed.
(** ** The routes read the request only through [data] *)

Lemma dish_fields_reads body :
  dish_fields body =
    nm ← body_field body "name"; de ← body_field body "description";
    pr ← body_field body "price"; im ← body_field body "image_url"; Some (nm, de, pr, im).
Proof. unfold dish_fields, body_field. by destruct (data_default body). Qed.

(** ** Every dish route keeps the ledger of created ids *)

Lemma dish_routes_ledger n ms : dish_routes !! n = Some ms -> Forall (ledger ids dish_created) ms.
Proof.
  destruct n as [|[|[|[|n]]]]; simpl; intros [= <-]; repeat apply List.Forall_cons; try apply List.Forall_nil;
    intros rq l ds; unfold list_, dishExists, validateDishId, read, update, create, validatePrice,
      bodyDataHas, mw_next, mw_fail, mw_throw, mw_send;
    repeat case_match; simplify_eq/=; (split; [|split; [lia|done]]); rewrite ?app_nil_r, ?ids_push; try done.
  all: by erewrite ids_insert_same.
Qed.
End Proofs.

(** Prove [mw_proper m] for a function [m] of the controller. *)
Ltac dish_proper :=
  solve_proper_by ltac:(unfold list_, dishExists, validateDishId, body_id, read, update, create,
                               validatePrice, bodyDataHas; rewrite ?dish_fields_reads).

(** ** Witnesses on concrete requests

    The body of spec section 8's example, [POST /dishes] with
    [{name:"Taco", description:"Spicy", price:8, image_url:"x"}], and PUT
    requests on a collection holding one dish ["d1"]. *)

Definition taco_fields : list (string * jsval) :=
  [("name", JStr "Taco"); ("description", JStr "Spicy"); ("price", JNum (inject_Z 8));
   ("image_url", JStr "x")].

Definition taco_request : request := mk_request "" (JObj [("data", JObj taco_fields)]).

Definition taco_dish : dish := mk_dish "d1" (JStr "Tea") (JStr "Hot") (JNum (inject_Z 3)) (JStr "y").

Definition put_d1 (id : jsval) (fields : list (string * jsval)) : request :=
  mk_request "d1" (JObj [("data", JObj (("id", id) :: fields))]).

Lemma create_valid_witness :
  check_rules (req_body taco_request) dish_rules = Some None /\
  exists nd, run_halt exports_create taco_request None [] = ([nd], [EResp (RJson 201 (PDish nd))]).
Proof.
  split; [reflexivity|].
  destruct (create_valid taco_request None [] ltac:(reflexivity)) as (nd & H & _).
  exists nd. exact H.
Defined.

Lemma update_not_found_witness :
  find_by_id "d2" [taco_dish] = None /\
  run_halt exports_update (mk_request "d2" (JObj [])) None [taco_dish] =
    ([taco_dish], [EError (not_found_error "d2")]).
Proof.
  split; [reflexivity|].
  exact (proj1 (update_not_found (mk_request "d2" (JObj [])) None [taco_dish] ltac:(reflexivity))).
Defined.

Lemma update_valid_witness :
  find_by_id "d1" [taco_dish] = Some (0%nat, taco_dish) /\
  body_id_conflict (put_d1 (JStr "d1") taco_fields) = false /\
  check_rules (req_body (put_d1 (JStr "d1") taco_fields)) dish_rules = Some None /\
  exists d', run_halt exports_update (put_d1 (JStr "d1") taco_fields) None [taco_dish] =
               ([d'], [EResp (RJson 200 (PDish d'))]) /\ dish_id d' = "d1".
Proof.
  split; [reflexivity|]. split; [reflexivity|]. split; [reflexivity|].
  destruct (update_valid (put_d1 (JStr "d1") taco_fields) None [taco_dish] 0 taco_dish
              ltac:(reflexivity) ltac:(reflexivity) ltac:(reflexivity)) as (d' & H & _ & Hid & _).
  exists d'. split; [exact H|exact Hid].
Defined.

Lemma update_rejects_invalid_witness :
  check_rules (req_body (put_d1 JUndef (take 1 taco_fields))) dish_rules =
    Some (Some (missing_error "description")) /\
  run_halt exports_update (put_d1 JUndef (take 1 taco_fields)) None [taco_dish] =
    ([taco_dish], [EError (missing_error "description")]).
Proof.
  split; [reflexivity|].
  exact (proj1 (update_rejects_invalid (put_d1 JUndef (take 1 taco_fields)) None [taco_dish]
                  0 taco_dish (missing_error "description")
                  ltac:(reflexivity) ltac:(reflexivity) ltac:(reflexivity))).
Defined.

Lemma update_conflict_halts_witness :
  body_id (put_d1 (JStr "zz") taco_fields) = Some (JStr "zz") /\
  run_halt exports_update (put_d1 (JStr "zz") taco_fields) None [taco_dish] =
    ([taco_dish], [EError (id_mismatch (JStr "zz") "d1")]).
Proof.
  split; [reflexivity|].
  exact (update_conflict_halts (put_d1 (JStr "zz") taco_fields) None [taco_dish] 0 taco_dish
           (JStr "zz") ltac:(reflexivity) ltac:(reflexivity) ltac:(reflexivity) ltac:(reflexivity)).
Defined.

Lemma update_conflict_cps_overwrites_witness :
  strict_eq_str (JStr "zz") "d1" = false /\
  exists d', run_cps exports_update (put_d1 (JStr "zz") taco_fields) None [taco_dish] =
    ([d'], [EError (id_mismatch (JStr "zz") "d1"); EResp (RJson 200 (PDish d'))]).
Proof.
  split; [reflexivity|].
  destruct (update_conflict_cps_overwrites (put_d1 (JStr "zz") taco_fields) None [taco_dish]
              0 taco_dish (JStr "zz") ltac:(reflexivity) ltac:(reflexivity) ltac:(reflexivity)
              ltac:(reflexivity) ltac:(reflexivity)) as (d' & H & _).
  exists d'. exact H.
Defined.

Lemma dishes_inv_taco : dishes_inv [taco_dish].
Proof. split; [apply NoDup_singleton|repeat constructor]. Qed.

Lemma dishes_inv_preserved_witness :
  dish_routes !! 1%nat = Some exports_create /\
  dishes_inv (run_halt exports_create taco_request None [taco_dish]).1.
Proof.
  split; [reflexivity|].
  exact (proj1 (dishes_inv_preserved 1 exports_create taco_request None [taco_dish]
                  ltac:(reflexivity) dishes_inv_taco)).
Defined.

Lemma dish_routes_express_api_witness :
  dish_routes !! 3%nat = Some exports_update /\
  exists ds' o tail,
    run_express exports_update (put_d1 (JStr "zz") taco_fields) None [taco_dish] = (ds', o :: tail) /\
    writes tail = 0%nat /\ dish_api 3 (put_d1 (JStr "zz") taco_fields) [taco_dish] ds' o.
Proof.
  split; [reflexivity|]. exact (dish_routes_express_api 3 exports_update _ None [taco_dish] eq_refl).
Defined.

Lemma dishes_dispatch_agree_witness :
  body_id_conflict (put_d1 (JStr "d1") taco_fields) = false /\
  run_cps exports_update (put_d1 (JStr "d1") taco_fields) None [taco_dish] =
    run_halt exports_update (put_d1 (JStr "d1") taco_fields) None [taco_dish].
Proof.
  split; [reflexivity|].
  exact (dishes_dispatch_agree 3 exports_update (put_d1 (JStr "d1") taco_fields) None [taco_dish]
           ltac:(reflexivity) (fun _ => eq_refl)).
Defined.


Definition price_request (p : jsval) : request := mk_request "" (JObj [("data", JObj [("price", p)])]).

(** The price [8.0], parsed as the rational 16/2, is accepted. *)
Lemma validatePrice_spec_witness :
  body_field (req_body (price_request (JNum (16 # 2)))) "price" = Some (JNum (16 # 2)) /\
  validatePrice (price_request (JNum (16 # 2))) None [] = mw_next None [].
Proof.
  split; [reflexivity|].
  destruct (validatePrice_spec (price_request (JNum (16 # 2))) None [] _ ltac:(reflexivity))
    as [[H _]|[_ Hn]]; [exact H|].
  exfalso. apply Hn. exists 8%Z. split; [lia|]. exists (16 # 2). split; reflexivity.
Defined.

End Dishes.
