(* ===== verification/Orders.v ===== *)
(** * Orders: [src/Project-GrubDash/src/orders/orders.controller.js]

    The collection is the module-level array [orders]; [res.locals.order]
    holds the index of the order [orderExists] found.  [update] and
    [validateOrderStatus] search the array again with [orders.find], and
    [destroy] with [orders.findIndex] before [orders.splice(index, 1)]; the
    model does the same.  [validateDishQuantity]'s [for] loop is the
    structural recursion [check_quantities] over the array with its index.
    The [status] of an order is read by [validateStatusProperty] from the
    request body and by [validateOrderStatus] from the stored order; the
    [update] handler does not write it.  [order_api] is the abstract API
    of the routes, which Express 4's dispatch implements
    ([order_routes_express_api]). *)

From S2P Require Import Prelude Json Middleware Express Store.
From Stdlib Require Import QArith_base.

Module Orders.

(** An order as stored: [status] is [status || "pending"] at creation. *)
Record order : Type := mk_order {
  order_id : string;
  deliverTo : jsval;
  mobileNumber : jsval;
  status : jsval;
  dishes : jsval
}.

#[export] Instance order_has_id : HasId order := order_id.

(** The [data] of a JSON response. *)
Inductive payload : Type :=
| POrder (o : order)
| POrders (os : list order)
| PUndef.

(** [res.locals.order]: the index of the order it refers to, once set. *)
Definition locals : Type := option nat.

Notation mw := (middleware (list order) locals payload).

Section Controller.
Context `{!IdGen}.

(** [function list(req, res)] *)
Definition list_ : mw := fun rq l os => mw_send l os (RJson 200 (POrders os)).

(** [const { data: { deliverTo, mobileNumber, status, dishes } = {} } = req.body] *)
Definition order_fields (body : jsval) : option (jsval * jsval * jsval * jsval) :=
  d ← data_default body;
  dt ← d.["deliverTo"]; mn ← d.["mobileNumber"]; st ← d.["status"]; ds ← d.["dishes"];
  Some (dt, mn, st, ds).

(** [function create(req, res)] *)
Definition create : mw := fun rq l os =>
  match order_fields (req_body rq) with
  | Some (dt, mn, st, ds) =>
      let newOrder := mk_order (next_id (ids os)) dt mn (st ||? JStr "pending") ds in
      mw_send l (os ;+ newOrder) (RJson 201 (POrder newOrder))
  | None => mw_throw l os
  end.

(** [quantity === undefined || quantity === null] *)
Definition quantity_missing (quantity : jsval) : bool :=
  match quantity with JUndef | JNull => true | _ => false end.

(** The [for] loop of [validateDishQuantity], from index [i] on:
    [None] when every quantity is an integer [> 0], [Some (inl e)] for the
    first failing dish, [Some (inr tt)] for the [TypeError] of reading
    [.quantity] of a [null] element. *)
Fixpoint check_quantities (i : nat) (dishes : list jsval) : option (http_error + unit) :=
  match dishes with
  | [] => None
  | dish :: rest =>
      match dish.["quantity"] with
      | None => Some (inr tt)
      | Some quantity =>
          if quantity_missing quantity then
            Some (inl (error_text 400 ("Dish " +:+ nat_to_string i +:+ " must have a quantity.")))
          else if negb (is_integer quantity) || num_le0 quantity then
            Some (inl (error_text 400 ("Dish " +:+ nat_to_string i +:+
              " must have a quantity that is an integer greater than 0")))
          else check_quantities (S i) rest
      end
  end.

Definition no_dish_error : http_error := error_text 400 "Order must include at least one dish.".

(** [function validateDishQuantity(req, res, next)] *)
Definition validateDishQuantity : mw := fun rq l os =>
  match body_field (req_body rq) "dishes" with
  | None => mw_throw l os
  | Some ds0 =>
      match ds0 ||? JArr [] with
      | JArr ((_ :: _) as dishes) =>
          match check_quantities 0 dishes with
          | None => mw_next l os
          | Some (inl e) => mw_fail l os e
          | Some (inr _) => mw_throw l os
          end
      | _ => mw_fail l os no_dish_error
      end
  end.

Definition not_found_error (orderId : string) : http_error :=
  error_text 404 ("Order does not exist: " +:+ orderId +:+ ".").

(** [function orderExists(req, res, next)] *)
Definition orderExists : mw := fun rq l os =>
  let orderId := req_param rq in
  match find_by_id orderId os with
  | Some (i, _) => mw_next (Some i) os
  | None => mw_fail l os (not_found_error orderId)
  end.

Definition missing_error (propertyName : string) : http_error :=
  error_text 400 ("Order must include a " +:+ propertyName).

(** [function bodyDataHas(propertyName)] *)
Definition bodyDataHas (propertyName : string) : mw := fun rq l os =>
  match body_field (req_body rq) propertyName with
  | None => mw_throw l os
  | Some v => if truthy v then mw_next l os else mw_fail l os (missing_error propertyName)
  end.

(** [const { data: { deliverTo, mobileNumber, dishes } = {} } = req.body] *)
Definition update_fields (body : jsval) : option (jsval * jsval * jsval) :=
  d ← data_default body;
  dt ← d.["deliverTo"]; mn ← d.["mobileNumber"]; ds ← d.["dishes"];
  Some (dt, mn, ds).

(** [function update(req, res)]: finds the order again and overwrites
    [deliverTo], [mobileNumber] and [dishes] in place; [status] is kept. *)
Definition update : mw := fun rq l os =>
  match update_fields (req_body rq) with
  | Some (dt, mn, ds) =>
      match find_by_id (req_param rq) os with
      | Some (i, foundOrder) =>
          let o' := mk_order (order_id foundOrder) dt mn (status foundOrder) ds in
          mw_send l (<[i:=o']> os) (RJson 200 (POrder o'))
      | None => mw_throw l os
      end
  | None => mw_throw l os
  end.

(** The order [res.locals.order] refers to. *)
Definition found_order (l : locals) (os : list order) : option order := l ≫= fun i => os !! i.

(** [function read(req, res, next)] *)
Definition read : mw := fun rq l os =>
  mw_send l os (RJson 200 (match found_order l os with Some o => POrder o | None => PUndef end)).

(** [const { id } = req.body.data || {}] *)
Definition body_id (rq : request) : option jsval :=
  data_or_empty (req_body rq) ≫= fun d => d.["id"].

Definition id_mismatch (id : jsval) (routeId : string) : http_error :=
  mk_error 400 [MText "Order id does not match route id. Order: "; MVal id;
                MText ", Route: "; MText routeId].

(** [function validateOrderId(req, res, next)]: on a mismatch it calls
    [next(err)] and then, unconditionally, [next()]. *)
Definition validateOrderId : mw := fun rq l os =>
  match body_id rq with
  | None => mw_throw l os
  | Some id =>
      if truthy id then
        match found_order l os with
        | None => mw_throw l os
        | Some foundOrder =>
            if strict_eq_str id (order_id foundOrder) then mw_next l os
            else (l, os, [AFail (id_mismatch id (order_id foundOrder)); ANext])
        end
      else mw_next l os
  end.

Definition validStatuses : list string := ["pending"; "preparing"; "out-for-delivery"; "delivered"].

Definition delivered_error : http_error := error_text 400 "A delivered order cannot be changed".

Definition status_error : http_error :=
  error_text 400 "Order must have a status of pending, preparing, out-for-delivery, delivered".

(** [const { status } = req.body.data || {}] *)
Definition body_status (rq : request) : option jsval :=
  data_or_empty (req_body rq) ≫= fun d => d.["status"].

(** [function validateStatusProperty(req, res, next)] *)
Definition validateStatusProperty : mw := fun rq l os =>
  match body_status rq with
  | None => mw_throw l os
  | Some st =>
      if strict_eq_str st "delivered" then mw_fail l os delivered_error
      else if negb (truthy st) || negb (includes_str validStatuses st) then mw_fail l os status_error
      else mw_next l os
  end.

Definition pending_error : http_error :=
  error_text 400 "An order cannot be deleted unless it is pending.".

(** [function validateOrderStatus(req, res, next)] *)
Definition validateOrderStatus : mw := fun rq l os =>
  match find_by_id (req_param rq) os with
  | None => mw_throw l os
  | Some (_, foundOrder) =>
      if negb (strict_eq_str (status foundOrder) "pending") then mw_fail l os pending_error
      else mw_next l os
  end.

(** [function destroy(req, res)] *)
Definition destroy : mw := fun rq l os =>
  let index := array_find_index (fun o : order => order_id o = req_param rq) os in
  let os' := if Z.ltb (-1) index then array_splice1 os index else os in
  mw_send l os' (RStatus 204).

(** [module.exports] *)
Definition exports_create : list mw :=
  [bodyDataHas "deliverTo"; bodyDataHas "mobileNumber"; bodyDataHas "dishes";
   validateDishQuantity; create].

Definition exports_read : list mw := [orderExists; read].

Definition exports_update : list mw :=
  [orderExists; bodyDataHas "deliverTo"; bodyDataHas "mobileNumber"; bodyDataHas "dishes";
   bodyDataHas "status"; validateOrderId; validateStatusProperty; validateDishQuantity; update].

Definition exports_list : list mw := [list_].

Definition exports_delete : list mw := [orderExists; validateOrderStatus; destroy].
End Controller.

(** ** Specification *)

(** A dish entry whose [quantity] is an integer [> 0]. *)
Definition quantity_ok (dish : jsval) : bool :=
  match dish.["quantity"] with Some q => is_integer q && num_gt0 q | None => false end.

(** A non-empty array of such entries (spec section 3). *)
Definition dishes_ok (v : jsval) : bool :=
  match v with JArr ((_ :: _) as ds) => forallb quantity_ok ds | _ => false end.

(** [!Array.isArray(dishes) || dishes.length === 0] fails. *)
Definition nonempty_array (v : jsval) : bool :=
  match v with JArr (_ :: _) => true | _ => false end.

Definition body_dishes_ok (body : jsval) : bool :=
  match body_field body "dishes" with Some v => dishes_ok v | None => false end.

(** The two messages of the loop, for the dish at index [i]. *)
Definition quantity_error (i : nat) (q : jsval) : http_error :=
  if quantity_missing q
  then error_text 400 ("Dish " +:+ nat_to_string i +:+ " must have a quantity.")
  else error_text 400 ("Dish " +:+ nat_to_string i +:+
         " must have a quantity that is an integer greater than 0").

(** [bodyDataHas("deliverTo")], [("mobileNumber")], [("dishes")] and, for
    an update, [("status")]. *)
Definition has (k : string) : rule := mk_rule k truthy (missing_error k).
Definition order_rules : list rule := [has "deliverTo"; has "mobileNumber"; has "dishes"].
Definition update_rules : list rule := order_rules ++ [has "status"].

(** A status the update chain accepts. *)
Definition updatable_status (st : jsval) : bool :=
  includes_str ["pending"; "preparing"; "out-for-delivery"] st.

Definition body_id_conflict (rq : request) : bool :=
  match body_id rq with
  | Some id => truthy id && negb (strict_eq_str id (req_param rq))
  | None => false
  end.

Definition fields_ok (o : order) : bool :=
  truthy (deliverTo o) && truthy (mobileNumber o) && dishes_ok (dishes o).

Definition order_ok (o : order) : bool := fields_ok o && truthy (status o).

Definition orders_inv (os : list order) : Prop :=
  unique_ids os /\ Forall (fun o => order_ok o = true) os.

Definition is_pending (o : order) : bool := strict_eq_str (status o) "pending".

(** What one request may do to the collection (spec sections 3 and 4.2):
    nothing; append a valid order with a fresh id; overwrite an order's
    fields in place, keeping its id and its status; delete a pending order. *)
Inductive order_effect (os : list order) : list order -> Prop :=
| oeff_none : order_effect os os
| oeff_push no : order_id no ∉ ids os -> order_ok no = true -> order_effect os (os ;+ no)
| oeff_overwrite i f o' :
    os !! i = Some f -> order_id o' = order_id f -> status o' = status f -> fields_ok o' = true ->
    order_effect os (<[i:=o']> os)
| oeff_delete i f : os !! i = Some f -> is_pending f = true -> order_effect os (delete i os).

(** The created order's fields are the body's, its status defaulted. *)
Definition order_from_body (body : jsval) (o : order) : Prop :=
  body_field body "deliverTo" = Some (deliverTo o) /\
  body_field body "mobileNumber" = Some (mobileNumber o) /\
  body_field body "dishes" = Some (dishes o) /\
  exists st, body_field body "status" = Some st /\ status o = (st ||? JStr "pending").

(** The three fields [update] writes are the body's. *)
Definition order_update_from_body (body : jsval) (o : order) : Prop :=
  body_field body "deliverTo" = Some (deliverTo o) /\
  body_field body "mobileNumber" = Some (mobileNumber o) /\
  body_field body "dishes" = Some (dishes o).

(** ** Abstract specification of the order API (spec sections 4.2, 6)

    What one request to route [n] of [order_routes] (0: GET /orders, 1:
    POST /orders, 2: GET /orders/:orderId, 3: PUT /orders/:orderId, 4:
    DELETE /orders/:orderId) may do to the collection [os], and the
    emission that answers it. *)
Inductive order_api (n : nat) (rq : request) (os : list order) : list order -> emit payload -> Prop :=
| oapi_list : n = 0%nat -> order_api n rq os os (EResp (RJson 200 (POrders os)))
| oapi_create no :
    n = 1%nat -> order_id no ∉ ids os -> order_ok no = true -> order_from_body (req_body rq) no ->
    order_api n rq os (os ;+ no) (EResp (RJson 201 (POrder no)))
| oapi_read i o :
    n = 2%nat -> find_by_id (req_param rq) os = Some (i, o) -> order_api n rq os os (EResp (RJson 200 (POrder o)))
| oapi_update i f o' :
    n = 3%nat -> find_by_id (req_param rq) os = Some (i, f) -> order_id o' = req_param rq ->
    status o' = status f -> fields_ok o' = true -> order_update_from_body (req_body rq) o' ->
    order_api n rq os (<[i:=o']> os) (EResp (RJson 200 (POrder o')))
| oapi_delete i f :
    n = 4%nat -> find_by_id (req_param rq) os = Some (i, f) -> is_pending f = true ->
    order_api n rq os (delete i os) (EResp (RStatus 204))
| oapi_not_found :
    (n = 2 \/ n = 3 \/ n = 4)%nat -> find_by_id (req_param rq) os = None ->
    order_api n rq os os (EError (not_found_error (req_param rq)))
| oapi_invalid e : (n = 1 \/ n = 3 \/ n = 4)%nat -> err_status e = 400%Z -> order_api n rq os os (EError e)
| oapi_throw : (n = 1 \/ n = 3)%nat -> order_api n rq os os EThrow.

Section Proofs.
Context `{!IdGen}.
Implicit Types (rq : request) (l : locals) (os : list order).

(** *** The quantity loop *)

Lemma quantity_test q : negb (is_integer q) || num_le0 q = negb (is_integer q && num_gt0 q).
Proof.
  destruct q as [| | | x | | |]; try done. simpl.
  destruct (Z.eqb _ 0); simpl; [|done]. by rewrite Z.ltb_antisym, negb_involutive.
Qed.

Lemma quantity_missing_not_ok q : quantity_missing q = true -> is_integer q && num_gt0 q = false.
Proof. by destruct q. Qed.

Lemma check_quantities_cons_ok i d rest :
  quantity_ok d = true -> check_quantities i (d :: rest) = check_quantities (S i) rest.
Proof.
  unfold quantity_ok. simpl. destruct (d.["quantity"]) as [q|]; [|done]. intros Hq.
  destruct (quantity_missing q) eqn:Hm; [by rewrite quantity_missing_not_ok in Hq|].
  by rewrite quantity_test, Hq.
Qed.

Lemma check_quantities_None i ds : check_quantities i ds = None <-> forallb quantity_ok ds = true.
Proof.
  revert i. induction ds as [|d ds IH]; intros i; [done|].
  destruct (quantity_ok d) eqn:Hd.
  - rewrite (check_quantities_cons_ok i d ds Hd), IH. simpl. by rewrite Hd.
  - split; [|simpl; by rewrite Hd]. simpl. unfold quantity_ok in Hd.
    destruct (d.["quantity"]) as [q|]; [|done].
    destruct (quantity_missing q); [done|]. by rewrite quantity_test, Hd.
Qed.

(** The loop stops at the first dish whose quantity is not an integer
    [> 0], with the message for its index. *)
Lemma check_quantities_first i pre d post :
  forallb quantity_ok pre = true -> quantity_ok d = false ->
  check_quantities i (pre ++ d :: post) =
    match d.["quantity"] with
    | Some q => Some (inl (quantity_error (i + length pre) q))
    | None => Some (inr tt)
    end.
Proof.
  revert i. induction pre as [|a pre IH]; intros i Hpre Hd.
  - simpl. unfold quantity_ok in Hd. unfold quantity_error. rewrite Nat.add_0_r.
    destruct (d.["quantity"]) as [q|]; [|done].
    destruct (quantity_missing q); [done|]. by rewrite quantity_test, Hd.
  - simpl in Hpre. apply andb_prop in Hpre as [Ha Hpre].
    change ((a :: pre) ++ d :: post) with (a :: (pre ++ d :: post)).
    rewrite (check_quantities_cons_ok i a (pre ++ d :: post) Ha), IH by done.
    simpl length. by rewrite Nat.add_succ_r.
Qed.

(** *** The validators *)

Lemma validateDishQuantity_validator : validator validateDishQuantity.
Proof. solve_validator validateDishQuantity. Qed.

Lemma validateDishQuantity_pass rq l os :
  body_dishes_ok (req_body rq) = true -> validateDishQuantity rq l os = (l, os, [ANext]).
Proof.
  unfold body_dishes_ok, validateDishQuantity.
  destruct (body_field (req_body rq) "dishes") as [v|]; [|done].
  destruct v as [| | | | |[|d ds]|]; try done. intros Hok. cbn -[check_quantities].
  by rewrite (proj2 (check_quantities_None 0 (d :: ds)) Hok).
Qed.

Lemma validateDishQuantity_next rq l os :
  ANext ∈ (validateDishQuantity rq l os).2 -> body_dishes_ok (req_body rq) = true.
Proof.
  unfold body_dishes_ok, validateDishQuantity.
  destruct (body_field (req_body rq) "dishes") as [v|]; simpl; [|by rewrite list_elem_of_singleton].
  unfold js_or. destruct (truthy v) eqn:Ht.
  - destruct v as [| | | | |[|d ds]|]; cbn -[check_quantities];
      try (by rewrite list_elem_of_singleton).
    destruct (check_quantities 0 (d :: ds)) as [[]|] eqn:Hc;
      simpl; rewrite ?list_elem_of_singleton; try done. intros _. by apply check_quantities_None in Hc.
  - simpl. by rewrite list_elem_of_singleton.
Qed.

Lemma validateStatusProperty_validator : validator validateStatusProperty.
Proof. solve_validator validateStatusProperty. Qed.

Lemma updatable_status_cases st :
  updatable_status st = true -> st = JStr "pending" \/ st = JStr "preparing" \/ st = JStr "out-for-delivery".
Proof.
  destruct st as [| | | |s| |]; try done. unfold updatable_status, includes_str.
  rewrite bool_decide_eq_true, !elem_of_cons, elem_of_nil. naive_solver.
Qed.

Lemma validateStatusProperty_pass rq l os st :
  body_status rq = Some st -> updatable_status st = true ->
  validateStatusProperty rq l os = (l, os, [ANext]).
Proof.
  intros Hb Hu. unfold validateStatusProperty. rewrite Hb.
  by destruct (updatable_status_cases st Hu) as [->|[->| ->]].
Qed.

Lemma validateStatusProperty_delivered rq l os :
  body_status rq = Some (JStr "delivered") ->
  validateStatusProperty rq l os = (l, os, [AFail delivered_error]).
Proof. intros Hb. unfold validateStatusProperty. by rewrite Hb. Qed.

Lemma validateOrderId_validator : validator validateOrderId.
Proof. solve_validator validateOrderId. Qed.

Lemma validateOrderStatus_validator : validator validateOrderStatus.
Proof. solve_validator validateOrderStatus. Qed.

(** *** The chains *)

Lemma order_exports_create_rules :
  exports_create = map rule_mw order_rules ++ [validateDishQuantity; create].
Proof. reflexivity. Qed.

Lemma order_exports_update_rules :
  exports_update = orderExists :: map rule_mw update_rules ++
                     [validateOrderId; validateStatusProperty; validateDishQuantity; update].
Proof. reflexivity. Qed.

Lemma find_order_Some k os i f :
  find_by_id k os = Some (i, f) -> os !! i = Some f /\ order_id f = k.
Proof. apply find_by_id_Some. Qed.

Lemma orderExists_found rq l os i f :
  find_by_id (req_param rq) os = Some (i, f) -> orderExists rq l os = (Some i, os, [ANext]).
Proof. unfold orderExists. by intros ->. Qed.

Lemma orderExists_missing rq l os :
  find_by_id (req_param rq) os = None ->
  orderExists rq l os = (l, os, [AFail (not_found_error (req_param rq))]).
Proof. unfold orderExists. by intros ->. Qed.

(** A chain that starts with [orderExists] answers 404 for an absent id. *)
Lemma order_missing_run ms rq l os :
  find_by_id (req_param rq) os = None ->
  run_halt (orderExists :: ms) rq l os = (os, [EError (not_found_error (req_param rq))]) /\
  run_cps (orderExists :: ms) rq l os = (os, [EError (not_found_error (req_param rq))]).
Proof.
  intros Hf. pose proof (orderExists_missing rq l os Hf). split; [eapply run_halt_fail|eapply run_cps_fail]; eauto.
Qed.

(** *** Creating an order *)

Lemma order_fields_eq body :
  order_fields body =
    dt ← body_field body "deliverTo"; mn ← body_field body "mobileNumber";
    st ← body_field body "status"; ds ← body_field body "dishes"; Some (dt, mn, st, ds).
Proof. unfold order_fields, body_field. by destruct (data_default body). Qed.

Lemma update_fields_eq body :
  update_fields body =
    dt ← body_field body "deliverTo"; mn ← body_field body "mobileNumber";
    ds ← body_field body "dishes"; Some (dt, mn, ds).
Proof. unfold update_fields, body_field. by destruct (data_default body). Qed.

(** When [bodyDataHas] passed for the three fields, they are truthy and the
    destructuring of [create] and [update] reads them. *)
Lemma order_rules_fields body :
  check_rules body order_rules = Some None ->
  exists dt mn st ds,
    body_field body "deliverTo" = Some dt /\ body_field body "mobileNumber" = Some mn /\
    body_field body "status" = Some st /\ body_field body "dishes" = Some ds /\
    truthy dt = true /\ truthy mn = true /\
    order_fields body = Some (dt, mn, st, ds) /\ update_fields body = Some (dt, mn, ds).
Proof.
  intros Hc%check_rules_pass. unfold order_rules in Hc.
  inversion Hc as [|? ? (dt & Hdt & Tdt) Hc1]; subst.
  inversion Hc1 as [|? ? (mn & Hmn & Tmn) Hc2]; subst.
  inversion Hc2 as [|? ? (ds & Hds & _) _]; subst. simpl in *.
  destruct (body_field_other _ _ "status" _ Hdt) as [st Hst].
  exists dt, mn, st, ds. rewrite order_fields_eq, update_fields_eq, Hdt, Hmn, Hst, Hds.
  by repeat split.
Qed.

Lemma update_rules_order_rules body :
  check_rules body update_rules = Some None -> check_rules body order_rules = Some None.
Proof.
  rewrite !check_rules_pass. unfold update_rules. rewrite Forall_app. by intros [? _].
Qed.

Lemma validateDishQuantity_fail rq l os pre d post q :
  body_field (req_body rq) "dishes" = Some (JArr (pre ++ d :: post)) ->
  forallb quantity_ok pre = true -> quantity_ok d = false -> d.["quantity"] = Some q ->
  validateDishQuantity rq l os = (l, os, [AFail (quantity_error (length pre) q)]).
Proof.
  intros Hb Hpre Hd Hq. unfold validateDishQuantity. rewrite Hb.
  assert (exists x xs, pre ++ d :: post = x :: xs) as (x & xs & Hx) by (destruct pre; eauto).
  rewrite Hx. cbn -[check_quantities]. rewrite <- Hx, (check_quantities_first 0 pre d post Hpre Hd), Hq.
  done.
Qed.

Lemma validateDishQuantity_empty rq l os v :
  body_field (req_body rq) "dishes" = Some v -> nonempty_array v = false ->
  validateDishQuantity rq l os = (l, os, [AFail no_dish_error]).
Proof.
  intros Hb Hne. unfold validateDishQuantity. rewrite Hb. unfold js_or.
  destruct (truthy v); [|done]. destruct v as [| | | | |[|]|]; done.
Qed.

(** When the presence rules and the quantity check pass, POST /orders
    comes down to its handler. *)
Lemma order_create_chain_pass rq l os :
  check_rules (req_body rq) order_rules = Some None -> body_dishes_ok (req_body rq) = true ->
  run_halt exports_create rq l os = run_halt [create] rq l os /\
  run_cps exports_create rq l os = run_cps [create] rq l os.
Proof.
  intros Hc Hd. rewrite order_exports_create_rules, run_halt_rules, run_cps_rules.
  unfold rules_outcome. rewrite Hc.
  by erewrite run_halt_next, run_cps_next by (by apply validateDishQuantity_pass).
Qed.

(** The handler pushes the order it answers with, its status defaulted. *)
Lemma order_create_handler_run rq l os dt mn st ds :
  order_fields (req_body rq) = Some (dt, mn, st, ds) ->
  let no := mk_order (next_id (ids os)) dt mn (st ||? JStr "pending") ds in
  run_halt [create] rq l os = (os ;+ no, [EResp (RJson 201 (POrder no))]) /\
  run_cps [create] rq l os = (os ;+ no, [EResp (RJson 201 (POrder no))]).
Proof. intros Hf. simpl. unfold create. by rewrite Hf. Qed.

(** GET /orders/:orderId on an order that is found answers it. *)
Lemma order_read_found rq l os i o :
  find_by_id (req_param rq) os = Some (i, o) ->
  run_halt exports_read rq l os = (os, [EResp (RJson 200 (POrder o))]) /\
  run_cps exports_read rq l os = (os, [EResp (RJson 200 (POrder o))]).
Proof.
  intros Hf. unfold exports_read.
  erewrite run_halt_next, run_cps_next by (by eapply orderExists_found). simpl.
  unfold read, found_order. simpl. by rewrite (proj1 (find_order_Some _ _ _ _ Hf)).
Qed.

(** C2: POST /orders with truthy deliverTo, mobileNumber
    and dishes and a non-empty dishes array whose quantities are integers
    [> 0] appends one order with a fresh id and answers 201 with it, under
    both dispatchers; its status is the body's status, or "pending" when
    that is falsy (it is not checked against the list of statuses). *)
Theorem order_create_valid rq l os :
  check_rules (req_body rq) order_rules = Some None -> body_dishes_ok (req_body rq) = true ->
  exists no,
    run_halt exports_create rq l os = (os ;+ no, [EResp (RJson 201 (POrder no))]) /\
    run_cps exports_create rq l os = (os ;+ no, [EResp (RJson 201 (POrder no))]) /\
    order_id no ∉ ids os /\ order_ok no = true /\ order_from_body (req_body rq) no.
Proof.
  intros Hc Hd. destruct (order_create_chain_pass rq l os Hc Hd) as [-> ->].
  destruct (order_rules_fields _ Hc) as (dt & mn & st & ds & Hbt & Hbm & Hbs & Hbd & Tdt & Tmn & Hf & _).
  destruct (order_create_handler_run rq l os _ _ _ _ Hf) as [-> ->].
  eexists. split; [done|]. split; [done|]. split; [apply next_id_fresh|]. split.
  - unfold order_ok, fields_ok. simpl. unfold body_dishes_ok in Hd. rewrite Hbd in Hd.
    by rewrite Tdt, Tmn, Hd, js_or_truthy_r.
  - unfold order_from_body. simpl. eauto 10.
Qed.

(** C4: when the presence checks pass and [dishes] is
    an array whose entries before index [j] are valid and whose entry [j]
    has a quantity [q] that is not an integer [> 0], POST /orders answers
    400 with the message for dish [j] ("Dish j must have a quantity." when
    [q] is undefined or null, "... that is an integer greater than 0"
    otherwise) and changes nothing. *)
Theorem order_create_rejects_quantity rq l os pre d post q :
  check_rules (req_body rq) order_rules = Some None ->
  body_field (req_body rq) "dishes" = Some (JArr (pre ++ d :: post)) ->
  forallb quantity_ok pre = true -> quantity_ok d = false -> d.["quantity"] = Some q ->
  run_halt exports_create rq l os = (os, [EError (quantity_error (length pre) q)]) /\
  run_cps exports_create rq l os = (os, [EError (quantity_error (length pre) q)]).
Proof.
  intros Hc Hb Hpre Hd Hq. rewrite order_exports_create_rules, run_halt_rules, run_cps_rules.
  unfold rules_outcome. rewrite Hc.
  pose proof (validateDishQuantity_fail rq l os pre d post q Hb Hpre Hd Hq) as Hv.
  split; [eapply run_halt_fail|eapply run_cps_fail]; exact Hv.
Qed.

(** C37: When the presence checks pass but [dishes] is
    not a non-empty array, POST /orders answers 400 "Order must include at
    least one dish." and changes nothing. *)
Theorem order_create_rejects_no_dish rq l os v :
  check_rules (req_body rq) order_rules = Some None ->
  body_field (req_body rq) "dishes" = Some v -> nonempty_array v = false ->
  run_halt exports_create rq l os = (os, [EError no_dish_error]) /\
  run_cps exports_create rq l os = (os, [EError no_dish_error]).
Proof.
  intros Hc Hb Hne. rewrite order_exports_create_rules, run_halt_rules, run_cps_rules.
  unfold rules_outcome. rewrite Hc.
  pose proof (validateDishQuantity_empty rq l os v Hb Hne) as Hv.
  split; [eapply run_halt_fail|eapply run_cps_fail]; exact Hv.
Qed.

(** *** Updating an order *)

Definition update_tail : list mw :=
  [validateOrderId; validateStatusProperty; validateDishQuantity; update].

Lemma order_run_update_found rq l os i f :
  find_by_id (req_param rq) os = Some (i, f) ->
  run_halt exports_update rq l os = run_halt (map rule_mw update_rules ++ update_tail) rq (Some i) os /\
  run_cps exports_update rq l os = run_cps (map rule_mw update_rules ++ update_tail) rq (Some i) os.
Proof.
  intros Hf. rewrite order_exports_update_rules.
  split; [eapply run_halt_next|eapply run_cps_next]; by eapply orderExists_found.
Qed.

Lemma update_rules_reads rq :
  check_rules (req_body rq) update_rules = Some None ->
  (exists id, body_id rq = Some id) /\ (exists st, body_status rq = Some st).
Proof.
  intros Hc. destruct (order_rules_fields _ (update_rules_order_rules _ Hc)) as (dt & _ & _ & _ & Hbt & _).
  split; [apply (data_or_empty_read _ _ _ "id" Hbt)|apply (data_or_empty_read _ _ _ "status" Hbt)].
Qed.

Lemma validateOrderId_pass rq i f os :
  os !! i = Some f -> order_id f = req_param rq -> is_Some (body_id rq) ->
  body_id_conflict rq = false -> validateOrderId rq (Some i) os = (Some i, os, [ANext]).
Proof.
  intros Hi Hid [id Hb] Hnc. unfold body_id_conflict in Hnc. rewrite Hb in Hnc.
  unfold validateOrderId, found_order. simpl. rewrite Hb, Hi, Hid.
  by destruct (truthy id), (strict_eq_str id (req_param rq)).
Qed.

Lemma validateOrderId_conflict rq i f os id :
  os !! i = Some f -> order_id f = req_param rq -> body_id rq = Some id ->
  truthy id = true -> strict_eq_str id (req_param rq) = false ->
  validateOrderId rq (Some i) os = (Some i, os, [AFail (id_mismatch id (req_param rq)); ANext]).
Proof.
  intros Hi Hid Hb Ht Hs. unfold validateOrderId, found_order. simpl. by rewrite Hb, Hi, Hid, Ht, Hs.
Qed.

Lemma update_found rq l os i f dt mn ds :
  find_by_id (req_param rq) os = Some (i, f) -> update_fields (req_body rq) = Some (dt, mn, ds) ->
  update rq l os = (l, <[i:=mk_order (order_id f) dt mn (status f) ds]> os,
                    [ASend (RJson 200 (POrder (mk_order (order_id f) dt mn (status f) ds)))]).
Proof. intros Hf Hu. unfold update. by rewrite Hu, Hf. Qed.

(** When the order exists and every validator of PUT /orders/:orderId
    accepts the body, the chain comes down to its handler. *)
Lemma update_chain_pass rq l os i f st :
  find_by_id (req_param rq) os = Some (i, f) ->
  check_rules (req_body rq) update_rules = Some None ->
  body_id_conflict rq = false ->
  body_status rq = Some st -> updatable_status st = true ->
  body_dishes_ok (req_body rq) = true ->
  run_halt exports_update rq l os = run_halt [update] rq (Some i) os /\
  run_cps exports_update rq l os = run_cps [update] rq (Some i) os.
Proof.
  intros Hf Hc Hnc Hst Hup Hd.
  destruct (order_run_update_found rq l os i f Hf) as [-> ->].
  destruct (find_order_Some _ _ _ _ Hf) as [Hi Hid].
  destruct (update_rules_reads rq Hc) as [[id Hbid] _].
  rewrite run_halt_rules, run_cps_rules. unfold rules_outcome. rewrite Hc. unfold update_tail.
  pose proof (validateOrderId_pass rq i f os Hi Hid ltac:(by eexists) Hnc) as Hv1.
  pose proof (validateStatusProperty_pass rq (Some i) os st Hst Hup) as Hv2.
  pose proof (validateDishQuantity_pass rq (Some i) os Hd) as Hv3.
  erewrite run_halt_next, run_cps_next by exact Hv1.
  erewrite run_halt_next, run_cps_next by exact Hv2.
  by erewrite run_halt_next, run_cps_next by exact Hv3.
Qed.

(** C32: PUT /orders/:orderId on an existing order, with
    the four fields present, no conflicting body id, a body status among
    pending, preparing, out-for-delivery and valid dishes, overwrites
    deliverTo, mobileNumber and dishes of that order in place and answers
    200, under both dispatchers; the stored status is left as it was,
    whatever status the body carries. *)
Theorem order_update_valid rq l os i f st :
  find_by_id (req_param rq) os = Some (i, f) ->
  check_rules (req_body rq) update_rules = Some None ->
  body_id_conflict rq = false ->
  body_status rq = Some st -> updatable_status st = true ->
  body_dishes_ok (req_body rq) = true ->
  exists o',
    run_halt exports_update rq l os = (<[i:=o']> os, [EResp (RJson 200 (POrder o'))]) /\
    run_cps exports_update rq l os = (<[i:=o']> os, [EResp (RJson 200 (POrder o'))]) /\
    order_id o' = req_param rq /\ status o' = status f /\ fields_ok o' = true /\
    order_update_from_body (req_body rq) o'.
Proof.
  intros Hf Hc Hnc Hst Hup Hd.
  destruct (update_chain_pass rq l os i f st Hf Hc Hnc Hst Hup Hd) as [-> ->].
  destruct (find_order_Some _ _ _ _ Hf) as [Hi Hid].
  destruct (order_rules_fields _ (update_rules_order_rules _ Hc))
    as (dt & mn & st' & ds & Hbt & Hbm & _ & Hbd & Tdt & Tmn & _ & Hu).
  exists (mk_order (order_id f) dt mn (status f) ds).
  erewrite run_halt_send, run_cps_send by (by apply update_found).
  unfold body_dishes_ok in Hd. rewrite Hbd in Hd.
  unfold fields_ok, order_update_from_body. simpl. rewrite Tdt, Tmn, Hd. by repeat split.
Qed.

(** C7: PUT /orders/:orderId whose body status is
    "delivered" answers 400 "A delivered order cannot be changed" and changes
    nothing, whatever the stored order's status is, under both dispatchers:
    no update can set an order to delivered. *)
Theorem order_update_rejects_delivered rq l os i f :
  find_by_id (req_param rq) os = Some (i, f) ->
  check_rules (req_body rq) update_rules = Some None ->
  body_id_conflict rq = false -> body_status rq = Some (JStr "delivered") ->
  run_halt exports_update rq l os = (os, [EError delivered_error]) /\
  run_cps exports_update rq l os = (os, [EError delivered_error]).
Proof.
  intros Hf Hc Hnc Hst.
  destruct (order_run_update_found rq l os i f Hf) as [-> ->].
  destruct (find_order_Some _ _ _ _ Hf) as [Hi Hid].
  destruct (update_rules_reads rq Hc) as [[id Hbid] _].
  rewrite run_halt_rules, run_cps_rules. unfold rules_outcome. rewrite Hc. unfold update_tail.
  pose proof (validateOrderId_pass rq i f os Hi Hid ltac:(by eexists) Hnc) as Hv1.
  erewrite run_halt_next, run_cps_next by exact Hv1.
  split; [eapply run_halt_fail|eapply run_cps_fail]; by apply validateStatusProperty_delivered.
Qed.

(** *** Reading and deleting an order *)

(** GET /orders/:orderId answers 200 with the first order
    with that id, or 404 "Order does not exist: <orderId>."; nothing changes. *)
Lemma order_read_result rq l os :
  run_halt exports_read rq l os =
    match find_by_id (req_param rq) os with
    | Some (_, o) => (os, [EResp (RJson 200 (POrder o))])
    | None => (os, [EError (not_found_error (req_param rq))])
    end.
Proof.
  destruct (find_by_id (req_param rq) os) as [[i o]|] eqn:Hf.
  - exact (proj1 (order_read_found rq l os i o Hf)).
  - exact (proj1 (order_missing_run [read] rq l os Hf)).
Qed.

(** C38: PUT then GET on orders: after a PUT /orders/:orderId that every
    validator accepts, a GET of the same id answers 200 with the order the
    PUT answered with, now stored at the same index: the body's deliverTo,
    mobileNumber and dishes with the old status, under both dispatchers. *)
Theorem order_update_then_read rq rq' l l' os i f st :
  find_by_id (req_param rq) os = Some (i, f) ->
  check_rules (req_body rq) update_rules = Some None ->
  body_id_conflict rq = false ->
  body_status rq = Some st -> updatable_status st = true ->
  body_dishes_ok (req_body rq) = true -> req_param rq' = req_param rq ->
  exists o',
    run_halt exports_update rq l os = (<[i:=o']> os, [EResp (RJson 200 (POrder o'))]) /\
    run_cps exports_update rq l os = (<[i:=o']> os, [EResp (RJson 200 (POrder o'))]) /\
    run_halt exports_read rq' l' (<[i:=o']> os) = (<[i:=o']> os, [EResp (RJson 200 (POrder o'))]) /\
    run_cps exports_read rq' l' (<[i:=o']> os) = (<[i:=o']> os, [EResp (RJson 200 (POrder o'))]) /\
    status o' = status f.
Proof.
  intros Hf Hc Hnc Hst Hup Hd Hp.
  destruct (update_chain_pass rq l os i f st Hf Hc Hnc Hst Hup Hd) as [-> ->].
  destruct (order_rules_fields _ (update_rules_order_rules _ Hc)) as (dt & mn & _ & ds & _ & _ & _ & _ & _ & _ & _ & Hu).
  pose proof (update_found rq (Some i) os i f dt mn ds Hf Hu) as Hupd.
  exists (mk_order (order_id f) dt mn (status f) ds).
  erewrite run_halt_send, run_cps_send by exact Hupd.
  rewrite <- Hp in Hf. destruct (find_order_Some _ _ _ _ Hf) as [_ Hid].
  destruct (order_read_found rq' l' _ i _
              (find_by_id_insert_found os _ i f (mk_order (order_id f) dt mn (status f) ds) Hf Hid)) as [-> ->].
  by repeat split.
Qed.

Lemma run_delete_found rq l os i f :
  find_by_id (req_param rq) os = Some (i, f) ->
  run_halt exports_delete rq l os = run_halt [validateOrderStatus; destroy] rq (Some i) os /\
  run_cps exports_delete rq l os = run_cps [validateOrderStatus; destroy] rq (Some i) os.
Proof.
  intros Hf. unfold exports_delete.
  split; [eapply run_halt_next|eapply run_cps_next]; by eapply orderExists_found.
Qed.

Lemma validateOrderStatus_found rq l os i f :
  find_by_id (req_param rq) os = Some (i, f) ->
  validateOrderStatus rq l os =
    if is_pending f then (l, os, [ANext]) else (l, os, [AFail pending_error]).
Proof. intros Hf. unfold validateOrderStatus, is_pending. rewrite Hf. by destruct (strict_eq_str _ _). Qed.

Lemma destroy_found rq l os i f :
  find_by_id (req_param rq) os = Some (i, f) ->
  destroy rq l os = (l, delete i os, [ASend (RStatus 204)]).
Proof.
  intros Hf. unfold destroy.
  erewrite array_find_index_Some by exact Hf.
  destruct (find_order_Some _ _ _ _ Hf) as [Hi _].
  rewrite array_splice1_in_range by (eapply lookup_lt_Some; eauto).
  replace (Z.ltb (-1) (Z.of_nat i)) with true by (symmetry; apply Z.ltb_lt; lia). done.
Qed.

(** DELETE on an order that is found: removed with a 204 when pending, a
    400 otherwise. *)
Lemma delete_found_run rq l os i f :
  find_by_id (req_param rq) os = Some (i, f) ->
  let r := if is_pending f then (delete i os, [EResp (RStatus 204)]) else (os, [EError pending_error]) in
  run_halt exports_delete rq l os = r /\ run_cps exports_delete rq l os = r.
Proof.
  intros Hf. destruct (run_delete_found rq l os i f Hf) as [-> ->].
  pose proof (validateOrderStatus_found rq (Some i) os i f Hf) as Hv. destruct (is_pending f).
  - erewrite run_halt_next, run_cps_next by exact Hv.
    split; [eapply run_halt_send|eapply run_cps_send]; exact (destroy_found rq (Some i) os i f Hf).
  - split; [eapply run_halt_fail|eapply run_cps_fail]; exact Hv.
Qed.

(** C28: DELETE /orders/:orderId on a pending order
    removes it from the array (at its index) and answers 204, under both
    dispatchers. *)
Theorem order_delete_pending rq l os i f :
  find_by_id (req_param rq) os = Some (i, f) -> is_pending f = true ->
  run_halt exports_delete rq l os = (delete i os, [EResp (RStatus 204)]) /\
  run_cps exports_delete rq l os = (delete i os, [EResp (RStatus 204)]).
Proof. intros Hf Hp. pose proof (delete_found_run rq l os i f Hf) as Hr. by rewrite Hp in Hr. Qed.

(** C29: DELETE on an order whose status is not
    "pending" answers 400 "An order cannot be deleted unless it is
    pending." and changes nothing. *)
Theorem order_delete_not_pending rq l os i f :
  find_by_id (req_param rq) os = Some (i, f) -> is_pending f = false ->
  run_halt exports_delete rq l os = (os, [EError pending_error]) /\
  run_cps exports_delete rq l os = (os, [EError pending_error]).
Proof. intros Hf Hp. pose proof (delete_found_run rq l os i f Hf) as Hr. by rewrite Hp in Hr. Qed.

(** C30: in a collection with unique ids, after a
    DELETE of a pending order, a GET of the same id answers 404. *)
Theorem order_delete_then_read rq rq' l l' os i f :
  unique_ids os -> find_by_id (req_param rq) os = Some (i, f) -> is_pending f = true ->
  req_param rq' = req_param rq ->
  run_halt exports_read rq' l' (run_halt exports_delete rq l os).1 =
    ((run_halt exports_delete rq l os).1, [EError (not_found_error (req_param rq))]).
Proof.
  intros Hu Hf Hp Hk. pose proof (delete_found_run rq l os i f Hf) as [Hr _]. rewrite Hp in Hr. rewrite Hr.
  unfold exports_read. rewrite <- Hk. apply order_missing_run.
  rewrite Hk. exact (find_by_id_delete_found os (req_param rq) i f Hu Hf).
Qed.

(** *** Every route refines [order_effect] *)

Definition order_routes : list (list mw) :=
  [exports_list; exports_create; exports_read; exports_update; exports_delete].

Lemma create_handler_effect rq l os :
  check_rules (req_body rq) order_rules = Some None -> body_dishes_ok (req_body rq) = true ->
  order_effect os (run_halt [create] rq l os).1 /\ order_effect os (run_cps [create] rq l os).1.
Proof.
  intros Hc Hd. destruct (order_rules_fields _ Hc) as (dt & mn & st & ds & _ & _ & _ & Hbd & Tdt & Tmn & Hf & _).
  simpl. unfold create. rewrite Hf. simpl.
  unfold body_dishes_ok in Hd. rewrite Hbd in Hd.
  split; (apply oeff_push; [apply next_id_fresh|]);
    unfold order_ok, fields_ok; simpl; by rewrite Tdt, Tmn, Hd, js_or_truthy_r.
Qed.

Lemma update_handler_effect rq l os i f :
  find_by_id (req_param rq) os = Some (i, f) ->
  check_rules (req_body rq) update_rules = Some None -> body_dishes_ok (req_body rq) = true ->
  order_effect os (run_halt [update] rq l os).1 /\ order_effect os (run_cps [update] rq l os).1.
Proof.
  intros Hf Hc Hd. destruct (find_order_Some _ _ _ _ Hf) as [Hi _].
  destruct (order_rules_fields _ (update_rules_order_rules _ Hc))
    as (dt & mn & st & ds & _ & _ & _ & Hbd & Tdt & Tmn & _ & Hu).
  erewrite run_halt_send, run_cps_send by (by apply update_found).
  unfold body_dishes_ok in Hd. rewrite Hbd in Hd.
  split; (eapply oeff_overwrite; [exact Hi|done|done|]); unfold fields_ok; simpl; by rewrite Tdt, Tmn, Hd.
Qed.

Lemma order_create_route_effect rq l os :
  order_effect os (run_halt exports_create rq l os).1 /\ order_effect os (run_cps exports_create rq l os).1.
Proof.
  rewrite order_exports_create_rules. apply run_rules_effect; [constructor|]. intros Hc.
  split; [apply run_halt_validator|apply run_cps_validator];
    try apply validateDishQuantity_validator; try constructor;
    intros Hn%validateDishQuantity_next; apply (create_handler_effect rq l os Hc Hn).
Qed.

Lemma order_update_route_effect rq l os :
  order_effect os (run_halt exports_update rq l os).1 /\ order_effect os (run_cps exports_update rq l os).1.
Proof.
  destruct (find_by_id (req_param rq) os) as [[i f]|] eqn:Hf.
  2: { rewrite order_exports_update_rules. pose proof (orderExists_missing rq l os Hf).
       erewrite run_halt_fail, run_cps_fail by eauto. split; constructor. }
  destruct (order_run_update_found rq l os i f Hf) as [-> ->].
  apply run_rules_effect; [constructor|]. intros Hc. unfold update_tail.
  split; [apply run_halt_validator|apply run_cps_validator];
    try apply validateOrderId_validator; try constructor; intros _;
    [apply run_halt_validator|apply run_cps_validator];
    try apply validateStatusProperty_validator; try constructor; intros _;
    [apply run_halt_validator|apply run_cps_validator];
    try apply validateDishQuantity_validator; try constructor;
    intros Hn%validateDishQuantity_next; apply (update_handler_effect rq (Some i) os i f Hf Hc Hn).
Qed.

Lemma delete_route_effect rq l os :
  order_effect os (run_halt exports_delete rq l os).1 /\ order_effect os (run_cps exports_delete rq l os).1.
Proof.
  destruct (find_by_id (req_param rq) os) as [[i f]|] eqn:Hf.
  2: { unfold exports_delete. pose proof (orderExists_missing rq l os Hf).
       erewrite run_halt_fail, run_cps_fail by eauto. split; constructor. }
  destruct (delete_found_run rq l os i f Hf) as [-> ->].
  destruct (is_pending f) eqn:Hp; [|split; constructor].
  destruct (find_order_Some _ _ _ _ Hf) as [Hi _]. split; by eapply oeff_delete.
Qed.

Lemma read_route_state rq l os :
  run_cps exports_read rq l os = run_halt exports_read rq l os /\ (run_halt exports_read rq l os).1 = os.
Proof.
  destruct (find_by_id (req_param rq) os) as [[i o]|] eqn:Hf;
    [destruct (order_read_found rq l os i o Hf) as [-> ->]
    |unfold exports_read; destruct (order_missing_run [read] rq l os Hf) as [-> ->]]; done.
Qed.

Lemma order_route_effect n ms rq l os :
  order_routes !! n = Some ms ->
  order_effect os (run_halt ms rq l os).1 /\ order_effect os (run_cps ms rq l os).1.
Proof.
  destruct n as [|[|[|[|[|n]]]]]; simpl; intros [= <-].
  - split; constructor.
  - apply order_create_route_effect.
  - destruct (read_route_state rq l os) as [-> ->]. split; constructor.
  - apply order_update_route_effect.
  - apply delete_route_effect.
Qed.

(** *** Consequences of the effect specification *)

Lemma order_effect_inv os os' : orders_inv os -> order_effect os os' -> orders_inv os'.
Proof.
  intros [Hu Hok] Heff. destruct Heff as [|no Hf Hno|i f o' Hi Hid Hst Hfo|i f Hi Hp].
  - by split.
  - split; [by apply unique_ids_push|]. unfold array_push. apply Forall_app. by split; [|constructor].
  - split; [by eapply unique_ids_insert|]. apply Forall_insert; [done|].
    unfold order_ok. rewrite Hfo, Hst. eapply Forall_lookup_1 in Hok; [|exact Hi].
    unfold order_ok in Hok. by apply andb_prop in Hok as [_ ->].
  - split; [by apply unique_ids_delete|]. by apply Forall_delete.
Qed.

Lemma order_effect_status os os' o o' :
  orders_inv os -> order_effect os os' -> o ∈ os -> o' ∈ os' -> order_id o' = order_id o ->
  status o' = status o.
Proof.
  intros [Hu _] Heff Ho Ho' Hid. destruct Heff as [|no Hf Hno|i f x Hi Hxid Hst Hfo|i f Hi Hp].
  - by rewrite (unique_ids_elem_eq os o' o Hu Ho' Ho Hid).
  - unfold array_push in Ho'. apply elem_of_app in Ho' as [Ho'|Ho'].
    + by rewrite (unique_ids_elem_eq os o' o Hu Ho' Ho Hid).
    + apply list_elem_of_singleton in Ho'. subst o'. exfalso. apply Hf. rewrite Hid. by apply (elem_of_ids os o).
  - apply elem_of_list_insert_inv in Ho' as [->|Ho'].
    + assert (Hf : f ∈ os) by (by eapply list_elem_of_lookup_2).
      rewrite Hst. assert (f = o) as -> by
        (apply (unique_ids_elem_eq os); [done|done|done|]; change (order_id f = order_id o); congruence).
      done.
    + by rewrite (unique_ids_elem_eq os o' o Hu Ho' Ho Hid).
  - apply list_elem_of_delete_inv in Ho'. by rewrite (unique_ids_elem_eq os o' o Hu Ho' Ho Hid).
Qed.

Lemma order_effect_removed os os' o :
  orders_inv os -> order_effect os os' -> o ∈ os -> order_id o ∉ ids os' -> is_pending o = true.
Proof.
  intros [Hu _] Heff Ho Hn. destruct Heff as [|no Hf Hno|i f x Hi Hxid Hst Hfo|i f Hi Hp].
  - exfalso. by apply Hn, elem_of_ids.
  - exfalso. apply Hn. rewrite ids_push. apply elem_of_app. left. by apply elem_of_ids.
  - exfalso. apply Hn. rewrite (@ids_insert_same order order_has_id os i x f Hi Hxid). by apply elem_of_ids.
  - assert (Hf : f ∈ os) by (by eapply list_elem_of_lookup_2).
    destruct (decide (order_id o = order_id f)) as [Heq|Hne].
    + by rewrite (unique_ids_elem_eq os o f Hu Ho Hf Heq).
    + exfalso. apply Hn, elem_of_ids. eapply elem_of_delete_ne; [exact Hi|exact Ho|congruence].
Qed.

(** C6: every order route, under either dispatcher, preserves the
    collection invariant: unique ids, and every stored order has a truthy
    deliverTo, mobileNumber and status and a non-empty dishes array whose
    quantities are integers [> 0]. *)
Theorem orders_inv_preserved n ms rq l os :
  order_routes !! n = Some ms -> orders_inv os ->
  orders_inv (run_halt ms rq l os).1 /\ orders_inv (run_cps ms rq l os).1.
Proof.
  intros Hms Hinv. destruct (order_route_effect n ms rq l os Hms) as [Eh Ec].
  split; eapply order_effect_inv; eauto.
Qed.


(** C39: An order disappears from the collection
    only when its status was "pending", under either dispatcher. *)
Theorem order_removed_only_if_pending n ms rq l os j o :
  order_routes !! n = Some ms -> orders_inv os -> os !! j = Some o ->
  (order_id o ∉ ids (run_halt ms rq l os).1 -> is_pending o = true) /\
  (order_id o ∉ ids (run_cps ms rq l os).1 -> is_pending o = true).
Proof.
  intros Hms Hinv Ho%list_elem_of_lookup_2. destruct (order_route_effect n ms rq l os Hms) as [Eh Ec].
  split; intros Hn; [exact (order_effect_removed _ _ o Hinv Eh Ho Hn)|
                     exact (order_effect_removed _ _ o Hinv Ec Ho Hn)].
Qed.

(** *** The two dispatchers *)

Lemma orders_single_acts :
  single_act orderExists /\ single_act read /\ single_act list_ /\ single_act create /\
  single_act validateDishQuantity /\ single_act validateStatusProperty /\ single_act update /\
  single_act validateOrderStatus /\ single_act destroy.
Proof.
  repeat split; [solve_single orderExists|solve_single read|solve_single list_|intros ? ? ?; unfold create; repeat case_match; by eexists|
    solve_single validateDishQuantity|solve_single validateStatusProperty|solve_single update|
    solve_single validateOrderStatus|solve_single destroy].
Qed.

(** The continuation and short-circuit dispatchers give the
    same run on every order route, except PUT with a body id that conflicts
    with the route's. *)
Theorem orders_dispatch_agree n ms rq l os :
  order_routes !! n = Some ms -> (n = 3%nat -> body_id_conflict rq = false) ->
  run_cps ms rq l os = run_halt ms rq l os.
Proof.
  destruct orders_single_acts as (Hoe & Hrd & Hls & Hcr & Hvq & Hvs & Hup & Hvo & Hds).
  destruct n as [|[|[|[|[|n]]]]]; simpl; intros [= <-] Hnc.
  - unfold exports_list. apply run_cps_halt_single.
    by repeat (apply List.Forall_cons || apply List.Forall_nil).
  - rewrite order_exports_create_rules. apply run_cps_halt_single.
    apply Forall_app. split; [apply Forall_rules_single|by repeat (apply List.Forall_cons || apply List.Forall_nil)].
  - unfold exports_read. apply run_cps_halt_single.
    by repeat (apply List.Forall_cons || apply List.Forall_nil).
  - specialize (Hnc eq_refl).
    destruct (find_by_id (req_param rq) os) as [[i f]|] eqn:Hf.
    2: { rewrite order_exports_update_rules. pose proof (orderExists_missing rq l os Hf).
         by erewrite run_halt_fail, run_cps_fail by eauto. }
    destruct (order_run_update_found rq l os i f Hf) as [-> ->].
    destruct (find_order_Some _ _ _ _ Hf) as [Hi Hid].
    rewrite run_halt_rules, run_cps_rules. unfold rules_outcome.
    destruct (check_rules (req_body rq) update_rules) as [[e|]|] eqn:Hc; try done.
    destruct (update_rules_reads rq Hc) as [Hbid _]. unfold update_tail.
    erewrite run_halt_next, run_cps_next by (exact (validateOrderId_pass rq i f os Hi Hid Hbid Hnc)).
    apply run_cps_halt_single. by repeat (apply List.Forall_cons || apply List.Forall_nil).
  - unfold exports_delete. apply run_cps_halt_single.
    by repeat (apply List.Forall_cons || apply List.Forall_nil).
Qed.

(** C34: like [validateDishId], [validateOrderId]
    calls [next()] after [next(err)]; when [next] continues the chain, a PUT
    whose body id conflicts with the route id is answered 400 and the order
    is still overwritten, with a second response, 200. *)
Theorem order_update_conflict_cps_overwrites rq l os i f id st :
  find_by_id (req_param rq) os = Some (i, f) ->
  check_rules (req_body rq) update_rules = Some None ->
  body_id rq = Some id -> truthy id = true -> strict_eq_str id (req_param rq) = false ->
  body_status rq = Some st -> updatable_status st = true -> body_dishes_ok (req_body rq) = true ->
  exists o',
    run_cps exports_update rq l os =
      (<[i:=o']> os, [EError (id_mismatch id (req_param rq)); EResp (RJson 200 (POrder o'))]) /\
    order_id o' = req_param rq /\ status o' = status f /\ order_update_from_body (req_body rq) o'.
Proof.
  intros Hf Hc Hb Ht Hs Hst Hup Hd.
  destruct (order_run_update_found rq l os i f Hf) as [_ ->].
  destruct (find_order_Some _ _ _ _ Hf) as [Hi Hid].
  destruct (order_rules_fields _ (update_rules_order_rules _ Hc))
    as (dt & mn & st' & ds & Hbt & Hbm & _ & Hbd & _ & _ & _ & Hu).
  rewrite run_cps_rules. unfold rules_outcome. rewrite Hc. unfold update_tail.
  erewrite run_cps_fail_next by (exact (validateOrderId_conflict rq i f os id Hi Hid Hb Ht Hs)).
  erewrite run_cps_next by (exact (validateStatusProperty_pass rq (Some i) os st Hst Hup)).
  erewrite run_cps_next by (exact (validateDishQuantity_pass rq (Some i) os Hd)).
  erewrite run_cps_send by (exact (update_found rq (Some i) os i f dt mn ds Hf Hu)).
  exists (mk_order (order_id f) dt mn (status f) ds). simpl.
  unfold order_update_from_body. simpl. by repeat split.
Qed.
(** ** What the routes emit, and when they write *)

Lemma check_quantities_status i ds e : check_quantities i ds = Some (inl e) -> err_status e = 400%Z.
Proof.
  revert i. induction ds as [|d ds IH]; intros i; simpl; [done|].
  repeat case_match; intros; simplify_eq/=; eauto.
Qed.

Lemma validateDishQuantity_acts : acts_ok client_error success_status validateDishQuantity.
Proof.
  intros rq l os. unfold validateDishQuantity, mw_next, mw_fail, mw_throw.
  repeat case_match; simplify_eq/=; repeat apply List.Forall_cons; try apply List.Forall_nil;
    unfold act_ok, client_error, no_dish_error, error_text; simpl; try lia.
  match goal with H : match _ with _ => _ end = Some (inl ?e) |- _ =>
    left; exact (check_quantities_status 0 (_ :: _) e H) end.
Qed.

Ltac order_unfold :=
  unfold list_, create, orderExists, bodyDataHas, update, read, validateOrderId,
    validateStatusProperty, validateOrderStatus, destroy, not_found_error, missing_error,
    id_mismatch, delivered_error, status_error, pending_error.

Lemma order_routes_acts n ms :
  order_routes !! n = Some ms -> Forall (acts_ok client_error success_status) ms.
Proof.
  destruct n as [|[|[|[|[|n]]]]]; simpl; intros [= <-]; repeat apply List.Forall_cons;
    try apply List.Forall_nil; first [apply validateDishQuantity_acts | solve_acts_by order_unfold].
Qed.

Lemma order_routes_clean n ms : order_routes !! n = Some ms -> Forall clean_fail ms.
Proof.
  destruct n as [|[|[|[|[|n]]]]]; simpl; intros [= <-]; repeat apply List.Forall_cons;
    try apply List.Forall_nil; solve_clean_by ltac:(order_unfold; unfold validateDishQuantity).
Qed.
(** ** The routes read the request only through [data] *)

Lemma order_fields_reads body :
  order_fields body =
    dt ← body_field body "deliverTo"; mn ← body_field body "mobileNumber";
    st ← body_field body "status"; ds ← body_field body "dishes"; Some (dt, mn, st, ds).
Proof. unfold order_fields, body_field. by destruct (data_default body). Qed.

Lemma update_fields_reads body :
  update_fields body =
    dt ← body_field body "deliverTo"; mn ← body_field body "mobileNumber";
    ds ← body_field body "dishes"; Some (dt, mn, ds).
Proof. unfold update_fields, body_field. by destruct (data_default body). Qed.

(** ** Every route meets the API *)

Definition err400 (e : http_error) : Prop := err_status e = 400%Z.

Lemma order_rules_400 body e : check_rules body update_rules = Some (Some e) \/
  check_rules body order_rules = Some (Some e) -> err400 e.
Proof. unfold err400. simpl. intros [Hr|Hr]; revert Hr; repeat case_match; intros ?; simplify_eq; done. Qed.

Lemma validateDishQuantity_cases rq l os :
  vcases validateDishQuantity rq l os err400 (body_dishes_ok (req_body rq) = true).
Proof.
  destruct (body_dishes_ok (req_body rq)) eqn:Hd; [left; split; [by apply validateDishQuantity_pass|done]|].
  unfold vcases, validateDishQuantity, mw_next, mw_fail, mw_throw, err400.
  unfold body_dishes_ok in Hd. destruct (body_field (req_body rq) "dishes") as [v|]; [|by right; right].
  unfold js_or. destruct (truthy v) eqn:Ht; [|right; left; eexists; split; [reflexivity|done]].
  destruct v as [| | | | |[|d ds]|]; try (right; left; eexists; split; [reflexivity|done]). simpl in Hd.
  destruct (check_quantities 0 (d :: ds)) as [[e|]|] eqn:Hc.
  - right; left. exists e. split; [done|exact (check_quantities_status _ _ _ Hc)].
  - by right; right.
  - apply check_quantities_None in Hc. simpl in Hc. congruence.
Qed.

Lemma validateStatusProperty_cases rq l os : vcases validateStatusProperty rq l os err400 True.
Proof. solve_vcases ltac:(unfold validateStatusProperty, err400). Qed.

Lemma order_create_api rq l os :
  exists os' o, run_halt exports_create rq l os = (os', [o]) /\ order_api 1 rq os os' o.
Proof.
  rewrite order_exports_create_rules, run_halt_rules. unfold rules_outcome.
  destruct (check_rules (req_body rq) order_rules) as [[e|]|] eqn:Hc.
  - eapply run_one; [reflexivity|]. apply oapi_invalid; [by left|apply (order_rules_400 (req_body rq)); by right].
  - apply (halt_vcases _ _ _ _ _ _ _ _ (validateDishQuantity_cases rq l os));
      [intros e He; apply oapi_invalid; [by left|done]|apply oapi_throw; by left|intros Hd].
    destruct (order_rules_fields _ Hc) as (dt & mn & st & ds & Hbt & Hbm & Hbs & Hbd & Tdt & Tmn & Hf & _).
    eapply run_one; [exact (proj1 (order_create_handler_run rq l os _ _ _ _ Hf))|].
    apply oapi_create; [done|apply next_id_fresh| |].
    + unfold order_ok, fields_ok. simpl. unfold body_dishes_ok in Hd. rewrite Hbd in Hd.
      by rewrite Tdt, Tmn, Hd, js_or_truthy_r.
    + unfold order_from_body. simpl. eauto 10.
  - eapply run_one; [reflexivity|]. apply oapi_throw; by left.
Qed.

Lemma order_read_api rq l os :
  exists os' o, run_halt exports_read rq l os = (os', [o]) /\ order_api 2 rq os os' o.
Proof.
  destruct (find_by_id (req_param rq) os) as [[i o]|] eqn:Hf.
  - eapply run_one; [exact (proj1 (order_read_found rq l os i o Hf))|]. by eapply oapi_read.
  - eapply run_one; [exact (proj1 (order_missing_run [read] rq l os Hf))|].
    apply oapi_not_found; [by left|done].
Qed.

Lemma order_delete_api rq l os :
  exists os' o, run_halt exports_delete rq l os = (os', [o]) /\ order_api 4 rq os os' o.
Proof.
  destruct (find_by_id (req_param rq) os) as [[i f]|] eqn:Hf.
  - destruct (delete_found_run rq l os i f Hf) as [-> _].
    destruct (is_pending f) eqn:Hp; (eapply run_one; [reflexivity|]);
      [by eapply oapi_delete|apply oapi_invalid; [by right; right|done]].
  - eapply run_one; [exact (proj1 (order_missing_run [validateOrderStatus; destroy] rq l os Hf))|].
    apply oapi_not_found; [by right; right|done].
Qed.

Lemma order_update_api rq l os :
  exists os' o, run_halt exports_update rq l os = (os', [o]) /\ order_api 3 rq os os' o.
Proof.
  destruct (find_by_id (req_param rq) os) as [[i f]|] eqn:Hf.
  2: { rewrite order_exports_update_rules. eapply run_one; [exact (proj1 (order_missing_run _ rq l os Hf))|].
       apply oapi_not_found; [by right; left|done]. }
  destruct (order_run_update_found rq l os i f Hf) as [-> _].
  destruct (find_order_Some _ _ _ _ Hf) as [Hi Hid].
  rewrite run_halt_rules. unfold rules_outcome.
  destruct (check_rules (req_body rq) update_rules) as [[e|]|] eqn:Hc.
  - eapply run_one; [reflexivity|]. apply oapi_invalid; [by right; left|apply (order_rules_400 (req_body rq)); by left].
  - destruct (update_rules_reads rq Hc) as [[id Hb] _]. unfold update_tail.
    destruct (body_id_conflict rq) eqn:Hnc.
    + unfold body_id_conflict in Hnc. rewrite Hb in Hnc.
      apply andb_true_iff in Hnc as [Ht Hs]. apply negb_true_iff in Hs.
      eapply run_one; [exact (run_halt_fail _ _ _ _ _ _ _ _ _ (validateOrderId_conflict rq i f os id Hi Hid Hb Ht Hs))|].
      apply oapi_invalid; [by right; left|done].
    + rewrite (run_halt_next _ _ _ _ _ _ _ _ (validateOrderId_pass rq i f os Hi Hid ltac:(by eexists) Hnc)).
      apply (halt_vcases _ _ _ _ _ _ _ _ (validateStatusProperty_cases rq (Some i) os));
        [intros e He; apply oapi_invalid; [by right; left|done]|apply oapi_throw; by right|intros _].
      apply (halt_vcases _ _ _ _ _ _ _ _ (validateDishQuantity_cases rq (Some i) os));
        [intros e He; apply oapi_invalid; [by right; left|done]|apply oapi_throw; by right|intros Hd].
      destruct (order_rules_fields _ (update_rules_order_rules _ Hc))
        as (dt & mn & st & ds & Hbt & Hbm & _ & Hbd & Tdt & Tmn & _ & Hu).
      eapply run_one; [exact (run_halt_send _ _ _ _ _ _ _ _ _ (update_found rq (Some i) os i f dt mn ds Hf Hu))|].
      eapply oapi_update; [done|exact Hf|done|done| |].
      * unfold fields_ok. simpl. unfold body_dishes_ok in Hd. rewrite Hbd in Hd. by rewrite Tdt, Tmn, Hd.
      * unfold order_update_from_body. simpl. by repeat split.
  - eapply run_one; [reflexivity|]. apply oapi_throw; by right.
Qed.

Lemma order_routes_halt_api n ms rq l os :
  order_routes !! n = Some ms -> exists os' o, run_halt ms rq l os = (os', [o]) /\ order_api n rq os os' o.
Proof.
  destruct n as [|[|[|[|[|n]]]]]; simpl; intros [= <-];
    [eapply run_one; [reflexivity|by constructor]
    |apply order_create_api|apply order_read_api|apply order_update_api|apply order_delete_api].
Qed.

Lemma order_routes_shape n ms : order_routes !! n = Some ms -> Forall express_shape ms.
Proof.
  destruct n as [|[|[|[|[|n]]]]]; simpl; intros [= <-]; repeat apply List.Forall_cons; try apply List.Forall_nil;
    solve_shape_by ltac:(unfold list_, create, orderExists, bodyDataHas, update, read, validateOrderId,
                           validateStatusProperty, validateOrderStatus, destroy, validateDishQuantity).
Qed.

(** C13: Express 4's dispatch of every order route implements the order
    API of spec sections 4.2 and 6: whatever the request and the
    collection, the first emission and the collection after the request
    are one of the outcomes [order_api] allows for that route (the list, a
    valid order with a fresh id appended and answered 201, the order
    found, the order found overwritten in place with the body's deliverTo,
    mobileNumber and dishes and its id and status kept, a pending order
    deleted and answered 204, a 404 for an absent id, a 400, or a thrown
    [TypeError]), and whatever follows the first emission writes
    nothing. *)
Theorem order_routes_express_api n ms rq l os :
  order_routes !! n = Some ms ->
  exists os' o tail, run_express ms rq l os = (os', o :: tail) /\ writes tail = 0%nat /\ order_api n rq os os' o.
Proof.
  intros Hn. apply express_of_halt; [exact (order_routes_shape n ms Hn)|exact (order_routes_halt_api n ms rq l os Hn)].
Qed.

End Proofs.

(** Prove [mw_proper m] for a function [m] of the controller. *)
Ltac order_proper :=
  solve_proper_by ltac:(unfold list_, create, orderExists, bodyDataHas, update, read, validateOrderId,
                               validateStatusProperty, validateOrderStatus, destroy, validateDishQuantity,
                               body_id, body_status; rewrite ?order_fields_reads, ?update_fields_reads).

(** ** Witnesses on concrete requests *)

Definition dish_entry (q : jsval) : jsval := JObj [("id", JStr "d1"); ("quantity", q)].

Definition order_data (st : jsval) (ds : jsval) : list (string * jsval) :=
  [("deliverTo", JStr "Rome"); ("mobileNumber", JStr "555"); ("status", st); ("dishes", ds)].

Definition post_order (st ds : jsval) : request := mk_request "" (JObj [("data", JObj (order_data st ds))]).

Definition put_o1 (id st ds : jsval) : request :=
  mk_request "o1" (JObj [("data", JObj (("id", id) :: order_data st ds))]).

Definition two : jsval := JNum (inject_Z 2).

Definition o1 (st : string) : order :=
  mk_order "o1" (JStr "Paris") (JStr "123") (JStr st) (JArr [dish_entry two]).

Lemma order_routes_express_api_witness :
  order_routes !! 3%nat = Some exports_update /\
  exists os' o tail,
    run_express exports_update (put_o1 (JStr "zz") (JStr "pending") (JArr [dish_entry two])) None [o1 "pending"] =
      (os', o :: tail) /\
    writes tail = 0%nat /\ order_api 3 (put_o1 (JStr "zz") (JStr "pending") (JArr [dish_entry two])) [o1 "pending"] os' o.
Proof.
  split; [reflexivity|]. exact (order_routes_express_api 3 exports_update _ None [o1 "pending"] eq_refl).
Defined.

Lemma order_create_valid_witness :
  check_rules (req_body (post_order JUndef (JArr [dish_entry two]))) order_rules = Some None /\
  body_dishes_ok (req_body (post_order JUndef (JArr [dish_entry two]))) = true /\
  exists no, run_halt exports_create (post_order JUndef (JArr [dish_entry two])) None [] =
               ([no], [EResp (RJson 201 (POrder no))]) /\ status no = JStr "pending".
Proof.
  split; [reflexivity|]. split; [reflexivity|].
  destruct (order_create_valid (post_order JUndef (JArr [dish_entry two])) None []
              ltac:(reflexivity) ltac:(reflexivity)) as (no & H & _ & _ & _ & _ & _ & _ & st & Hst & Hs).
  exists no. split; [exact H|]. rewrite Hs. simpl in Hst. injection Hst as <-. reflexivity.
Defined.

Lemma order_create_rejects_quantity_witness :
  quantity_ok (dish_entry (JNum 0)) = false /\
  run_halt exports_create (post_order JUndef (JArr [dish_entry two; dish_entry (JNum 0)])) None [] =
    ([], [EError (error_text 400 "Dish 1 must have a quantity that is an integer greater than 0")]).
Proof.
  split; [reflexivity|].
  exact (proj1 (order_create_rejects_quantity (post_order JUndef (JArr [dish_entry two; dish_entry (JNum 0)]))
                  None [] [dish_entry two] (dish_entry (JNum 0)) [] (JNum 0)
                  ltac:(reflexivity) ltac:(reflexivity) ltac:(reflexivity) ltac:(reflexivity)
                  ltac:(reflexivity))).
Defined.

Lemma order_create_rejects_no_dish_witness :
  nonempty_array (JArr []) = false /\
  run_halt exports_create (post_order JUndef (JArr [])) None [] = ([], [EError no_dish_error]).
Proof.
  split; [reflexivity|].
  exact (proj1 (order_create_rejects_no_dish (post_order JUndef (JArr [])) None [] (JArr [])
                  ltac:(reflexivity) ltac:(reflexivity) ltac:(reflexivity))).
Defined.

(** A delivered order is still updated by a PUT whose body says "pending";
    its status stays "delivered". *)
Lemma order_update_valid_witness :
  find_by_id "o1" [o1 "delivered"] = Some (0%nat, o1 "delivered") /\
  exists o', run_halt exports_update (put_o1 (JStr "o1") (JStr "pending") (JArr [dish_entry two]))
                      None [o1 "delivered"] = ([o'], [EResp (RJson 200 (POrder o'))]) /\
             status o' = JStr "delivered" /\ deliverTo o' = JStr "Rome".
Proof.
  split; [reflexivity|].
  destruct (order_update_valid (put_o1 (JStr "o1") (JStr "pending") (JArr [dish_entry two])) None
              [o1 "delivered"] 0 (o1 "delivered") (JStr "pending")
              ltac:(reflexivity) ltac:(reflexivity) ltac:(reflexivity) ltac:(reflexivity)
              ltac:(reflexivity) ltac:(reflexivity)) as (o' & H & _ & _ & Hst & _ & Hdt & _).
  exists o'. split; [exact H|]. split; [exact Hst|]. simpl in Hdt. by injection Hdt as <-.
Defined.

Lemma order_update_rejects_delivered_witness :
  body_status (put_o1 JUndef (JStr "delivered") (JArr [dish_entry two])) = Some (JStr "delivered") /\
  run_halt exports_update (put_o1 JUndef (JStr "delivered") (JArr [dish_entry two])) None [o1 "pending"] =
    ([o1 "pending"], [EError delivered_error]).
Proof.
  split; [reflexivity|].
  exact (proj1 (order_update_rejects_delivered (put_o1 JUndef (JStr "delivered") (JArr [dish_entry two]))
                  None [o1 "pending"] 0 (o1 "pending")
                  ltac:(reflexivity) ltac:(reflexivity) ltac:(reflexivity) ltac:(reflexivity))).
Defined.

Lemma order_delete_pending_witness :
  is_pending (o1 "pending") = true /\
  run_halt exports_delete (mk_request "o1" (JObj [])) None [o1 "pending"] = ([], [EResp (RStatus 204)]).
Proof.
  split; [reflexivity|].
  exact (proj1 (order_delete_pending (mk_request "o1" (JObj [])) None [o1 "pending"] 0 (o1 "pending")
                  ltac:(reflexivity) ltac:(reflexivity))).
Defined.

Lemma order_delete_not_pending_witness :
  is_pending (o1 "preparing") = false /\
  run_halt exports_delete (mk_request "o1" (JObj [])) None [o1 "preparing"] =
    ([o1 "preparing"], [EError pending_error]).
Proof.
  split; [reflexivity|].
  exact (proj1 (order_delete_not_pending (mk_request "o1" (JObj [])) None [o1 "preparing"] 0
                  (o1 "preparing") ltac:(reflexivity) ltac:(reflexivity))).
Defined.

Lemma order_delete_then_read_witness :
  unique_ids [o1 "pending"] /\
  run_halt exports_read (mk_request "o1" (JObj [])) None
    (run_halt exports_delete (mk_request "o1" (JObj [])) None [o1 "pending"]).1 =
    ((run_halt exports_delete (mk_request "o1" (JObj [])) None [o1 "pending"]).1,
     [EError (not_found_error "o1")]).
Proof.
  split; [apply NoDup_singleton|].
  exact (order_delete_then_read (mk_request "o1" (JObj [])) (mk_request "o1" (JObj [])) None None
           [o1 "pending"] 0 (o1 "pending") (NoDup_singleton _) ltac:(reflexivity) ltac:(reflexivity)
           ltac:(reflexivity)).
Defined.

Lemma orders_inv_o1 st : st <> "" -> orders_inv [o1 st].
Proof.
  intros Hst. split; [apply NoDup_singleton|]. constructor; [|constructor].
  unfold order_ok. simpl. destruct (String.eqb st "") eqn:E; [|done].
  by apply String.eqb_eq in E.
Qed.

Lemma orders_inv_preserved_witness :
  order_routes !! 3%nat = Some exports_update /\
  orders_inv (run_cps exports_update (put_o1 (JStr "zz") (JStr "pending") (JArr [dish_entry two]))
                None [o1 "pending"]).1.
Proof.
  split; [reflexivity|].
  exact (proj2 (orders_inv_preserved 3 exports_update (put_o1 (JStr "zz") (JStr "pending")
                  (JArr [dish_entry two])) None [o1 "pending"] ltac:(reflexivity)
                  (orders_inv_o1 "pending" ltac:(discriminate)))).
Defined.


Lemma order_removed_only_if_pending_witness :
  [o1 "pending"] !! 0%nat = Some (o1 "pending") /\
  (order_id (o1 "pending") ∉ ids (run_halt exports_delete (mk_request "o1" (JObj [])) None [o1 "pending"]).1 ->
   is_pending (o1 "pending") = true).
Proof.
  split; [reflexivity|].
  exact (proj1 (order_removed_only_if_pending 4 exports_delete (mk_request "o1" (JObj [])) None
                  [o1 "pending"] 0 (o1 "pending") ltac:(reflexivity)
                  (orders_inv_o1 "pending" ltac:(discriminate)) ltac:(reflexivity))).
Defined.

Lemma orders_dispatch_agree_witness :
  body_id_conflict (put_o1 (JStr "o1") (JStr "pending") (JArr [dish_entry two])) = false /\
  run_cps exports_update (put_o1 (JStr "o1") (JStr "pending") (JArr [dish_entry two])) None [o1 "pending"] =
  run_halt exports_update (put_o1 (JStr "o1") (JStr "pending") (JArr [dish_entry two])) None [o1 "pending"].
Proof.
  split; [reflexivity|].
  exact (orders_dispatch_agree 3 exports_update (put_o1 (JStr "o1") (JStr "pending") (JArr [dish_entry two]))
           None [o1 "pending"] ltac:(reflexivity) (fun _ => eq_refl)).
Defined.

Lemma order_update_conflict_cps_overwrites_witness :
  body_id (put_o1 (JStr "zz") (JStr "pending") (JArr [dish_entry two])) = Some (JStr "zz") /\
  exists o', run_cps exports_update (put_o1 (JStr "zz") (JStr "pending") (JArr [dish_entry two])) None
               [o1 "pending"] =
             ([o'], [EError (id_mismatch (JStr "zz") "o1"); EResp (RJson 200 (POrder o'))]).
Proof.
  split; [reflexivity|].
  destruct (order_update_conflict_cps_overwrites (put_o1 (JStr "zz") (JStr "pending") (JArr [dish_entry two]))
              None [o1 "pending"] 0 (o1 "pending") (JStr "zz") (JStr "pending")
              ltac:(reflexivity) ltac:(reflexivity) ltac:(reflexivity) ltac:(reflexivity)
              ltac:(reflexivity) ltac:(reflexivity) ltac:(reflexivity) ltac:(reflexivity)) as (o' & H & _).
  exists o'. exact H.
Defined.


Lemma order_update_then_read_witness :
  find_by_id "o1" [o1 "preparing"] = Some (0%nat, o1 "preparing") /\
  exists o', run_cps exports_read (mk_request "o1" (JObj [])) None [o']
               = ([o'], [EResp (RJson 200 (POrder o'))]) /\
             status o' = JStr "preparing".
Proof.
  split; [reflexivity|].
  destruct (order_update_then_read (put_o1 (JStr "o1") (JStr "pending") (JArr [dish_entry two]))
              (mk_request "o1" (JObj [])) None None [o1 "preparing"] 0 (o1 "preparing") (JStr "pending")
              ltac:(reflexivity) ltac:(reflexivity) ltac:(reflexivity) ltac:(reflexivity)
              ltac:(reflexivity) ltac:(reflexivity) ltac:(reflexivity)) as (o' & _ & _ & _ & H & Hst).
  exists o'. split; [exact H|exact Hst].
Defined.

End Orders.
