(* ===== verification/Render.v ===== *)
(** * Render: the bodies [res.json] writes, and their JSON shape

    A handler answers with [res.json({ data: x })] or
    [res.status(201).json({ data: x })], [destroy] with
    [res.sendStatus(204)], and the application's error handler with
    [res.status(status).json({ error: message })].  [wire_of] is what the
    client receives for one emission: the status and the value it reads
    back from the JSON text ([stringify] of Json.v).  The records are the
    objects the code builds: [dish_json] is [newDish] of [create] (an
    [update] overwrites the four fields of that object in place, keeping
    its keys and their order), [order_json] is [newOrder].

    A small schema language ([jtype], [has_type]) states the shape of the
    bodies: [dish_type] and [order_type] are the records as the code
    validates them (the spec's section 3 types are stricter: see the
    findings), and [dish_route_type]/[order_route_type] the body each route
    of spec section 6 answers with.  A record satisfies [dish_wire] or
    [order_wire] when its JSON form holds no [undefined]; since request
    bodies come from [JSON.parse] ([is_json]), every route keeps the
    collections so, and every response a route writes has its route's
    type ([dish_api_typed], [order_api_typed], lifted to the application
    by [App.app_response_types]).

    The section [RoundTrip] reads a record back: a client that GETs a
    stored record and PUTs the [data] it received gets the same record
    and leaves the collection unchanged ([dish_get_put_roundtrip]); for
    an order this holds while its status is one an update accepts, and a
    delivered order's own data is refused with 400
    ([order_get_put_roundtrip]).  [dish_name_not_string] evaluates a POST
    whose [name] is a number: the code accepts and stores it. *)

From S2P Require Import Prelude Json Middleware Express Store Dishes Orders.
From Stdlib Require Import QArith_base.

Module Render.

#[local] Existing Instances Dishes.dish_has_id Orders.order_has_id.

(** ** The records as JSON *)

(** [const newDish = { id: nextId(), name, description, price, image_url }] *)
Definition dish_json (d : Dishes.dish) : jsval :=
  JObj [("id", JStr (Dishes.dish_id d)); ("name", Dishes.name d); ("description", Dishes.description d);
        ("price", Dishes.price d); ("image_url", Dishes.image_url d)].

(** [const newOrder = { id: nextId(), deliverTo, mobileNumber, status, dishes }] *)
Definition order_json (o : Orders.order) : jsval :=
  JObj [("id", JStr (Orders.order_id o)); ("deliverTo", Orders.deliverTo o);
        ("mobileNumber", Orders.mobileNumber o); ("status", Orders.status o); ("dishes", Orders.dishes o)].

(** The [data] of [res.json({ data })]: a record, the whole array, or
    [res.locals.dish] when it was never set. *)
Definition dish_payload_json (p : Dishes.payload) : jsval :=
  match p with
  | Dishes.PDish d => dish_json d
  | Dishes.PDishes ds => JArr (map dish_json ds)
  | Dishes.PUndef => JUndef
  end.

Definition order_payload_json (p : Orders.payload) : jsval :=
  match p with
  | Orders.POrder o => order_json o
  | Orders.POrders os => JArr (map order_json os)
  | Orders.PUndef => JUndef
  end.

(** ** What the client receives *)

Inductive wire : Type :=
| WBody (status : Z) (body : option jsval)  (** [res.status(s).json({ data })], [res.sendStatus(s)] *)
| WError (status : Z) (msg : message)       (** [res.status(status).json({ error: message })] *)
| WServerError                              (** a thrown [TypeError]: 500 *)
| WNothing.                                 (** [next()] past the route: nothing once a response was sent *)

Definition wire_of {P} (pj : P -> jsval) (o : emit P) : wire :=
  match o with
  | EResp (RJson st p) => WBody st (stringify (JObj [("data", pj p)]))
  | EResp (RStatus st) => WBody st None
  | EError e => WError (err_status e) (err_message e)
  | EThrow => WServerError
  | EFallThrough => WNothing
  end.

(** ** Shapes of JSON values *)

Inductive jtype : Type :=
| TString                                  (** a string *)
| TTruthy                                  (** a truthy JSON value *)
| TPosInt                                  (** a number equal to an integer [> 0] *)
| TArr (t : jtype)                         (** an array of [t] *)
| TNonEmptyArr (t : jtype)                 (** a non-empty array of [t] *)
| TObj (fs : list (string * jtype))        (** an object with exactly these keys, in this order *)
| THas (k : string) (t : jtype).           (** an object whose [k] is a [t] *)

Fixpoint has_type (t : jtype) (v : jsval) : bool :=
  match t with
  | TString => match v with JStr _ => true | _ => false end
  | TTruthy => truthy v && is_json v
  | TPosInt => is_integer v && num_gt0 v
  | TArr t => match v with JArr xs => forallb (has_type t) xs | _ => false end
  | TNonEmptyArr t => match v with JArr ((_ :: _) as xs) => forallb (has_type t) xs | _ => false end
  | TObj fs =>
      match v with
      | JObj kvs =>
          bool_decide (kvs.*1 = fs.*1) &&
          (fix go (fs : list (string * jtype)) :=
             match fs with [] => true | (k, t) :: r => has_type t (obj_lookup kvs k) && go r end) fs
      | _ => false
      end
  | THas k t => match v with JObj kvs => has_type t (obj_lookup kvs k) | _ => false end
  end.

Definition dish_type : jtype :=
  TObj [("id", TString); ("name", TTruthy); ("description", TTruthy); ("price", TPosInt); ("image_url", TTruthy)].

Definition order_type : jtype :=
  TObj [("id", TString); ("deliverTo", TTruthy); ("mobileNumber", TTruthy); ("status", TTruthy);
        ("dishes", TNonEmptyArr (THas "quantity" TPosInt))].

Definition data_type (t : jtype) : jtype := TObj [("data", t)].

(** The body of each route of spec section 6, by its index in
    [dish_routes]/[order_routes]: [{ data: [Dish] }], [{ data: Dish }], or
    none (the 204 of DELETE). *)
Definition dish_route_type (n : nat) : option jtype :=
  match n with 0%nat => Some (data_type (TArr dish_type)) | _ => Some (data_type dish_type) end.

Definition order_route_type (n : nat) : option jtype :=
  match n with
  | 0%nat => Some (data_type (TArr order_type))
  | 4%nat => None
  | _ => Some (data_type order_type)
  end.

(** A successful response carries the route's body; errors are
    [{ error: message }] by construction. *)
Definition wire_typed (t : option jtype) (w : wire) : bool :=
  match w, t with
  | WBody _ (Some v), Some t => has_type t v
  | WBody _ None, None => true
  | WBody _ _, _ => false
  | _, _ => true
  end.

(** A record whose JSON form holds no [undefined]. *)
Definition dish_wire (d : Dishes.dish) : bool := is_json (dish_json d).
Definition order_wire (o : Orders.order) : bool := is_json (order_json o).

(** ** Typing lemmas *)

Ltac bool_hyps := repeat match goal with H : _ && _ = true |- _ => apply andb_true_iff in H as [? ?] end.
Ltac bool_goal := repeat (apply andb_true_iff; split).
(** Rewrite the goal with every hypothesis [b = true]. *)
Ltac rewrite_true := repeat match goal with Hx : ?b = true |- context [?b] => rewrite Hx end.

Lemma data_typed st t v :
  is_json v = true -> has_type t v = true -> wire_typed (Some (data_type t)) (WBody st (stringify (JObj [("data", v)]))) = true.
Proof.
  intros Hj Ht. rewrite stringify_json by (simpl; by rewrite Hj). simpl.
  unfold obj_lookup. simpl. by rewrite Ht.
Qed.

Lemma dish_typed d : Dishes.dish_ok d = true -> dish_wire d = true -> has_type dish_type (dish_json d) = true.
Proof.
  unfold Dishes.dish_ok, Dishes.price_ok, dish_wire. intros Hok Hw. unfold obj_lookup. simpl in *. bool_hyps.
  bool_goal; done.
Qed.

Lemma dishes_typed ds :
  Forall (fun d => Dishes.dish_ok d = true) ds -> Forall (fun d => dish_wire d = true) ds ->
  is_json (JArr (map dish_json ds)) = true /\ has_type (TArr dish_type) (JArr (map dish_json ds)) = true.
Proof.
  intros Hok Hw. rewrite is_json_arr, Forall_fmap. split; [exact Hw|]. simpl.
  apply forallb_forall. intros x (d & <- & Hd)%in_map_iff.
  apply dish_typed; [exact (proj1 (Forall_forall _ _) Hok d Hd)|exact (proj1 (Forall_forall _ _) Hw d Hd)].
Qed.

(** A field a JSON body supplies and a validator found truthy is JSON. *)
Lemma dish_from_body_wire body d :
  is_json body = true -> Dishes.dish_from_body body d -> Dishes.dish_ok d = true -> dish_wire d = true.
Proof.
  intros Hb (Hn & Hde & Hp & Hi) Hok. unfold Dishes.dish_ok, Dishes.price_ok, dish_wire in *. bool_hyps. simpl.
  rewrite (truthy_json_field _ _ _ Hb Hn), (truthy_json_field _ _ _ Hb Hde), (truthy_json_field _ _ _ Hb Hi) by done.
  destruct (body_field_json _ _ _ Hb Hp) as [Hu| Hj]; [by rewrite Hu in *|by rewrite Hj].
Qed.

(** Every outcome the dish API allows, from a collection of valid
    JSON-representable dishes and a JSON body, answers with its route's
    body and leaves such a collection. *)
Lemma dish_api_typed n rq ds ds' o :
  is_json (req_body rq) = true -> Dishes.dishes_inv ds -> Forall (fun d => dish_wire d = true) ds ->
  Dishes.dish_api n rq ds ds' o ->
  wire_typed (dish_route_type n) (wire_of dish_payload_json o) = true /\ Forall (fun d => dish_wire d = true) ds'.
Proof.
  intros Hb [_ Hok] Hw Ha. destruct Ha as [->|nd -> Hfr Hok' Hfb|i d -> Hf|i f d' -> Hf Hid Hok' Hfb|_ _|e _ _|_]; cbn [wire_of dish_route_type dish_payload_json]; try by split.
  - destruct (dishes_typed ds Hok Hw). split; [by apply data_typed|done].
  - pose proof (dish_from_body_wire _ nd Hb Hfb Hok') as Hnd.
    split; [apply data_typed; [done|by apply dish_typed]|].
    unfold array_push. apply Forall_app. by split; [|constructor].
  - destruct (find_by_id_Some _ _ _ _ Hf) as [Hi _].
    pose proof (Forall_lookup_1 _ _ _ _ Hok Hi) as Hd. pose proof (Forall_lookup_1 _ _ _ _ Hw Hi) as Hdw.
    split; [apply data_typed; [done|by apply dish_typed]|done].
  - pose proof (dish_from_body_wire _ d' Hb Hfb Hok') as Hd'.
    split; [apply data_typed; [done|by apply dish_typed]|by apply Forall_insert].
Qed.

Lemma quantity_ok_type x : Orders.quantity_ok x = true -> has_type (THas "quantity" TPosInt) x = true.
Proof. unfold Orders.quantity_ok. by destruct x. Qed.

Lemma dishes_ok_type v : Orders.dishes_ok v = true -> has_type (TNonEmptyArr (THas "quantity" TPosInt)) v = true.
Proof.
  destruct v as [| | | | |[|x xs]|]; try done. intros Hq.
  change (forallb (has_type (THas "quantity" TPosInt)) (x :: xs) = true). apply forallb_forall. intros y Hy. apply quantity_ok_type. exact (proj1 (forallb_forall _ _) Hq y Hy).
Qed.

Lemma order_typed o : Orders.order_ok o = true -> order_wire o = true -> has_type order_type (order_json o) = true.
Proof.
  unfold Orders.order_ok, Orders.fields_ok, order_wire. intros Hok Hw. unfold obj_lookup. simpl in *. bool_hyps.
  bool_goal; try done. by apply dishes_ok_type.
Qed.

Lemma orders_typed os :
  Forall (fun o => Orders.order_ok o = true) os -> Forall (fun o => order_wire o = true) os ->
  is_json (JArr (map order_json os)) = true /\ has_type (TArr order_type) (JArr (map order_json os)) = true.
Proof.
  intros Hok Hw. rewrite is_json_arr, Forall_fmap. split; [exact Hw|]. simpl.
  apply forallb_forall. intros x (o & <- & Ho)%in_map_iff.
  apply order_typed; [exact (proj1 (Forall_forall _ _) Hok o Ho)|exact (proj1 (Forall_forall _ _) Hw o Ho)].
Qed.

Lemma order_from_body_wire body o :
  is_json body = true -> Orders.order_from_body body o -> Orders.order_ok o = true -> order_wire o = true.
Proof.
  intros Hb (Ht & Hm & Hd & st & Hst & Hs) Hok. unfold Orders.order_ok, Orders.fields_ok, order_wire in *. bool_hyps.
  assert (Hds : truthy (Orders.dishes o) = true) by (destruct (Orders.dishes o) as [| | | | |[]|]; done).
  simpl. rewrite (truthy_json_field _ _ _ Hb Ht), (truthy_json_field _ _ _ Hb Hm), (truthy_json_field _ _ _ Hb Hd) by done.
  rewrite Hs. unfold js_or. destruct (truthy st) eqn:Hts; [rewrite (truthy_json_field _ _ _ Hb Hst) by done|]; done.
Qed.

Lemma order_update_wire body f o' :
  is_json body = true -> Orders.order_update_from_body body o' -> Orders.fields_ok o' = true ->
  Orders.status o' = Orders.status f -> order_wire f = true -> order_wire o' = true.
Proof.
  intros Hb (Ht & Hm & Hd) Hok Hs Hf. unfold Orders.fields_ok, order_wire in *. simpl in *. bool_hyps.
  assert (Hds : truthy (Orders.dishes o') = true) by (destruct (Orders.dishes o') as [| | | | |[]|]; done).
  rewrite (truthy_json_field _ _ _ Hb Ht), (truthy_json_field _ _ _ Hb Hm), (truthy_json_field _ _ _ Hb Hd) by done.
  rewrite Hs. bool_goal; done.
Qed.

Lemma order_api_typed n rq os os' o :
  is_json (req_body rq) = true -> Orders.orders_inv os -> Forall (fun o => order_wire o = true) os ->
  Orders.order_api n rq os os' o ->
  wire_typed (order_route_type n) (wire_of order_payload_json o) = true /\ Forall (fun o => order_wire o = true) os'.
Proof.
  intros Hb [_ Hok] Hw Ha.
  destruct Ha as [->|no -> Hfr Hok' Hfb|i x -> Hf|i f o' -> Hf Hid Hst Hfo Hfb|i f -> Hf Hp|_ _|e _ _|_]; cbn [wire_of order_route_type order_payload_json];
    try by split.
  - destruct (orders_typed os Hok Hw). split; [by apply data_typed|done].
  - pose proof (order_from_body_wire _ no Hb Hfb Hok') as Hno.
    split; [apply data_typed; [done|by apply order_typed]|].
    unfold array_push. apply Forall_app. by split; [|constructor].
  - destruct (find_by_id_Some _ _ _ _ Hf) as [Hi _].
    pose proof (Forall_lookup_1 _ _ _ _ Hok Hi). pose proof (Forall_lookup_1 _ _ _ _ Hw Hi).
    split; [apply data_typed; [done|by apply order_typed]|done].
  - destruct (find_by_id_Some _ _ _ _ Hf) as [Hi _].
    pose proof (Forall_lookup_1 _ _ _ _ Hok Hi) as Hfok. pose proof (Forall_lookup_1 _ _ _ _ Hw Hi) as Hfw.
    pose proof (order_update_wire _ f o' Hb Hfb Hfo Hst Hfw) as Ho'.
    assert (Hok' : Orders.order_ok o' = true).
    { unfold Orders.order_ok in *. rewrite Hfo, Hst. simpl. by apply andb_true_iff in Hfok as [_ ->]. }
    split; [apply data_typed; [done|by apply order_typed]|by apply Forall_insert].
  - split; [done|by apply Forall_delete].
Qed.

(** What Express writes after a route's first emission is only
    fall-throughs, which render as nothing: the route's type covers the
    whole output once it covers the first emission. *)
Lemma wire_tail_typed {P} (pj : P -> jsval) t o tail :
  wire_typed t (wire_of pj o) = true -> writes tail = 0%nat ->
  Forall (fun w => wire_typed t w = true) (map (wire_of pj) (o :: tail)).
Proof.
  intros Ho Ht. pose proof (writes_0 tail Ht) as Hf. constructor; [done|].
  induction Hf as [|x l -> _ IH]; simpl; constructor; auto.
Qed.

(** ** Reading a record back: GET then PUT of the same data *)

Section RoundTrip.
Context `{!IdGen}.

(** The body a client sends back after a GET: [{ data: <the record> }]. *)
Definition own_body (v : jsval) : jsval := JObj [("data", v)].

Lemma dish_own_body_rules d : Dishes.dish_ok d = true -> check_rules (own_body (dish_json d)) Dishes.dish_rules = Some None.
Proof.
  unfold Dishes.dish_ok, Dishes.price_ok. intros Hok. bool_hyps.
  unfold own_body, check_rules, Dishes.dish_rules, body_field, data_default, get_prop, obj_lookup. simpl.
  unfold Dishes.price_ok. by rewrite_true.
Qed.

Lemma dish_own_body_id k d : Dishes.body_id (mk_request k (own_body (dish_json d))) = Some (JStr (Dishes.dish_id d)).
Proof. reflexivity. Qed.

Lemma strict_eq_str_refl k : strict_eq_str (JStr k) k = true.
Proof. apply String.eqb_refl. Qed.

(** The dish [update] builds from a dish's own JSON is that dish. *)
Lemma dish_from_own_body d d' :
  Dishes.dish_from_body (own_body (dish_json d)) d' -> Dishes.dish_id d' = Dishes.dish_id d -> d' = d.
Proof.
  destruct d as [k nm de pr im], d' as [k' nm' de' pr' im'].
  unfold Dishes.dish_from_body, own_body, body_field, data_default, get_prop, obj_lookup. simpl.
  intros ([= <-] & [= <-] & [= <-] & [= <-]) ->. done.
Qed.

(** C15: a client that reads a dish and writes the data it got back
    changes nothing: under Express 4, GET /dishes/:dishId answers 200
    with the first dish [d] with that id, and PUT /dishes/:dishId with the
    body [{ data: <that JSON> }] answers 200 with the same dish and leaves
    the collection as it was. *)
Theorem dish_get_put_roundtrip k b l l' ds i d :
  find_by_id k ds = Some (i, d) -> Dishes.dish_ok d = true ->
  run_express Dishes.exports_read (mk_request k b) l ds = (ds, [EResp (RJson 200 (Dishes.PDish d))]) /\
  run_express Dishes.exports_update (mk_request k (own_body (dish_payload_json (Dishes.PDish d)))) l' ds =
    (ds, [EResp (RJson 200 (Dishes.PDish d))]).
Proof.
  intros Hf Hok. destruct (find_by_id_Some _ _ _ _ Hf) as [Hi Hid]. split.
  - apply run_express_no_error; [exact (Dishes.dish_routes_shape 2 _ eq_refl)| |done].
    exact (proj1 (Dishes.read_found (mk_request k b) l ds i d Hf)).
  - cbn [dish_payload_json]. set (rq := mk_request k (own_body (dish_json d))).
    apply run_express_no_error; [exact (Dishes.dish_routes_shape 3 _ eq_refl)| |done].
    destruct (Dishes.run_update_found rq l' ds i d Hf) as [-> _].
    assert (Hnc : Dishes.body_id_conflict rq = false).
    { unfold Dishes.body_id_conflict, rq. rewrite dish_own_body_id. cbn [req_param].
      change (Dishes.dish_id d = k) in Hid. rewrite Hid, strict_eq_str_refl. apply andb_false_r. }
    erewrite run_halt_next by exact (Dishes.validateDishId_pass rq i d ds Hi Hid ltac:(by eexists) Hnc).
    destruct (Dishes.update_tail_valid rq i d ds Hi (dish_own_body_rules d Hok)) as (d' & -> & _ & Hid' & _ & Hb).
    rewrite (dish_from_own_body d d' Hb Hid'). by rewrite list_insert_id.
Qed.

Lemma order_own_body_rules o :
  Orders.order_ok o = true -> check_rules (own_body (order_json o)) Orders.update_rules = Some None.
Proof.
  unfold Orders.order_ok, Orders.fields_ok. intros Hok. bool_hyps.
  assert (Hds : truthy (Orders.dishes o) = true) by (destruct (Orders.dishes o) as [| | | | |[]|]; done).
  unfold own_body, check_rules, Orders.update_rules, Orders.order_rules, Orders.has,
    body_field, data_default, get_prop, obj_lookup. simpl. by rewrite_true.
Qed.

(** PUT /orders/:orderId with an order's own JSON passes the presence
    checks and [validateOrderId], in both readings of the chain. *)
Lemma order_put_own_prefix k l os i o :
  find_by_id k os = Some (i, o) -> Orders.order_ok o = true ->
  let rq := mk_request k (own_body (order_json o)) in
  let rest := [Orders.validateStatusProperty; Orders.validateDishQuantity; Orders.update] in
  run_halt Orders.exports_update rq l os = run_halt rest rq (Some i) os /\
  single_path Orders.exports_update rq l os = single_path rest rq (Some i) os.
Proof.
  intros Hf Hok rq rest. destruct (find_by_id_Some _ _ _ _ Hf) as [Hi Hid]. change (Orders.order_id o = k) in Hid.
  assert (Hc : check_rules (req_body rq) Orders.update_rules = Some None) by exact (order_own_body_rules o Hok).
  assert (Hnc : Orders.body_id_conflict rq = false).
  { unfold Orders.body_id_conflict. change (Orders.body_id rq) with (Some (JStr (Orders.order_id o))).
    cbn [req_param rq]. rewrite Hid, strict_eq_str_refl. apply andb_false_r. }
  pose proof (Orders.validateOrderId_pass rq i o os Hi Hid ltac:(by eexists) Hnc) as Hv.
  destruct (Orders.order_run_update_found rq l os i o Hf) as [-> _]. split.
  - rewrite run_halt_rules. unfold rules_outcome. rewrite Hc. unfold Orders.update_tail.
    by erewrite run_halt_next by exact Hv.
  - rewrite Orders.order_exports_update_rules.
    rewrite (single_path_next _ _ _ _ _ _ _ (Orders.orderExists_found rq l os i o Hf)).
    rewrite single_path_rules by exact Hc. exact (single_path_next _ _ _ _ _ _ _ Hv).
Qed.

(** C16: a client that reads an order and writes the data it got back:
    under Express 4, GET /orders/:orderId answers 200 with the first
    order [o] with that id; PUT /orders/:orderId with [{ data: <that
    JSON> }] answers 200 with the same order and changes nothing when its
    status is pending, preparing or out-for-delivery, and is rejected with
    400 "A delivered order cannot be changed" when it is delivered. *)
Theorem order_get_put_roundtrip k b l l' os i o :
  find_by_id k os = Some (i, o) -> Orders.order_ok o = true ->
  run_express Orders.exports_read (mk_request k b) l os = (os, [EResp (RJson 200 (Orders.POrder o))]) /\
  (Orders.updatable_status (Orders.status o) = true ->
   run_express Orders.exports_update (mk_request k (own_body (order_payload_json (Orders.POrder o)))) l' os =
     (os, [EResp (RJson 200 (Orders.POrder o))])) /\
  (Orders.status o = JStr "delivered" ->
   run_express Orders.exports_update (mk_request k (own_body (order_payload_json (Orders.POrder o)))) l' os =
     (os, [EError Orders.delivered_error])).
Proof.
  intros Hf Hok. destruct (find_by_id_Some _ _ _ _ Hf) as [Hi _]. cbn [order_payload_json].
  destruct (order_put_own_prefix k l' os i o Hf Hok) as [Hh Hs].
  set (rq := mk_request k (own_body (order_json o))) in *.
  pose proof (Orders.order_routes_shape 3 _ eq_refl) as Hshape.
  assert (Hbs : Orders.body_status rq = Some (Orders.status o)) by reflexivity.
  split; [|split].
  - apply run_express_no_error; [exact (Orders.order_routes_shape 2 _ eq_refl)| |done].
    exact (proj1 (Orders.order_read_found (mk_request k b) l os i o Hf)).
  - intros Hup. apply run_express_no_error; [exact Hshape| |done]. rewrite Hh.
    assert (Hdq : Orders.dishes_ok (Orders.dishes o) = true)
      by (unfold Orders.order_ok, Orders.fields_ok in Hok; bool_hyps; done).
    erewrite run_halt_next by exact (Orders.validateStatusProperty_pass rq (Some i) os _ Hbs Hup).
    erewrite run_halt_next by (apply Orders.validateDishQuantity_pass; exact Hdq).
    erewrite run_halt_send by exact (Orders.update_found rq (Some i) os i o _ _ _ Hf eq_refl).
    destruct o. by rewrite list_insert_id.
  - intros Hdel. pose proof (Orders.validateStatusProperty_delivered rq (Some i) os) as Hv.
    rewrite Hbs, Hdel in Hv. specialize (Hv eq_refl).
    rewrite run_express_single; [|exact Hshape|rewrite Hs; exact (single_path_stop _ _ _ _ _ _ _ _ Hv ltac:(done))].
    rewrite Hh. exact (run_halt_fail _ _ _ _ _ _ _ _ _ Hv).
Qed.

End RoundTrip.

Lemma dish_get_put_roundtrip_witness :
  find_by_id "d1" [Dishes.taco_dish] = Some (0%nat, Dishes.taco_dish) /\ Dishes.dish_ok Dishes.taco_dish = true /\
  run_express Dishes.exports_read (mk_request "d1" (JObj [])) None [Dishes.taco_dish] =
    ([Dishes.taco_dish], [EResp (RJson 200 (Dishes.PDish Dishes.taco_dish))]) /\
  run_express Dishes.exports_update (mk_request "d1" (own_body (dish_payload_json (Dishes.PDish Dishes.taco_dish))))
    None [Dishes.taco_dish] = ([Dishes.taco_dish], [EResp (RJson 200 (Dishes.PDish Dishes.taco_dish))]).
Proof.
  split; [reflexivity|]. split; [reflexivity|].
  exact (dish_get_put_roundtrip "d1" (JObj []) None None [Dishes.taco_dish] 0 Dishes.taco_dish eq_refl eq_refl).
Defined.

Lemma order_get_put_roundtrip_witness :
  find_by_id "o1" [Orders.o1 "delivered"] = Some (0%nat, Orders.o1 "delivered") /\
  Orders.order_ok (Orders.o1 "delivered") = true /\
  run_express Orders.exports_read (mk_request "o1" (JObj [])) None [Orders.o1 "delivered"] =
    ([Orders.o1 "delivered"], [EResp (RJson 200 (Orders.POrder (Orders.o1 "delivered")))]) /\
  (Orders.updatable_status (Orders.status (Orders.o1 "delivered")) = true ->
   run_express Orders.exports_update
     (mk_request "o1" (own_body (order_payload_json (Orders.POrder (Orders.o1 "delivered"))))) None
     [Orders.o1 "delivered"] = ([Orders.o1 "delivered"], [EResp (RJson 200 (Orders.POrder (Orders.o1 "delivered")))])) /\
  (Orders.status (Orders.o1 "delivered") = JStr "delivered" ->
   run_express Orders.exports_update
     (mk_request "o1" (own_body (order_payload_json (Orders.POrder (Orders.o1 "delivered"))))) None
     [Orders.o1 "delivered"] = ([Orders.o1 "delivered"], [EError Orders.delivered_error])).
Proof.
  split; [reflexivity|]. split; [reflexivity|].
  exact (order_get_put_roundtrip "o1" (JObj []) None None [Orders.o1 "delivered"] 0 (Orders.o1 "delivered")
           eq_refl eq_refl).
Defined.

(** The validators check [name], [description] and [image_url] for
    truthiness only: a POST /dishes whose [name] is the number 42 creates
    a dish whose [name] is not a string, and answers 201 with it. *)
Definition numeric_name_request : request :=
  mk_request "" (JObj [("data", JObj [("name", JNum (inject_Z 42)); ("description", JStr "Spicy");
                                      ("price", JNum (inject_Z 8)); ("image_url", JStr "x")])]).

Lemma dish_name_not_string :
  exists nd, run_express Dishes.exports_create numeric_name_request None [] = ([nd], [EResp (RJson 201 (Dishes.PDish nd))]) /\
             has_type TString (Dishes.name nd) = false /\ has_type dish_type (dish_json nd) = true.
Proof.
  exists (Dishes.mk_dish (next_id []) (JNum (inject_Z 42)) (JStr "Spicy") (JNum (inject_Z 8)) (JStr "x")).
  split; [vm_compute; reflexivity|split; reflexivity].
Qed.


End Render.
