(* ===== verification/App.v ===== *)
(** * App: the two resource managers behind one router

    The application mounts [dishes.router] on [/dishes] and [orders.router]
    on [/orders]; each router maps a method on [/] or [/:id] to one of the
    controller's exported chains (spec section 6).  The routers and [app.js]
    are not under [src/]: [route] is modelled from the spec's table.  A
    method the table does not list is not routed ([NoRoute]): the app's
    fallback handlers are outside the model.

    The application state is the pair of module-level arrays, [dishes] and
    [orders]; each request gets a fresh [res.locals] ([None]).  [handle]
    runs one request under a chosen dispatcher: [Express], the route
    dispatch of Express 4 the application runs on ([run_express] of
    Express.v), or one of the two readings of the spec, [Cps] (spec
    section 4.1) and [Halt] (spec section 9); [app_step] is the step
    relation of the server (one request at a time, spec section 5), and
    [run_trace] runs a sequence of requests, in order.  The theorems are
    about every state reachable from one that satisfies the invariants,
    about what a client observes ([client_status], [answered_alike], the
    number of responses written [out_writes]), about how the dispatchers
    compare ([app_express_refines_halt]: Express 4 gives the states and
    answers of [Halt] on every trace), and about requests
    equivalent up to the writing of their [data] ([app_req_equiv], with
    the [Proper] instance [handle_proper]).  [out_wires] renders a
    request's emissions as the client reads them (Render.v) and
    [route_type] is the body type spec section 6 gives each route
    ([app_response_types]). *)

From S2P Require Import Prelude Json Middleware Express Store Dishes Orders Render.
From stdpp Require Import relations.

Module App.
Import Dishes.Dishes Orders.Orders.

(** ** Requests and routes *)

Inductive method : Type := GET | POST | PUT | DELETE.

(** The paths the two routers serve: [/dishes], [/dishes/:dishId],
    [/orders], [/orders/:orderId]. *)
Inductive path : Type :=
| PathDishes
| PathDish (dishId : string)
| PathOrders
| PathOrder (orderId : string).

Record app_request : Type := mk_app_request {
  rq_method : method;
  rq_path : path;
  rq_body : jsval
}.

Record app_state : Type := mk_state {
  st_dishes : list dish;
  st_orders : list order
}.

(** How a route's functions are run: the continuation reading of spec
    section 4.1 ([Cps], [run_cps]), the short-circuit pipeline of spec
    section 9 ([Halt], [run_halt]), or Express 4's [Route.prototype.dispatch]
    ([Express], [run_express]), the dispatch the application really has. *)
Inductive dispatcher : Type := Cps | Halt | Express.

Definition run_with {S L P} (d : dispatcher) : list (middleware S L P) -> request -> L -> S -> S * list (emit P) :=
  match d with Cps => run_cps | Halt => run_halt | Express => run_express end.

(** What the client of one request observes. *)
Inductive app_out : Type :=
| ODish (out : list (emit Dishes.payload))
| OOrder (out : list (emit Orders.payload))
| ONoRoute.

Section App.
Context `{!IdGen}.

(** The route table of [dishes.router.js] and [orders.router.js]. *)
Inductive chain : Type :=
| DishChain (ms : list (middleware (list dish) Dishes.locals Dishes.payload))
| OrderChain (ms : list (middleware (list order) Orders.locals Orders.payload))
| NoRoute.

Definition route (m : method) (p : path) : chain :=
  match m, p with
  | GET, PathDishes => DishChain Dishes.exports_list
  | POST, PathDishes => DishChain Dishes.exports_create
  | GET, PathDish _ => DishChain Dishes.exports_read
  | PUT, PathDish _ => DishChain Dishes.exports_update
  | GET, PathOrders => OrderChain Orders.exports_list
  | POST, PathOrders => OrderChain Orders.exports_create
  | GET, PathOrder _ => OrderChain Orders.exports_read
  | PUT, PathOrder _ => OrderChain Orders.exports_update
  | DELETE, PathOrder _ => OrderChain Orders.exports_delete
  | _, _ => NoRoute
  end.

(** [req.params.dishId] / [req.params.orderId]; the collection routes have
    no parameter (the controllers do not read one there). *)
Definition path_param (p : path) : string :=
  match p with PathDish k | PathOrder k => k | _ => "" end.

Definition to_request (rq : app_request) : request :=
  mk_request (path_param (rq_path rq)) (rq_body rq).

(** One request, run to completion. *)
Definition handle (d : dispatcher) (rq : app_request) (s : app_state) : app_state * app_out :=
  match route (rq_method rq) (rq_path rq) with
  | DishChain ms =>
      let '(ds', out) := run_with d ms (to_request rq) None (st_dishes s) in
      (mk_state ds' (st_orders s), ODish out)
  | OrderChain ms =>
      let '(os', out) := run_with d ms (to_request rq) None (st_orders s) in
      (mk_state (st_dishes s) os', OOrder out)
  | NoRoute => (s, ONoRoute)
  end.

(** A sequence of requests, served one after the other. *)
Fixpoint run_trace (d : dispatcher) (rqs : list app_request) (s : app_state)
  : app_state * list app_out :=
  match rqs with
  | [] => (s, [])
  | rq :: rest =>
      let '(s1, o) := handle d rq s in
      let '(s2, os) := run_trace d rest s1 in
      (s2, o :: os)
  end.

(** The server's step relation: any request may come next. *)
Inductive app_step (d : dispatcher) : app_state -> app_state -> Prop :=
| step_request rq s : app_step d s (handle d rq s).1.

Definition is_dish_request (rq : app_request) : bool :=
  match rq_path rq with PathDishes | PathDish _ => true | _ => false end.

End App.

(** ** Specification *)

Definition app_inv (s : app_state) : Prop := dishes_inv (st_dishes s) /\ orders_inv (st_orders s).

(** Every error the client sees is a 400 or a 404, every response a 200,
    201 or 204. *)
Definition out_ok (o : app_out) : Prop :=
  match o with
  | ODish out => Forall (emit_ok client_error success_status) out
  | OOrder out => Forall (emit_ok client_error success_status) out
  | ONoRoute => True
  end.

(** The request was answered through the error handler. *)
Definition out_error (o : app_out) : Prop :=
  match o with
  | ODish out => exists e, EError e ∈ out
  | OOrder out => exists e, EError e ∈ out
  | ONoRoute => False
  end.

(** The ids of the dishes a response of the request announces as created
    (201). *)
Definition created_dish_ids (o : app_out) : list string :=
  match o with ODish out => concat (map (emit_created dish_created) out) | _ => [] end.

(** Requests that differ only in how their [data] is written (key order,
    shadowed duplicate keys). *)
Definition app_req_equiv (rq1 rq2 : app_request) : Prop :=
  rq_method rq1 = rq_method rq2 /\ rq_path rq1 = rq_path rq2 /\ data_equiv (rq_body rq1) (rq_body rq2).

#[export] Instance app_req_equiv_equivalence : Equivalence app_req_equiv.
Proof.
  split.
  - intros rq. by repeat split.
  - intros rq1 rq2 (Hm & Hp & Hb). by repeat split.
  - intros rq1 rq2 rq3 (Hm1 & Hp1 & Hb1) (Hm2 & Hp2 & Hb2).
    repeat split; [congruence|congruence|by etrans].
Qed.

(** The status line the client receives for one emission: the status sent,
    the [status] of an error handed to the error handler ([res.status(status)
    .json({ error: message })]), 500 for a thrown [TypeError] and 404 for a
    request no function answered (Express's final handler). *)
Definition emit_status {P} (o : emit P) : Z :=
  match o with
  | EResp (RJson st _) | EResp (RStatus st) => st
  | EError e => err_status e
  | EThrow => 500
  | EFallThrough => 404
  end.

(** The first emission answers the request; later ones find the headers
    already sent. *)
Definition client_status (o : app_out) : option Z :=
  match o with
  | ODish (x :: _) => Some (emit_status x)
  | OOrder (x :: _) => Some (emit_status x)
  | _ => None
  end.

(** Two outcomes of a request give the client the same answer: the same
    first emission (later ones find the headers already sent). *)
Definition answered_alike (o1 o2 : app_out) : Prop :=
  match o1, o2 with
  | ODish (x :: _), ODish (y :: _) => x = y
  | OOrder (x :: _), OOrder (y :: _) => x = y
  | ONoRoute, ONoRoute => True
  | _, _ => False
  end.

(** How many times the request's handling writes a response. *)
Definition out_writes (o : app_out) : nat :=
  match o with ODish out => writes out | OOrder out => writes out | ONoRoute => 0 end.

(** What the client receives for one request: every emission rendered as
    its HTTP response ([Render.wire_of]). *)
Definition out_wires (o : app_out) : list Render.wire :=
  match o with
  | ODish out => map (Render.wire_of Render.dish_payload_json) out
  | OOrder out => map (Render.wire_of Render.order_payload_json) out
  | ONoRoute => []
  end.

(** The response body of each route of spec section 6: [{ data: [Dish] }]
    for the collection, [{ data: Dish }] for a record, none for DELETE. *)
Definition route_type (m : method) (p : path) : option Render.jtype :=
  match m, p with
  | GET, PathDishes => Some (Render.data_type (Render.TArr Render.dish_type))
  | POST, PathDishes | GET, PathDish _ | PUT, PathDish _ => Some (Render.data_type Render.dish_type)
  | GET, PathOrders => Some (Render.data_type (Render.TArr Render.order_type))
  | POST, PathOrders | GET, PathOrder _ | PUT, PathOrder _ => Some (Render.data_type Render.order_type)
  | _, _ => None
  end.

(** Every stored record serializes without [undefined] fields. *)
Definition app_wire_inv (s : app_state) : Prop :=
  Forall (fun d => Render.dish_wire d = true) (st_dishes s) /\
  Forall (fun o => Render.order_wire o = true) (st_orders s).

Section Proofs.
Context `{!IdGen}.
Implicit Types (d : dispatcher) (rq : app_request) (s : app_state).

(** ** Routing and dispatch *)

(** A property of a run under any dispatcher, from the continuation
    reading's run and the short-circuit emissions followed by at most a
    fall-through (which cover both [Halt] and [Express]). *)
Lemma run_with_cases {S L P} (Q : S * list (emit P) -> Prop) d (ms : list (middleware S L P))
  (r : request) (l : L) (x : S) :
  Forall express_shape ms ->
  (d = Cps -> Q (run_cps ms r l x)) ->
  (forall tail, tail = [] \/ tail = [EFallThrough] -> Q ((run_halt ms r l x).1, (run_halt ms r l x).2 ++ tail)) ->
  Q (run_with d ms r l x).
Proof.
  intros Hs Hc Ht. destruct d; simpl; [by apply Hc| |].
  - specialize (Ht [] (or_introl eq_refl)). rewrite app_nil_r in Ht. by destruct (run_halt ms r l x).
  - destruct (run_express_halt ms r l x Hs) as (H1 & tail & H2 & Htl & _).
    specialize (Ht tail Htl). rewrite <- H1, <- H2 in Ht. by destruct (run_express ms r l x).
Qed.

Lemma run_with_state {S L P} (Q : S -> Prop) d (ms : list (middleware S L P)) (r : request) (l : L) (x : S) :
  Forall express_shape ms -> Q (run_halt ms r l x).1 -> Q (run_cps ms r l x).1 -> Q (run_with d ms r l x).1.
Proof. intros Hs Hh Hc. by apply (run_with_cases (fun o => Q o.1)). Qed.

Ltac dish_unf :=
  unfold Dishes.list_, Dishes.dishExists, Dishes.validateDishId, Dishes.read, Dishes.update, Dishes.create,
    Dishes.validatePrice, Dishes.bodyDataHas.
Ltac order_unf :=
  unfold Orders.list_, Orders.create, Orders.orderExists, Orders.bodyDataHas, Orders.update, Orders.read,
    Orders.validateOrderId, Orders.validateStatusProperty, Orders.validateOrderStatus, Orders.destroy,
    Orders.validateDishQuantity.

(** Every routed chain has at most one function that calls [next(err)]
    then [next()], and ends with a handler. *)
Lemma route_chain m p :
  match route m p with
  | DishChain ms => one_double ms /\ exists h, list.last ms = Some h /\ answers h
  | OrderChain ms => one_double ms /\ exists h, list.last ms = Some h /\ answers h
  | NoRoute => True
  end.
Proof.
  destruct m, p; simpl; try exact I; (split; [|eexists; split; [reflexivity|]]);
    first [solve_one_double dish_unf|solve_one_double order_unf|solve_answers_by dish_unf|solve_answers_by order_unf].
Qed.

(** The chains of POST on a collection and GET on a record perform one
    action per function, so every dispatcher runs them alike. *)
Lemma create_read_single :
  Forall single_act Dishes.exports_create /\ Forall single_act Dishes.exports_read /\
  Forall single_act Orders.exports_create /\ Forall single_act Orders.exports_read.
Proof.
  repeat split; repeat apply List.Forall_cons; try apply List.Forall_nil;
    first [solve_single_by dish_unf|solve_single_by order_unf].
Qed.

Lemma route_dish m p ms : route m p = DishChain ms -> exists n, dish_routes !! n = Some ms.
Proof.
  destruct m, p; simpl; intros [= <-];
    first [by exists 0%nat | by exists 1%nat | by exists 2%nat | by exists 3%nat].
Qed.

Lemma route_order m p ms : route m p = OrderChain ms -> exists n, order_routes !! n = Some ms.
Proof.
  destruct m, p; simpl; intros [= <-];
    first [by exists 0%nat | by exists 1%nat | by exists 2%nat | by exists 3%nat | by exists 4%nat].
Qed.

(** Every function the route table names performs one action, or
    [next(err)] then [next()]. *)
Lemma route_dish_shape m p ms : route m p = DishChain ms -> Forall express_shape ms.
Proof. intros Hr. destruct (route_dish _ _ _ Hr) as [n Hn]. exact (dish_routes_shape n ms Hn). Qed.

Lemma route_order_shape m p ms : route m p = OrderChain ms -> Forall express_shape ms.
Proof. intros Hr. destruct (route_order _ _ _ Hr) as [n Hn]. exact (order_routes_shape n ms Hn). Qed.

(** The route table and the table of response bodies agree on the index
    of the exported chain. *)
Ltac route_index :=
  let go n := exists n; split; reflexivity in
  first [go 0%nat | go 1%nat | go 2%nat | go 3%nat | go 4%nat].

Lemma route_dish_type m p ms :
  route m p = DishChain ms -> exists n, dish_routes !! n = Some ms /\ route_type m p = Render.dish_route_type n.
Proof. destruct m, p; simpl; intros [= <-]; route_index. Qed.

Lemma route_order_type m p ms :
  route m p = OrderChain ms -> exists n, order_routes !! n = Some ms /\ route_type m p = Render.order_route_type n.
Proof. destruct m, p; simpl; intros [= <-]; route_index. Qed.

(** A dish path is routed to a dish chain (or not at all), an order path to
    an order chain. *)
Lemma route_dish_path rq ms :
  route (rq_method rq) (rq_path rq) = OrderChain ms -> is_dish_request rq = false.
Proof. unfold is_dish_request. by destruct (rq_method rq), (rq_path rq). Qed.

Lemma route_order_path rq ms :
  route (rq_method rq) (rq_path rq) = DishChain ms -> is_dish_request rq = true.
Proof. unfold is_dish_request. by destruct (rq_method rq), (rq_path rq). Qed.

(** [handle], by the chain the request is routed to. *)
Lemma handle_dish d rq s ms :
  route (rq_method rq) (rq_path rq) = DishChain ms ->
  handle d rq s = (mk_state (run_with d ms (to_request rq) None (st_dishes s)).1 (st_orders s),
                   ODish (run_with d ms (to_request rq) None (st_dishes s)).2).
Proof. intros Hr. unfold handle. rewrite Hr. by destruct (run_with _ _ _ _ _). Qed.

Lemma handle_order d rq s ms :
  route (rq_method rq) (rq_path rq) = OrderChain ms ->
  handle d rq s = (mk_state (st_dishes s) (run_with d ms (to_request rq) None (st_orders s)).1,
                   OOrder (run_with d ms (to_request rq) None (st_orders s)).2).
Proof. intros Hr. unfold handle. rewrite Hr. by destruct (run_with _ _ _ _ _). Qed.

Lemma handle_none d rq s : route (rq_method rq) (rq_path rq) = NoRoute -> handle d rq s = (s, ONoRoute).
Proof. intros Hr. unfold handle. by rewrite Hr. Qed.

(** A routed request whose chain performs one action per function and
    gives the same run under both readings of spec section 4.1. *)
Lemma handle_dish_run d rq s ms r :
  route (rq_method rq) (rq_path rq) = DishChain ms -> Forall single_act ms ->
  run_halt ms (to_request rq) None (st_dishes s) = r -> run_cps ms (to_request rq) None (st_dishes s) = r ->
  handle d rq s = (mk_state r.1 (st_orders s), ODish r.2).
Proof.
  intros Hr Hs Hh Hc. rewrite (handle_dish d rq s _ Hr).
  by destruct d; simpl; [rewrite Hc|rewrite Hh|rewrite run_express_single_act, Hh].
Qed.

Lemma handle_order_run d rq s ms r :
  route (rq_method rq) (rq_path rq) = OrderChain ms -> Forall single_act ms ->
  run_halt ms (to_request rq) None (st_orders s) = r -> run_cps ms (to_request rq) None (st_orders s) = r ->
  handle d rq s = (mk_state (st_dishes s) r.1, OOrder r.2).
Proof.
  intros Hr Hs Hh Hc. rewrite (handle_order d rq s _ Hr).
  by destruct d; simpl; [rewrite Hc|rewrite Hh|rewrite run_express_single_act, Hh].
Qed.

(** Case analysis on the route of a request, rewriting [handle]. *)
Ltac case_route d rq s :=
  let Hr := fresh "Hr" in
  destruct (route (rq_method rq) (rq_path rq)) as [?ms|?ms|] eqn:Hr;
  [rewrite (handle_dish d rq s _ Hr) | rewrite (handle_order d rq s _ Hr) | rewrite (handle_none d rq s Hr)];
  simpl.

(** ** Every request refines the two effect specifications *)

Lemma handle_effect d rq s :
  dish_effect (st_dishes s) (st_dishes (handle d rq s).1) /\
  order_effect (st_orders s) (st_orders (handle d rq s).1).
Proof.
  case_route d rq s.
  - destruct (route_dish _ _ _ Hr) as [n Hn]. split; [|constructor].
    apply (run_with_state (dish_effect _)); [exact (route_dish_shape _ _ _ Hr)|..];
      apply (dish_route_effect n ms _ _ _ Hn).
  - destruct (route_order _ _ _ Hr) as [n Hn]. split; [constructor|].
    apply (run_with_state (order_effect _)); [exact (route_order_shape _ _ _ Hr)|..];
      apply (order_route_effect n ms _ _ _ Hn).
  - split; constructor.
Qed.

Lemma app_step_inv d s s' : app_inv s -> app_step d s s' -> app_inv s'.
Proof.
  intros [Hd Ho] Hst. inversion Hst as [rq s0]; subst. destruct (handle_effect d rq s) as [Ed Eo].
  split; [exact (dish_effect_inv _ _ Hd Ed)|exact (order_effect_inv _ _ Ho Eo)].
Qed.

Lemma rtc_app_inv d s s' : app_inv s -> rtc (app_step d) s s' -> app_inv s'.
Proof. intros Hs Hr. induction Hr; eauto using app_step_inv. Qed.

(** ** Equivalent requests *)

Lemma to_request_equiv rq1 rq2 : app_req_equiv rq1 rq2 -> req_equiv (to_request rq1) (to_request rq2).
Proof. intros (_ & Hp & Hb). split; [simpl; by rewrite Hp|exact Hb]. Qed.

(** Every function the route table names reads a request only through
    its parameter and [data]. *)
Lemma route_proper m p :
  match route m p with
  | DishChain ms => Forall mw_proper ms
  | OrderChain ms => Forall mw_proper ms
  | NoRoute => True
  end.
Proof.
  destruct m, p; simpl; repeat apply List.Forall_cons; try apply List.Forall_nil;
    first [exact I | dish_proper | order_proper].
Qed.

#[export] Instance handle_proper d : Proper (app_req_equiv ==> eq ==> eq) (handle d).
Proof.
  intros rq1 rq2 Hrq s ? <-. pose proof (to_request_equiv _ _ Hrq) as He.
  destruct Hrq as (Hm & Hp & _). unfold handle. rewrite Hm, Hp.
  pose proof (route_proper (rq_method rq2) (rq_path rq2)) as Hpr.
  destruct (route (rq_method rq2) (rq_path rq2)) as [ms|ms|]; [| |done];
    destruct d; simpl;
    first [rewrite (run_cps_proper ms Hpr _ _ He None None eq_refl _ _ eq_refl)
          |rewrite (run_halt_proper ms Hpr _ _ He None None eq_refl _ _ eq_refl)
          |rewrite (run_express_proper ms Hpr _ _ He None None eq_refl _ _ eq_refl)]; done.
Qed.

(** ** Traces *)

Lemma run_trace_fst d rq rest s :
  (run_trace d (rq :: rest) s).1 = (run_trace d rest (handle d rq s).1).1.
Proof. simpl. destruct (handle d rq s) as [s1 o]. simpl. by destruct (run_trace d rest s1). Qed.

Lemma run_trace_app d l1 l2 s :
  run_trace d (l1 ++ l2) s =
  ((run_trace d l2 (run_trace d l1 s).1).1, (run_trace d l1 s).2 ++ (run_trace d l2 (run_trace d l1 s).1).2).
Proof.
  revert s. induction l1 as [|rq l1 IH]; intros s; simpl; [by destruct (run_trace d l2 s)|].
  destruct (handle d rq s) as [s1 o]. rewrite IH.
  destruct (run_trace d l1 s1) as [s2 os]. simpl. by destruct (run_trace d l2 s2).
Qed.

Lemma run_trace_length d rqs s : length (run_trace d rqs s).2 = length rqs.
Proof.
  revert s. induction rqs as [|rq rqs IH]; intros s; simpl; [done|].
  destruct (handle d rq s) as [s1 o]. specialize (IH s1). destruct (run_trace d rqs s1). simpl in *. by rewrite IH.
Qed.

(** The answer to a request of a trace is the answer [handle] gives it in
    the state the requests before it left. *)
Lemma run_trace_lookup d l1 rq l2 s :
  (run_trace d (l1 ++ rq :: l2) s).2 !! length l1 = Some (handle d rq (run_trace d l1 s).1).2.
Proof.
  rewrite run_trace_app. simpl.
  rewrite lookup_app_r, run_trace_length, Nat.sub_diag; [|by rewrite run_trace_length].
  destruct (handle d rq _) as [s1 o]. simpl. by destruct (run_trace d l2 s1).
Qed.

Lemma run_trace_rtc d rqs s : rtc (app_step d) s (run_trace d rqs s).1.
Proof.
  revert s. induction rqs as [|rq rqs IH]; intros s; [apply rtc_refl|].
  rewrite run_trace_fst. eapply rtc_l; [constructor|apply IH].
Qed.

(** ** The two managers share nothing *)

Lemma handle_dishes_other d rq s : is_dish_request rq = false -> st_dishes (handle d rq s).1 = st_dishes s.
Proof. case_route d rq s; [|done|done]. by rewrite (route_order_path rq ms Hr). Qed.

Lemma handle_orders_other d rq s : is_dish_request rq = true -> st_orders (handle d rq s).1 = st_orders s.
Proof. case_route d rq s; [done| |done]. by rewrite (route_dish_path rq ms Hr). Qed.

Lemma handle_local d rq s s' :
  (st_dishes s = st_dishes s' -> st_dishes (handle d rq s).1 = st_dishes (handle d rq s').1) /\
  (st_orders s = st_orders s' -> st_orders (handle d rq s).1 = st_orders (handle d rq s').1).
Proof.
  destruct (route (rq_method rq) (rq_path rq)) as [ms|ms|] eqn:Hr;
    [rewrite (handle_dish d rq s _ Hr), (handle_dish d rq s' _ Hr)
    |rewrite (handle_order d rq s _ Hr), (handle_order d rq s' _ Hr)
    |rewrite (handle_none d rq s Hr), (handle_none d rq s' Hr)]; simpl; split; congruence.
Qed.

(** The dishes after a trace are those after its dish requests alone, from
    any state with the same dishes; the same for orders. *)
Lemma trace_dishes d rqs s s' :
  st_dishes s = st_dishes s' ->
  st_dishes (run_trace d rqs s).1 = st_dishes (run_trace d (List.filter is_dish_request rqs) s').1.
Proof.
  revert s s'. induction rqs as [|rq rqs IH]; intros s s' E; [done|].
  cbn [List.filter]. destruct (is_dish_request rq) eqn:Ed; rewrite !run_trace_fst; apply IH.
  - by apply handle_local.
  - by rewrite handle_dishes_other.
Qed.

Lemma trace_orders d rqs s s' :
  st_orders s = st_orders s' ->
  st_orders (run_trace d rqs s).1 =
  st_orders (run_trace d (List.filter (fun rq => negb (is_dish_request rq)) rqs) s').1.
Proof.
  revert s s'. induction rqs as [|rq rqs IH]; intros s s' E; [done|].
  cbn [List.filter]. destruct (is_dish_request rq) eqn:Ed; simpl negb; rewrite !run_trace_fst; apply IH.
  - by rewrite handle_orders_other.
  - by apply handle_local.
Qed.

(** ** The ledger of created dishes *)

Lemma handle_dish_ledger d rq s :
  ids (st_dishes (handle d rq s).1) ≡ₚ ids (st_dishes s) ++ created_dish_ids (handle d rq s).2.
Proof.
  case_route d rq s; [|by rewrite app_nil_r..].
  destruct (route_dish _ _ _ Hr) as [n Hn].
  pose proof (dish_routes_ledger n ms Hn) as Hl.
  apply (run_with_cases (fun r => ids r.1 ≡ₚ ids (st_dishes s) ++ concat (map (emit_created dish_created) r.2)));
    [exact (route_dish_shape _ _ _ Hr)|intros _; by apply run_cps_ledger|].
  intros tail [-> | ->]; cbv beta; cbn [fst snd]; rewrite map_app, concat_app; simpl; rewrite !app_nil_r; by apply run_halt_ledger.
Qed.

Lemma trace_dish_ledger d rqs s :
  ids (st_dishes (run_trace d rqs s).1) ≡ₚ ids (st_dishes s) ++ concat (map created_dish_ids (run_trace d rqs s).2).
Proof.
  revert s. induction rqs as [|rq rqs IH]; intros s; simpl; [by rewrite app_nil_r|].
  pose proof (handle_dish_ledger d rq s) as Hh.
  destruct (handle d rq s) as [s1 o]. specialize (IH s1).
  destruct (run_trace d rqs s1) as [s2 os]. simpl in *. by rewrite IH, Hh, app_assoc.
Qed.

(** ** Orders that are no longer pending *)

Lemma order_effect_settled os os' o :
  orders_inv os -> order_effect os os' -> o ∈ os -> is_pending o = false ->
  exists o', o' ∈ os' /\ order_id o' = order_id o /\ status o' = status o.
Proof.
  intros Hinv E Ho Hp. destruct (decide (order_id o ∈ ids os')) as [Hin|Hn].
  - apply list_elem_of_fmap in Hin as (o' & Hid & Ho'). exists o'.
    split; [done|]. split; [done|]. eapply order_effect_status; eauto.
  - by rewrite (order_effect_removed _ _ _ Hinv E Ho Hn) in Hp.
Qed.

(** ** Properties of the whole application *)

(** C9: whatever sequence of requests the server handles, under every
    dispatcher, both collections keep their invariants: unique ids, and
    every stored dish and order passed the validators. *)
Theorem app_inv_trace d rqs s : app_inv s -> app_inv (run_trace d rqs s).1.
Proof. intros Hs. exact (rtc_app_inv d _ _ Hs (run_trace_rtc d rqs s)). Qed.

(** The dish manager and the order manager share no state: after any
    trace, the dishes are those the dish requests of the trace alone
    produce, and the orders those its order requests alone produce. *)
Lemma app_managers_independent d rqs s :
  st_dishes (run_trace d rqs s).1 = st_dishes (run_trace d (List.filter is_dish_request rqs) s).1 /\
  st_orders (run_trace d rqs s).1 =
  st_orders (run_trace d (List.filter (fun rq => negb (is_dish_request rq)) rqs) s).1.
Proof. split; [by apply trace_dishes|by apply trace_orders]. Qed.

(** C10: an order that is not pending stays in the collection forever,
    with its status: in every state reachable from one satisfying the
    invariants there is an order with its id and its status.  In
    particular a delivered order stays delivered. *)
Theorem app_settled_order_kept d s0 s1 o :
  app_inv s0 -> rtc (app_step d) s0 s1 -> o ∈ st_orders s0 -> is_pending o = false ->
  exists o', o' ∈ st_orders s1 /\ order_id o' = order_id o /\ status o' = status o.
Proof.
  intros Hinv Hr. revert Hinv o. induction Hr as [s|s s' s'' Hst _ IH]; intros Hinv o Ho Hp; [by exists o|].
  inversion Hst as [rq s0']; subst. destruct (handle_effect d rq s) as [_ Eo].
  destruct (order_effect_settled _ _ o (proj2 Hinv) Eo Ho Hp) as (o1 & Ho1 & Hid1 & Hst1).
  destruct (IH (app_step_inv d _ _ Hinv Hst) o1 Ho1) as (o2 & Ho2 & Hid2 & Hst2).
  { unfold is_pending. by rewrite Hst1. }
  exists o2. split; [done|]. split; congruence.
Qed.

(** C40: dishes are never deleted and never change id: along any run of
    the server, the dish ids of a state are a prefix of the dish ids of
    every later state. *)
Theorem app_dish_ids_persist d s0 s1 :
  rtc (app_step d) s0 s1 -> ids (st_dishes s0) `prefix_of` ids (st_dishes s1).
Proof.
  induction 1 as [|s s' s'' Hst _ IH]; [done|]. inversion Hst as [rq s0']; subst.
  etrans; [|exact IH]. apply dish_effect_ids, handle_effect.
Qed.

(** C22: every error the application hands to the error handler is a 400
    (ValidationError) or a 404 (NotFound), and every response it sends is a
    200, a 201 or a 204, under every dispatcher. *)
Theorem app_responses_classified d rq s : out_ok (handle d rq s).2.
Proof.
  case_route d rq s.
  - destruct (route_dish _ _ _ Hr) as [n Hn]. pose proof (dish_routes_acts n ms Hn) as Ha.
    apply (run_with_cases (fun r => Forall _ r.2)); [exact (route_dish_shape _ _ _ Hr)|intros _; by apply run_cps_emits|].
    intros tail Ht. apply Forall_app. split; [by apply run_halt_emits|by destruct Ht as [-> | ->]; repeat constructor].
  - destruct (route_order _ _ _ Hr) as [n Hn]. pose proof (order_routes_acts n ms Hn) as Ha.
    apply (run_with_cases (fun r => Forall _ r.2)); [exact (route_order_shape _ _ _ Hr)|intros _; by apply run_cps_emits|].
    intros tail Ht. apply Forall_app. split; [by apply run_halt_emits|by destruct Ht as [-> | ->]; repeat constructor].
  - done.
Qed.

(** Under Express 4 or the short-circuit pipeline, a run that hands an
    error to the error handler leaves the collection unchanged. *)
Lemma run_with_error_unchanged {S L P} d (ms : list (middleware S L P)) r l x e :
  d <> Cps -> Forall express_shape ms -> Forall clean_fail ms ->
  EError e ∈ (run_with d ms r l x).2 -> (run_with d ms r l x).1 = x.
Proof.
  intros Hd Hs Hc. apply (run_with_cases (fun o => EError e ∈ o.2 -> o.1 = x)); [done|done|].
  intros tail Ht He. cbn [fst snd] in *. apply elem_of_app in He as [He|He]; [exact (run_halt_error_unchanged ms r l x e Hc He)|].
  destruct Ht as [-> | ->]; [by apply not_elem_of_nil in He|by apply list_elem_of_singleton in He].
Qed.

(** C21: under Express 4's dispatch (and the short-circuit pipeline of
    spec section 9), a request answered with an error leaves the whole
    state unchanged: no partial mutation on failure (spec section 7). *)
Theorem app_error_atomic d rq s : d <> Cps -> out_error (handle d rq s).2 -> (handle d rq s).1 = s.
Proof.
  intros Hd. case_route d rq s; [intros [e He]|intros [e He]|done].
  - destruct (route_dish _ _ _ Hr) as [n Hn].
    rewrite (run_with_error_unchanged d ms _ _ _ e Hd (route_dish_shape _ _ _ Hr) (dish_routes_clean n ms Hn) He).
    by destruct s.
  - destruct (route_order _ _ _ Hr) as [n Hn].
    rewrite (run_with_error_unchanged d ms _ _ _ e Hd (route_order_shape _ _ _ Hr) (order_routes_clean n ms Hn) He).
    by destruct s.
Qed.

(** One request under Express 4 and under the short-circuit pipeline. *)
Lemma handle_express_halt rq s :
  (handle Express rq s).1 = (handle Halt rq s).1 /\ answered_alike (handle Express rq s).2 (handle Halt rq s).2.
Proof.
  destruct (route (rq_method rq) (rq_path rq)) as [ms|ms|] eqn:Hr;
    [rewrite (handle_dish Express rq s _ Hr), (handle_dish Halt rq s _ Hr);
     pose proof (route_dish_shape _ _ _ Hr) as Hs; set (x := st_dishes s)
    |rewrite (handle_order Express rq s _ Hr), (handle_order Halt rq s _ Hr);
     pose proof (route_order_shape _ _ _ Hr) as Hs; set (x := st_orders s)
    |by rewrite (handle_none Express rq s Hr), (handle_none Halt rq s Hr)]; simpl;
    destruct (run_express_halt ms (to_request rq) None x Hs) as (-> & tail & -> & _);
    destruct (run_halt_one ms (to_request rq) None x Hs) as [o ->]; by split.
Qed.

(** C11: Express 4's dispatch refines the short-circuit pipeline of spec
    section 9: over any trace of requests, from any state, the two leave
    the same states and answer every request alike (the same first
    emission); Express at most adds a fall-through that writes nothing. *)
Theorem app_express_refines_halt rqs s :
  (run_trace Express rqs s).1 = (run_trace Halt rqs s).1 /\
  Forall2 answered_alike (run_trace Express rqs s).2 (run_trace Halt rqs s).2.
Proof.
  revert s. induction rqs as [|rq rqs IH]; intros s; simpl; [split; [done|constructor]|].
  destruct (handle_express_halt rq s) as [Hs Ho].
  destruct (handle Express rq s) as [s1 o1], (handle Halt rq s) as [s2 o2]. simpl in *. subst s2.
  destruct (IH s1) as [IH1 IH2].
  destruct (run_trace Express rqs s1), (run_trace Halt rqs s1). simpl in *. split; [done|by constructor].
Qed.

(** Express 4's dispatch of every request the application routes
    terminates: on the route's chain, whatever the request and the
    collections, [length ms + 1] nested calls of [next()] run it to the
    end, and more fuel gives the same result. *)
Lemma app_express_terminates rq s :
  match route (rq_method rq) (rq_path rq) with
  | DishChain ms => exists r, express_next ms (to_request rq) (Datatypes.S (length ms)) 0 None (st_dishes s) [] = Some r /\
                              forall k, express_next ms (to_request rq) (Datatypes.S (length ms) + k) 0 None (st_dishes s) [] = Some r
  | OrderChain ms => exists r, express_next ms (to_request rq) (Datatypes.S (length ms)) 0 None (st_orders s) [] = Some r /\
                               forall k, express_next ms (to_request rq) (Datatypes.S (length ms) + k) 0 None (st_orders s) [] = Some r
  | NoRoute => True
  end.
Proof. destruct (route (rq_method rq) (rq_path rq)); [apply express_terminates..|done]. Qed.

(** C20: every routed request gets exactly one response under Express 4
    and under the short-circuit pipeline, whatever the state and the body;
    under the continuation reading of spec section 4.1 it gets one or two
    (the second write finds the headers already sent). *)
Theorem app_response_bounds rq s :
  route (rq_method rq) (rq_path rq) <> NoRoute ->
  out_writes (handle Express rq s).2 = 1 /\ out_writes (handle Halt rq s).2 = 1 /\
  1 <= out_writes (handle Cps rq s).2 <= 2.
Proof.
  intros Hn. pose proof (route_chain (rq_method rq) (rq_path rq)) as Hc.
  destruct (route (rq_method rq) (rq_path rq)) as [ms|ms|] eqn:Hr; [..|done];
    [rewrite !(handle_dish _ rq s _ Hr)|rewrite !(handle_order _ rq s _ Hr)]; simpl;
    destruct Hc as [Hd (h & Hl & Hh)]; exact (chain_writes ms h _ _ _ Hd Hl Hh).
Qed.

(** C14: every response has the shape spec section 6 gives its route.
    Under Express 4, from collections satisfying the invariants whose
    records serialize without [undefined], a request with a JSON body gets
    responses whose body, once [res.json] has serialized it, is
    [{ data: [Dish] }], [{ data: Dish }], [{ data: [Order] }] or
    [{ data: Order }] as the route says, with every field of the record's
    declared type (a string id, an integer price or quantity > 0, a
    non-empty dishes array), or no body for DELETE's 204; errors are
    [{ error: message }]; and the collections after the request still
    serialize without [undefined]. *)
Theorem app_response_types rq s :
  app_inv s -> app_wire_inv s -> is_json (rq_body rq) = true ->
  Forall (fun w => Render.wire_typed (route_type (rq_method rq) (rq_path rq)) w = true)
         (out_wires (handle Express rq s).2) /\
  app_wire_inv (handle Express rq s).1.
Proof.
  intros [Hd Ho] [Wd Wo] Hb. case_route Express rq s; [| |split; [constructor|by split]].
  - destruct (route_dish_type _ _ _ Hr) as (n & Hn & ->).
    destruct (express_of_halt ms (to_request rq) None (st_dishes s) (dish_api n (to_request rq) (st_dishes s))
                (dish_routes_shape n ms Hn) (dish_routes_halt_api n ms _ None _ Hn)) as (ds' & o & tail & -> & Ht & Ha).
    destruct (Render.dish_api_typed n (to_request rq) _ _ _ Hb Hd Wd Ha) as [Hw Hw'].
    split; [by apply Render.wire_tail_typed|by split].
  - destruct (route_order_type _ _ _ Hr) as (n & Hn & ->).
    destruct (express_of_halt ms (to_request rq) None (st_orders s) (order_api n (to_request rq) (st_orders s))
                (order_routes_shape n ms Hn) (order_routes_halt_api n ms _ None _ Hn)) as (os' & o & tail & -> & Ht & Ha).
    destruct (Render.order_api_typed n (to_request rq) _ _ _ Hb Ho Wo Ha) as [Hw Hw'].
    split; [by apply Render.wire_tail_typed|by split].
Qed.

(** C23: round trip on dishes: after a POST /dishes whose body passes the
    validators, a GET of the id it was given answers 200 with the dish the
    POST answered 201 with, the one appended to the collection, under
    every dispatcher; its id was not in the collection before. *)
Theorem app_dish_create_read d s body body' :
  check_rules body dish_rules = Some None ->
  exists nd, dish_id nd ∉ ids (st_dishes s) /\
    run_trace d [mk_app_request POST PathDishes body; mk_app_request GET (PathDish (dish_id nd)) body'] s =
      (mk_state (st_dishes s ;+ nd) (st_orders s),
       [ODish [EResp (RJson 201 (PDish nd))]; ODish [EResp (RJson 200 (PDish nd))]]).
Proof.
  intros Hc. destruct (dish_fields_rules body Hc) as (nm & de & pr & im & Hf & _).
  set (rq := mk_app_request POST PathDishes body).
  destruct (create_chain_pass (to_request rq) None (st_dishes s) Hc) as [Ch Cc].
  destruct (create_handler_run (to_request rq) None (st_dishes s) _ _ _ _ Hf) as [Hh Hcp].
  exists (mk_dish (next_id (ids (st_dishes s))) nm de pr im). split; [apply next_id_fresh|]. cbn [run_trace].
  rewrite (handle_dish_run d rq s _ _ eq_refl (proj1 create_read_single) (eq_trans Ch Hh) (eq_trans Cc Hcp)). cbn -[handle].
  set (nd := mk_dish _ nm de pr im). set (rq' := mk_app_request GET (PathDish (next_id (ids (st_dishes s)))) body').
  destruct (read_found (to_request rq') None (st_dishes s ;+ nd) _ nd
              (find_by_id_push_fresh (st_dishes s) nd (next_id_fresh _))) as [Rh Rc].
  by rewrite (handle_dish_run d rq' (mk_state (st_dishes s ;+ nd) (st_orders s)) _ _ eq_refl
               (proj1 (proj2 create_read_single)) Rh Rc).
Qed.

(** C24: round trip on orders: after a POST /orders whose body passes the
    validators, a GET of the id it was given answers 200 with the order the
    POST answered 201 with, the one appended, under every dispatcher. *)
Theorem app_order_create_read d s body body' :
  check_rules body order_rules = Some None -> body_dishes_ok body = true ->
  exists no, order_id no ∉ ids (st_orders s) /\
    run_trace d [mk_app_request POST PathOrders body; mk_app_request GET (PathOrder (order_id no)) body'] s =
      (mk_state (st_dishes s) (st_orders s ;+ no),
       [OOrder [EResp (RJson 201 (POrder no))]; OOrder [EResp (RJson 200 (POrder no))]]).
Proof.
  intros Hc Hd. destruct (order_rules_fields body Hc) as (dt & mn & st & ds & _ & _ & _ & _ & _ & _ & Hf & _).
  set (rq := mk_app_request POST PathOrders body).
  destruct (order_create_chain_pass (to_request rq) None (st_orders s) Hc Hd) as [Ch Cc].
  destruct (order_create_handler_run (to_request rq) None (st_orders s) _ _ _ _ Hf) as [Hh Hcp].
  exists (mk_order (next_id (ids (st_orders s))) dt mn (st ||? JStr "pending") ds).
  split; [apply next_id_fresh|]. cbn [run_trace].
  rewrite (handle_order_run d rq s _ _ eq_refl (proj1 (proj2 (proj2 create_read_single))) (eq_trans Ch Hh)
            (eq_trans Cc Hcp)). cbn -[handle].
  set (no := mk_order _ dt mn _ ds). set (rq' := mk_app_request GET (PathOrder (next_id (ids (st_orders s)))) body').
  destruct (order_read_found (to_request rq') None (st_orders s ;+ no) _ no
              (find_by_id_push_fresh (st_orders s) no (next_id_fresh _))) as [Rh Rc].
  by rewrite (handle_order_run d rq' (mk_state (st_dishes s) (st_orders s ;+ no)) _ _ eq_refl
               (proj2 (proj2 (proj2 create_read_single))) Rh Rc).
Qed.

(** C26: the application reads a request only through its method, path
    and the values of its [data]: two traces whose requests pairwise differ
    only in how their [data] is written (key order, shadowed duplicate
    keys) give the same states and the same responses. *)
Theorem app_equiv_traces d rqs1 rqs2 s :
  Forall2 app_req_equiv rqs1 rqs2 -> run_trace d rqs1 s = run_trace d rqs2 s.
Proof.
  intros Hall. revert s. induction Hall as [|rq1 rq2 rqs1 rqs2 Hrq _ IH]; intros s; [done|].
  simpl. rewrite Hrq. destruct (handle d rq2 s) as [s1 o]. by rewrite IH.
Qed.

(** C25: spec section 8, "creating a dish returns a record whose id is
    unique versus all prior dishes": over any trace from a state satisfying
    the invariants, the ids of the dishes announced by 201 responses are
    distinct from one another and from the ids of the dishes before the
    trace, under every dispatcher. *)
Theorem app_created_dish_ids_unique d rqs s :
  app_inv s -> NoDup (ids (st_dishes s) ++ concat (map created_dish_ids (run_trace d rqs s).2)).
Proof.
  intros Hs. rewrite <- (trace_dish_ledger d rqs s).
  exact (proj1 (proj1 (rtc_app_inv d _ _ Hs (run_trace_rtc d rqs s)))).
Qed.

End Proofs.


(** ** The scenario of spec section 8, and witnesses *)

Definition order_body (st : jsval) : jsval :=
  JObj [("data", JObj (order_data st (JArr [dish_entry two])))].

Definition post_orders (st : jsval) : app_request := mk_app_request POST PathOrders (order_body st).

Definition put_order (k : string) (st : jsval) : app_request := mk_app_request PUT (PathOrder k) (order_body st).

(** Create an order whose status is "delivered", then update it asking
    for "pending", then asking for "delivered". *)
Definition delivered_trace : list app_request :=
  [post_orders (JStr "delivered"); put_order (next_id []) (JStr "pending");
   put_order (next_id []) (JStr "delivered")].

(** Spec section 8 says an update to "delivered" succeeds once and
    later updates of that order fail.  The code does the opposite: [create]
    accepts an order posted as "delivered" (201), an update of that
    delivered order asking for "pending" succeeds (200) and leaves it
    "delivered", and an update asking for "delivered" fails with "A
    delivered order cannot be changed" (400), whatever the stored status;
    this is the run of Express 4's dispatch. *)
Lemma app_delivered_order_changed :
  map client_status (run_trace Express delivered_trace (mk_state [] [])).2 = [Some 201%Z; Some 200%Z; Some 400%Z] /\
  nth_error (run_trace Express delivered_trace (mk_state [] [])).2 2 = Some (OOrder [EError delivered_error]) /\
  map status (st_orders (run_trace Express delivered_trace (mk_state [] [])).1) = [JStr "delivered"].
Proof. vm_compute. split; [reflexivity|split; reflexivity]. Qed.

Definition s_one : app_state := mk_state [taco_dish] [o1 "delivered"].

Lemma app_inv_s_one : app_inv s_one.
Proof. split; [exact dishes_inv_taco|apply orders_inv_o1; discriminate]. Qed.

Definition get_missing : app_request := mk_app_request GET (PathDish "nope") (JObj []).

(** The PUT of spec section 4.1's open question: body id "zz" against the
    route id "d1" of the dish of [s_one]. *)
Definition put_conflict : app_request :=
  mk_app_request PUT (PathDish "d1") (req_body (put_d1 (JStr "zz") taco_fields)).

(** Under Express 4 it is answered 400 once and the dish is unchanged (the
    second [next()] only leaves the route); under the continuation reading
    of spec section 4.1 the dish is overwritten and a second response is
    written. *)
Lemma put_conflict_dispatchers :
  (handle Express put_conflict s_one).1 = s_one /\
  client_status (handle Express put_conflict s_one).2 = Some 400%Z /\
  out_writes (handle Express put_conflict s_one).2 = 1%nat /\
  (handle Cps put_conflict s_one).1 <> s_one /\
  client_status (handle Cps put_conflict s_one).2 = Some 400%Z /\
  out_writes (handle Cps put_conflict s_one).2 = 2%nat.
Proof. vm_compute. repeat split; first [reflexivity|discriminate]. Qed.

Lemma app_inv_trace_witness : app_inv s_one /\ app_inv (run_trace Halt delivered_trace s_one).1.
Proof. split; [exact app_inv_s_one|exact (app_inv_trace Halt delivered_trace s_one app_inv_s_one)]. Defined.

Lemma app_settled_order_kept_witness :
  is_pending (o1 "delivered") = false /\
  exists o', o' ∈ st_orders (run_trace Halt [put_order "o1" (JStr "pending")] s_one).1 /\
             order_id o' = "o1" /\ status o' = JStr "delivered".
Proof.
  split; [reflexivity|].
  exact (app_settled_order_kept Halt s_one _ (o1 "delivered") app_inv_s_one (run_trace_rtc Halt _ s_one)
           ltac:(constructor) ltac:(reflexivity)).
Defined.

Lemma app_dish_ids_persist_witness :
  ids (st_dishes s_one) `prefix_of`
  ids (st_dishes (run_trace Halt [mk_app_request POST PathDishes (req_body taco_request)] s_one).1).
Proof. exact (app_dish_ids_persist Halt _ _ (run_trace_rtc Halt _ _)). Defined.

Lemma app_error_atomic_witness :
  Express <> Cps /\ out_error (handle Express get_missing s_one).2 /\ (handle Express get_missing s_one).1 = s_one.
Proof.
  assert (He : out_error (handle Express get_missing s_one).2) by (vm_compute; eexists; constructor).
  split; [discriminate|]. split; [exact He|exact (app_error_atomic Express get_missing s_one ltac:(discriminate) He)].
Defined.


Lemma app_response_bounds_witness :
  route (rq_method get_missing) (rq_path get_missing) <> NoRoute /\
  out_writes (handle Express get_missing s_one).2 = 1 /\ out_writes (handle Halt get_missing s_one).2 = 1 /\
  1 <= out_writes (handle Cps get_missing s_one).2 <= 2.
Proof. split; [discriminate|exact (app_response_bounds get_missing s_one ltac:(discriminate))]. Defined.

Lemma app_dish_create_read_witness :
  check_rules (req_body taco_request) dish_rules = Some None /\
  exists nd, dish_id nd ∉ ids (st_dishes s_one) /\
    run_trace Halt [mk_app_request POST PathDishes (req_body taco_request);
                    mk_app_request GET (PathDish (dish_id nd)) (JObj [])] s_one =
      (mk_state (st_dishes s_one ;+ nd) (st_orders s_one),
       [ODish [EResp (RJson 201 (PDish nd))]; ODish [EResp (RJson 200 (PDish nd))]]).
Proof.
  split; [reflexivity|].
  exact (app_dish_create_read Halt s_one (req_body taco_request) (JObj []) ltac:(reflexivity)).
Defined.

Lemma app_order_create_read_witness :
  check_rules (order_body (JStr "preparing")) order_rules = Some None /\
  body_dishes_ok (order_body (JStr "preparing")) = true /\
  exists no, order_id no ∉ ids (st_orders s_one) /\
    run_trace Cps [mk_app_request POST PathOrders (order_body (JStr "preparing"));
                   mk_app_request GET (PathOrder (order_id no)) (JObj [])] s_one =
      (mk_state (st_dishes s_one) (st_orders s_one ;+ no),
       [OOrder [EResp (RJson 201 (POrder no))]; OOrder [EResp (RJson 200 (POrder no))]]).
Proof.
  split; [reflexivity|]. split; [reflexivity|].
  exact (app_order_create_read Cps s_one (order_body (JStr "preparing")) (JObj [])
           ltac:(reflexivity) ltac:(reflexivity)).
Defined.


(** The taco of spec section 8 with its fields written in the reverse order. *)
Definition taco_reversed : app_request :=
  mk_app_request POST PathDishes (JObj [("data", JObj (rev taco_fields))]).

Lemma taco_reversed_equiv : app_req_equiv (mk_app_request POST PathDishes (req_body taco_request)) taco_reversed.
Proof.
  repeat split. apply (data_equiv_objs _ _ taco_fields (rev taco_fields)); [done|done|].
  intros k. unfold obj_lookup, taco_fields. cbn -[String.eqb].
  repeat match goal with |- context [String.eqb ?a k] => destruct (String.eqb a k) eqn:? end;
    repeat match goal with H : String.eqb _ _ = true |- _ => apply String.eqb_eq in H end; congruence.
Qed.

Lemma app_equiv_traces_witness :
  Forall2 app_req_equiv [mk_app_request POST PathDishes (req_body taco_request)] [taco_reversed] /\
  run_trace Halt [mk_app_request POST PathDishes (req_body taco_request)] s_one =
  run_trace Halt [taco_reversed] s_one.
Proof.
  assert (H : Forall2 app_req_equiv [mk_app_request POST PathDishes (req_body taco_request)] [taco_reversed])
    by (constructor; [exact taco_reversed_equiv|constructor]).
  split; [exact H|exact (app_equiv_traces Halt _ _ s_one H)].
Defined.


Lemma app_created_dish_ids_unique_witness :
  app_inv s_one /\
  NoDup (ids (st_dishes s_one) ++
         concat (map created_dish_ids
                   (run_trace Cps [mk_app_request POST PathDishes (req_body taco_request);
                                   mk_app_request POST PathDishes (req_body taco_request)] s_one).2)).
Proof. split; [exact app_inv_s_one|exact (app_created_dish_ids_unique Cps _ s_one app_inv_s_one)]. Defined.

Definition post_taco : app_request := mk_app_request POST PathDishes (req_body taco_request).

Lemma app_wire_inv_s_one : app_wire_inv s_one.
Proof. split; repeat constructor. Qed.

Lemma app_response_types_witness :
  app_inv s_one /\ app_wire_inv s_one /\ is_json (rq_body post_taco) = true /\
  Forall (fun w => Render.wire_typed (route_type POST PathDishes) w = true) (out_wires (handle Express post_taco s_one).2) /\
  app_wire_inv (handle Express post_taco s_one).1.
Proof.
  split; [exact app_inv_s_one|split; [exact app_wire_inv_s_one|split; [reflexivity|]]].
  exact (app_response_types post_taco s_one app_inv_s_one app_wire_inv_s_one eq_refl).
Defined.

End App.
