(* ===== verification/Concurrent.v ===== *)
(** * Concurrent: requests interleaved between middleware functions

    Spec section 5: requests are handled one at a time, each running its
    validation chain and handler to completion; "in a multi-threaded host
    ... concurrent writers would race".  Node runs every chain of this
    application synchronously (no [await], no callback between two
    functions of a chain), so [App.run_trace] is the server.  This file
    models the host the spec warns about: a pool of requests in flight
    over the shared pair of arrays, where any request in flight may run
    its next middleware function ([cstep], executable as [run_sched] on a
    schedule of thread indices).

    - [step_chain] runs one function of a chain and decides, as
      [run_halt] does, whether the chain continues ([Cont]) or has
      answered ([Stop]); [run_halt_step] relates the two.
    - A [thread] is a request in flight on the dish or the order array
      with what is left of its chain and its [res.locals], or a finished
      request with its answer; [spawn] starts one from the route table.
    - [serial_refines_atomic] (a lemma about the two semantics, true of
      any chains): a schedule that runs each request to the
      end before the next one starts gives exactly the states and answers
      of [App.run_trace Halt] (so, by [App.app_express_refines_halt], of
      Express).
    - [dish_requests_linearizable]: any interleaving of dish requests that
      runs them all to the end leaves the state and answers of some
      sequential order of the same requests.  The dish array only grows
      and keeps its ids (no route deletes a dish), so what a validator
      saw stays true until the request's handler runs.
    - [interleaved_app_inv]: whatever the interleaving, both arrays keep
      their invariants ([App.app_inv]): every chain is safe ([chain_ok]:
      each function keeps the invariant, and the rest of the chain is
      reached only by a body that passed the validators before it), by
      rule induction on [rtc cstep].
    - [order_race_not_linearizable] (Section [Race], over any state with
      unique order ids, any pending order and any PUT body the update
      chain accepts): a PUT /orders/:orderId whose validators pass before
      a concurrent DELETE of the same order runs [update] on an array
      without it: [orders.find] gives [undefined] and the assignment
      [foundOrder.deliverTo = ...] throws (a 500), an answer no
      sequential order of the two requests gives.  The step-by-step run
      of the validators is [passes] / [chain_steps_passes].

    [res.locals.dish] and [res.locals.order] are modelled (Dishes.v,
    Orders.v) as the index of the record in its array.  The dish array is
    never spliced, so the index always names the object the code holds.
    The order array is spliced by [destroy]: after a concurrent DELETE the
    index may name another order, where the code would still hold the
    removed object.  Only [read] and [validateOrderId] read it; the
    theorems here on orders do not run either after a splice. *)

From S2P Require Import Prelude Json Middleware Express Store Dishes Orders App.
From stdpp Require Import relations.

Module Concurrent.
Import Dishes.Dishes Orders.Orders App.App.

(** ** One function of a chain *)

Section Chain.
Context {St L P : Type}.
Implicit Types (ms : list (middleware St L P)) (rq : request) (l : L) (x : St).

(** Where a request is in its chain: the functions left and
    [res.locals], or the answer once a function did not call [next()]. *)
Inductive progress : Type :=
| Cont (ms : list (middleware St L P)) (l : L)
| Stop (out : list (emit P)).

Definition step_chain rq ms l x : progress * St :=
  match ms with
  | [] => (Stop [EFallThrough], x)
  | m :: rest =>
      let '(l', x', acts) := m rq l x in
      match acts with
      | ANext :: _ => (Cont rest l', x')
      | a :: _ => (Stop [emit_of a], x')
      | [] => (Stop [], x')
      end
  end.

(** [k] functions of one request, run back to back. *)
Fixpoint chain_steps rq (k : nat) (p : progress) x : progress * St :=
  match k, p with
  | S k, Cont ms l => let '(p', x') := step_chain rq ms l x in chain_steps rq k p' x'
  | _, _ => (p, x)
  end.

Lemma run_halt_step rq ms l x :
  run_halt ms rq l x =
  let '(p, x') := step_chain rq ms l x in
  match p with Cont rest l' => run_halt rest rq l' x' | Stop out => (x', out) end.
Proof. destruct ms as [|m rest]; [done|]. simpl. by destruct (m rq l x) as [[l' x'] [|[] acts]]. Qed.

Lemma chain_steps_stop rq k out x : chain_steps rq k (Stop out) x = (Stop out, x).
Proof. by destruct k. Qed.

(** [length ms + 1] functions run a chain to its answer, the one
    [run_halt] gives. *)
Lemma chain_steps_halt rq ms l x k :
  (length ms < k)%nat -> chain_steps rq k (Cont ms l) x = (Stop (run_halt ms rq l x).2, (run_halt ms rq l x).1).
Proof.
  revert l x k. induction ms as [|m rest IH]; intros l x [|k] Hk; simpl in *; try lia; [by rewrite chain_steps_stop|].
  destruct (m rq l x) as [[l' x'] [|[] acts]]; simpl; rewrite ?chain_steps_stop; [done|apply IH; lia|done..].
Qed.

(** The rest of a chain is safe for an invariant [I] of the shared
    state: each function keeps [I], and once it has let a request through
    ([next()] first) on some state, the rest is safe. *)
Fixpoint chain_ok (I : St -> Prop) rq ms : Prop :=
  match ms with
  | [] => True
  | m :: rest =>
      (forall l x, I x -> I (m rq l x).1.2) /\
      ((exists l x, head (m rq l x).2 = Some ANext) -> chain_ok I rq rest)
  end.

Lemma step_chain_ok (I : St -> Prop) rq ms l x p x' :
  chain_ok I rq ms -> I x -> step_chain rq ms l x = (p, x') ->
  I x' /\ forall rest l', p = Cont rest l' -> chain_ok I rq rest.
Proof.
  destruct ms as [|m ms]; simpl; [intros _ Hx [= <- <-]; by split|].
  intros [Hp Hk] Hx. specialize (Hp l x Hx). destruct (m rq l x) as [[l1 x1] acts] eqn:Hm. simpl in Hp.
  destruct acts as [|[] acts]; intros [= <- <-]; (split; [done|]); try done.
  intros ? ? [= <- <-]. apply Hk. exists l, x. by rewrite Hm.
Qed.

(** A function that does not touch the state. *)
Lemma keep_chain_ok (I : St -> Prop) rq m ms :
  (forall l x, (m rq l x).1.2 = x) ->
  ((exists l x, head (m rq l x).2 = Some ANext) -> chain_ok I rq ms) -> chain_ok I rq (m :: ms).
Proof. intros Hm Hk. split; [intros l x Hx; by rewrite Hm|exact Hk]. Qed.

(** The [bodyDataHas]-style rules: the rest is reached only by a body
    that passes them all. *)
Lemma rules_chain_ok (I : St -> Prop) rq rs ms :
  (check_rules (req_body rq) rs = Some None -> chain_ok I rq ms) -> chain_ok I rq (map rule_mw rs ++ ms).
Proof.
  induction rs as [|r rs IH]; simpl; intros Hk; [by apply Hk|].
  apply keep_chain_ok; [intros l x; unfold rule_mw; by repeat case_match|].
  intros (l & x & Hpass). apply IH. intros Hc. apply Hk. unfold rule_mw in Hpass.
  destruct (body_field (req_body rq) (rule_field r)) as [v|]; [|done]. by destruct (rule_ok r v).
Qed.

(** The handler that ends a chain. *)
Lemma handler_chain_ok (I : St -> Prop) rq m : (forall l x, I x -> I (m rq l x).1.2) -> chain_ok I rq [m].
Proof. intros Hm. by split. Qed.

Lemma run_halt_single (m : middleware St L P) rq l x : (run_halt [m] rq l x).1 = (m rq l x).1.2.
Proof. simpl. by destruct (m rq l x) as [[l' x'] [|[] acts]]. Qed.

(** The validators [pre] all let the request through from [l] on state
    [x], leaving it alone and ending with [res.locals] [l']. *)
Fixpoint passes rq (pre : list (middleware St L P)) (l : L) x (l' : L) : Prop :=
  match pre with
  | [] => l' = l
  | m :: r => exists l1 acts, m rq l x = (l1, x, ANext :: acts) /\ passes rq r l1 x l'
  end.

Lemma passes_app rq pre1 pre2 l x l1 l2 :
  passes rq pre1 l x l1 -> passes rq pre2 l1 x l2 -> passes rq (pre1 ++ pre2) l x l2.
Proof.
  revert l. induction pre1 as [|m pre1 IH]; simpl; intros l; [by intros ->|].
  intros (l0 & acts & Hm & Hp) H2. exists l0, acts. split; [done|]. by apply IH.
Qed.

Lemma rules_passes rq rs l x : check_rules (req_body rq) rs = Some None -> passes rq (map rule_mw rs) l x l.
Proof.
  induction rs as [|r rs IH]; simpl; [done|]. unfold rule_mw.
  destruct (body_field (req_body rq) (rule_field r)) as [v|]; [|done].
  destruct (rule_ok r v); [|done]. intros Hc. exists l, []. split; [done|]. by apply IH.
Qed.

(** Functions that let the request through take one step each. *)
Lemma chain_steps_passes rq pre post l x l' n k :
  k = (length pre + n)%nat -> passes rq pre l x l' ->
  chain_steps rq k (Cont (pre ++ post) l) x = chain_steps rq n (Cont post l') x.
Proof.
  intros ->. revert l. induction pre as [|m pre IH]; simpl; intros l; [by intros ->|].
  intros (l1 & acts & Hm & Hp). rewrite Hm. by apply IH.
Qed.

End Chain.

Arguments progress : clear implicits.
Arguments Cont {St L P} ms l.
Arguments Stop {St L P} out.

(** ** Requests in flight *)

Section Threads.
Context `{!IdGen}.

Inductive thread : Type :=
| TDish (rq : request) (ms : list (middleware (list dish) Dishes.locals Dishes.payload)) (l : Dishes.locals)
| TOrder (rq : request) (ms : list (middleware (list order) Orders.locals Orders.payload)) (l : Orders.locals)
| TDone (o : app_out).

Definition dish_thread (rq : request) (p : progress (list dish) Dishes.locals Dishes.payload) : thread :=
  match p with Cont ms l => TDish rq ms l | Stop out => TDone (ODish out) end.

Definition order_thread (rq : request) (p : progress (list order) Orders.locals Orders.payload) : thread :=
  match p with Cont ms l => TOrder rq ms l | Stop out => TDone (OOrder out) end.

(** A request arrives: the router picks its chain, [res.locals] is empty. *)
Definition spawn (rq : app_request) : thread :=
  match route (rq_method rq) (rq_path rq) with
  | DishChain ms => TDish (to_request rq) ms None
  | OrderChain ms => TOrder (to_request rq) ms None
  | NoRoute => TDone ONoRoute
  end.

(** The thread runs its next function on the shared arrays. *)
Definition step_thread (t : thread) (s : app_state) : thread * app_state :=
  match t with
  | TDish rq ms l =>
      let '(p, ds) := step_chain rq ms l (st_dishes s) in (dish_thread rq p, mk_state ds (st_orders s))
  | TOrder rq ms l =>
      let '(p, os) := step_chain rq ms l (st_orders s) in (order_thread rq p, mk_state (st_dishes s) os)
  | TDone o => (TDone o, s)
  end.

Definition config : Type := list thread * app_state.

(** Any request in flight may take the next step. *)
Inductive cstep : config -> config -> Prop :=
| cstep_thread ts1 t ts2 s :
    cstep (ts1 ++ t :: ts2, s) (ts1 ++ (step_thread t s).1 :: ts2, (step_thread t s).2).

(** A schedule: the index of the thread that steps, one after the other. *)
Definition sched_step (c : config) (i : nat) : config :=
  match c.1 !! i with
  | Some t => let '(t', s') := step_thread t c.2 in (<[i:=t']> c.1, s')
  | None => c
  end.

Definition run_sched (sch : list nat) (c : config) : config := foldl sched_step c sch.

(** Steps that run a thread to its answer. *)
Definition thread_fuel (t : thread) : nat :=
  match t with TDish _ ms _ => S (length ms) | TOrder _ ms _ => S (length ms) | TDone _ => 0 end.

(** Each thread in turn, to the end, from thread [i] on. *)
Fixpoint serial_from (i : nat) (ts : list thread) : list nat :=
  match ts with [] => [] | t :: r => replicate (thread_fuel t) i ++ serial_from (S i) r end.

Definition serial_sched (ts : list thread) : list nat := serial_from 0 ts.

Definition is_done (t : thread) : bool := match t with TDone _ => true | _ => false end.

(** The answer of a finished request. *)
Definition done_out (t : thread) : app_out := match t with TDone o => o | _ => ONoRoute end.

#[export] Instance app_request_inhabited : Inhabited app_request := populate (mk_app_request GET PathDishes JNull).
#[export] Instance app_out_inhabited : Inhabited app_out := populate ONoRoute.
#[export] Instance thread_inhabited : Inhabited thread := populate (TDone ONoRoute).

(** A concurrent run of [rqs] from [s] that ended in [s'] with the
    answers [outs] (by request) is linearizable when some order [p] of the
    same requests, run one after the other, gives [s'] and those answers. *)
Definition linearizable (rqs : list app_request) (s : app_state) (outs : list app_out) (s' : app_state) : Prop :=
  exists p, p ≡ₚ seq 0 (length rqs) /\
            run_trace Halt (map (fun i => rqs !!! i) p) s = (s', map (fun i => outs !!! i) p).

End Threads.

(** ** Schedules *)

Section Serial.
Context `{!IdGen}.
Implicit Types (ts : list thread) (s : app_state) (c : config).

Lemma run_sched_cons i sch c : run_sched (i :: sch) c = run_sched sch (sched_step c i).
Proof. done. Qed.

Lemma run_sched_app l1 l2 c : run_sched (l1 ++ l2) c = run_sched l2 (run_sched l1 c).
Proof. apply foldl_app. Qed.

(** A scheduled step is a step of the relation (or none, for an index
    past the pool). *)
Lemma sched_step_rtc c i : rtc cstep c (sched_step c i).
Proof.
  destruct c as [ts s]. unfold sched_step. simpl.
  destruct (ts !! i) as [t|] eqn:Ht; [|done].
  pose proof (lookup_lt_Some _ _ _ Ht) as Hi.
  destruct (step_thread t s) as [t' s'] eqn:Hst. apply rtc_once.
  rewrite <- (take_drop_middle ts i t Ht) at 1. rewrite insert_take_drop by done.
  replace t' with (step_thread t s).1 by (by rewrite Hst). replace s' with (step_thread t s).2 by (by rewrite Hst).
  constructor.
Qed.

Lemma run_sched_rtc sch c : rtc cstep c (run_sched sch c).
Proof.
  revert c. induction sch as [|i sch IH]; intros c; [done|]. simpl.
  etrans; [apply sched_step_rtc|apply IH].
Qed.

(** Scheduling one thread [k] times runs [k] functions of its chain. *)
Lemma dish_thread_run ts s i rq p k :
  ts !! i = Some (dish_thread rq p) ->
  run_sched (replicate k i) (ts, s) =
  (<[i:=dish_thread rq (chain_steps rq k p (st_dishes s)).1]> ts, mk_state (chain_steps rq k p (st_dishes s)).2 (st_orders s)).
Proof.
  revert ts s p. induction k as [|k IH]; intros ts s p Hi.
  - simpl. rewrite list_insert_id by done. by destruct s.
  - cbn [replicate]. rewrite run_sched_cons. unfold sched_step. simpl. rewrite Hi. destruct p as [ms l|out].
    + simpl. destruct (step_chain rq ms l (st_dishes s)) as [p' ds'] eqn:Hs. simpl.
      pose proof (lookup_lt_Some _ _ _ Hi) as Hlt.
      rewrite (IH _ _ p'); [|by rewrite list_lookup_insert_eq].
      rewrite list_insert_insert_eq; reflexivity.
    + simpl. rewrite list_insert_id by done. rewrite (IH _ _ (Stop out)), chain_steps_stop by done.
      simpl. by rewrite list_insert_id.
Qed.

Lemma order_thread_run ts s i rq p k :
  ts !! i = Some (order_thread rq p) ->
  run_sched (replicate k i) (ts, s) =
  (<[i:=order_thread rq (chain_steps rq k p (st_orders s)).1]> ts, mk_state (st_dishes s) (chain_steps rq k p (st_orders s)).2).
Proof.
  revert ts s p. induction k as [|k IH]; intros ts s p Hi.
  - simpl. rewrite list_insert_id by done. by destruct s.
  - cbn [replicate]. rewrite run_sched_cons. unfold sched_step. simpl. rewrite Hi. destruct p as [ms l|out].
    + simpl. destruct (step_chain rq ms l (st_orders s)) as [p' os'] eqn:Hs. simpl.
      pose proof (lookup_lt_Some _ _ _ Hi) as Hlt.
      rewrite (IH _ _ p'); [|by rewrite list_lookup_insert_eq].
      rewrite list_insert_insert_eq; reflexivity.
    + simpl. rewrite list_insert_id by done. rewrite (IH _ _ (Stop out)), chain_steps_stop by done.
      simpl. by rewrite list_insert_id.
Qed.

(** A request run alone to the end is [handle] under the short-circuit
    pipeline. *)
Lemma spawn_run ts s i rq :
  ts !! i = Some (spawn rq) ->
  run_sched (replicate (thread_fuel (spawn rq)) i) (ts, s) =
  (<[i:=TDone (handle Halt rq s).2]> ts, (handle Halt rq s).1).
Proof.
  unfold spawn. destruct (route (rq_method rq) (rq_path rq)) as [ms|ms|] eqn:Hr; intros Hi.
  - rewrite (handle_dish Halt rq s ms Hr). cbn [thread_fuel].
    rewrite (dish_thread_run ts s i (to_request rq) (Cont ms None)) by done.
    rewrite chain_steps_halt by lia. reflexivity.
  - rewrite (handle_order Halt rq s ms Hr). cbn [thread_fuel].
    rewrite (order_thread_run ts s i (to_request rq) (Cont ms None)) by done.
    rewrite chain_steps_halt by lia. reflexivity.
  - rewrite (handle_none Halt rq s Hr). simpl. by rewrite list_insert_id.
Qed.

Lemma serial_from_run outs rqs s :
  run_sched (serial_from (length outs) (map spawn rqs)) (map TDone outs ++ map spawn rqs, s) =
  (map TDone (outs ++ (run_trace Halt rqs s).2), (run_trace Halt rqs s).1).
Proof.
  revert outs s. induction rqs as [|rq rqs IH]; intros outs s; simpl; [by rewrite !app_nil_r|].
  rewrite run_sched_app, spawn_run; [|by rewrite lookup_app_r, length_map, Nat.sub_diag by (by rewrite length_map)].
  rewrite insert_app_r_alt, length_map, Nat.sub_diag by (by rewrite length_map). simpl.
  replace (map TDone outs ++ TDone (handle Halt rq s).2 :: map spawn rqs)
    with (map TDone (outs ++ [(handle Halt rq s).2]) ++ map spawn rqs) by (by rewrite map_app, <- app_assoc).
  replace (S (length outs)) with (length (outs ++ [(handle Halt rq s).2])) by (rewrite length_app; simpl; lia).
  rewrite IH. destruct (handle Halt rq s) as [s1 o]. simpl.
  destruct (run_trace Halt rqs s1). simpl. by rewrite <- app_assoc.
Qed.

(** ** Serial schedules are the server of spec section 5 *)

(** The atomic server is the serial schedule of the interleaving
    semantics: starting every request of [rqs] at once and running each,
    in order, to its answer before the next takes a step gives the final
    arrays and the answers, request by request, of serving [rqs] one at a
    time ([App.run_trace] under the short-circuit pipeline, which Express
    4 refines). *)
Lemma serial_refines_atomic rqs s :
  run_sched (serial_sched (map spawn rqs)) (map spawn rqs, s) =
  (map TDone (run_trace Halt rqs s).2, (run_trace Halt rqs s).1).
Proof. exact (serial_from_run [] rqs s). Qed.

End Serial.

(** ** The invariants hold under any interleaving *)

Section Safety.
Context `{!IdGen}.

Definition thread_safe (t : thread) : Prop :=
  match t with
  | TDish r ms _ => chain_ok dishes_inv r ms
  | TOrder r ms _ => chain_ok orders_inv r ms
  | TDone _ => True
  end.

Definition conf_ok (c : config) : Prop := app_inv c.2 /\ Forall thread_safe c.1.

(** Each handler keeps the invariant of its array once the body passed
    the validators before it, whatever the array is when it runs. *)
Lemma dish_create_keeps rq l ds :
  check_rules (req_body rq) dish_rules = Some None -> dishes_inv ds -> dishes_inv (Dishes.create rq l ds).1.2.
Proof.
  intros Hc Hinv. destruct (dish_fields_rules _ Hc) as (nm & de & pr & im & Hf & Hok).
  unfold Dishes.create. rewrite Hf. simpl. apply (dish_effect_inv ds); [done|].
  apply eff_push; [apply next_id_fresh|apply (proj1 (Hok _))].
Qed.

Lemma dish_update_keeps rq l ds :
  check_rules (req_body rq) dish_rules = Some None -> dishes_inv ds -> dishes_inv (Dishes.update rq l ds).1.2.
Proof.
  intros Hc Hinv. destruct (dish_fields_rules _ Hc) as (nm & de & pr & im & Hf & Hok).
  unfold Dishes.update. rewrite Hf. destruct l as [i|]; [|done]. destruct (ds !! i) as [f|] eqn:Hi; [|done].
  simpl. apply (dish_effect_inv ds); [done|]. eapply eff_overwrite; [exact Hi|done|apply (proj1 (Hok _))].
Qed.

Lemma order_create_keeps rq l os :
  check_rules (req_body rq) order_rules = Some None -> body_dishes_ok (req_body rq) = true ->
  orders_inv os -> orders_inv (Orders.create rq l os).1.2.
Proof.
  intros Hc Hd Hinv. rewrite <- run_halt_single. apply (order_effect_inv os); [done|].
  exact (proj1 (create_handler_effect rq l os Hc Hd)).
Qed.

Lemma order_update_keeps rq l os :
  check_rules (req_body rq) update_rules = Some None -> body_dishes_ok (req_body rq) = true ->
  orders_inv os -> orders_inv (Orders.update rq l os).1.2.
Proof.
  intros Hc Hd Hinv. destruct (find_by_id (req_param rq) os) as [[i f]|] eqn:Hf.
  - rewrite <- run_halt_single. apply (order_effect_inv os); [done|].
    exact (proj1 (update_handler_effect rq l os i f Hf Hc Hd)).
  - unfold Orders.update. rewrite Hf. by repeat case_match.
Qed.

(** [destroy] removes whatever order has the id when it runs. *)
Lemma order_destroy_keeps rq l os : orders_inv os -> orders_inv (Orders.destroy rq l os).1.2.
Proof.
  intros [Hu Hok]. destruct (find_by_id (req_param rq) os) as [[i f]|] eqn:Hf.
  - rewrite (destroy_found rq l os i f Hf). simpl. split; [by apply unique_ids_delete|by apply Forall_delete].
  - unfold Orders.destroy. rewrite array_find_index_None by exact Hf. simpl. by split.
Qed.

Lemma head_next_elem {P} (acts : list (act P)) : head acts = Some ANext -> ANext ∈ acts.
Proof. destruct acts; simpl; [done|]. intros [= ->]. by left. Qed.

Ltac keeps m := intros ??; unfold m; repeat case_match; reflexivity.

Lemma dish_routes_safe n ms rq : dish_routes !! n = Some ms -> chain_ok dishes_inv rq ms.
Proof.
  destruct n as [|[|[|[|n]]]]; simpl; intros [= <-].
  - apply handler_chain_ok. intros l x Hx. exact Hx.
  - rewrite exports_create_rules. apply rules_chain_ok. intros Hc.
    apply handler_chain_ok. intros l x. by apply dish_create_keeps.
  - apply keep_chain_ok; [keeps Dishes.dishExists|intros _]. apply handler_chain_ok. intros l x Hx. exact Hx.
  - rewrite exports_update_rules. apply keep_chain_ok; [keeps Dishes.dishExists|intros _].
    apply keep_chain_ok; [keeps Dishes.validateDishId|intros _]. apply rules_chain_ok. intros Hc.
    apply handler_chain_ok. intros l x. by apply dish_update_keeps.
Qed.

Lemma order_routes_safe n ms rq : order_routes !! n = Some ms -> chain_ok orders_inv rq ms.
Proof.
  destruct n as [|[|[|[|[|n]]]]]; simpl; intros [= <-].
  - apply handler_chain_ok. intros l x Hx. exact Hx.
  - rewrite order_exports_create_rules. apply rules_chain_ok. intros Hc.
    apply keep_chain_ok; [keeps Orders.validateDishQuantity|intros (l & x & Hn)].
    apply handler_chain_ok. intros l' x'. apply order_create_keeps; [done|].
    exact (validateDishQuantity_next rq l x (head_next_elem _ Hn)).
  - apply keep_chain_ok; [keeps Orders.orderExists|intros _]. apply handler_chain_ok. intros l x Hx. exact Hx.
  - rewrite order_exports_update_rules. apply keep_chain_ok; [keeps Orders.orderExists|intros _].
    apply rules_chain_ok. intros Hc.
    apply keep_chain_ok; [keeps Orders.validateOrderId|intros _].
    apply keep_chain_ok; [keeps Orders.validateStatusProperty|intros _].
    apply keep_chain_ok; [keeps Orders.validateDishQuantity|intros (l & x & Hn)].
    apply handler_chain_ok. intros l' x'. apply order_update_keeps; [done|].
    exact (validateDishQuantity_next rq l x (head_next_elem _ Hn)).
  - apply keep_chain_ok; [keeps Orders.orderExists|intros _].
    apply keep_chain_ok; [keeps Orders.validateOrderStatus|intros _].
    apply handler_chain_ok. intros l x. apply order_destroy_keeps.
Qed.

Lemma spawn_safe rq : thread_safe (spawn rq).
Proof.
  unfold spawn. destruct (route (rq_method rq) (rq_path rq)) as [ms|ms|] eqn:Hr; simpl; [..|done].
  - destruct (route_dish _ _ _ Hr) as [n Hn]. exact (dish_routes_safe n ms _ Hn).
  - destruct (route_order _ _ _ Hr) as [n Hn]. exact (order_routes_safe n ms _ Hn).
Qed.

Lemma cstep_conf_ok c c' : conf_ok c -> cstep c c' -> conf_ok c'.
Proof.
  intros [[Hd Ho] Hts] Hst. destruct Hst as [ts1 t ts2 s].
  apply Forall_app in Hts as [H1 H2]. apply Forall_cons in H2 as [Ht H2]. simpl in *.
  destruct t as [r ms l|r ms l|o]; simpl in *.
  - destruct (step_chain r ms l (st_dishes s)) as [p ds'] eqn:Hst.
    destruct (step_chain_ok _ _ _ _ _ _ _ Ht Hd Hst) as [Hd' Hk].
    split; [by split|]. apply Forall_app. split; [done|]. constructor; [|done].
    destruct p as [rest l'|out]; simpl; [by eapply Hk|done].
  - destruct (step_chain r ms l (st_orders s)) as [p os'] eqn:Hst.
    destruct (step_chain_ok _ _ _ _ _ _ _ Ht Ho Hst) as [Ho' Hk].
    split; [by split|]. apply Forall_app. split; [done|]. constructor; [|done].
    destruct p as [rest l'|out]; simpl; [by eapply Hk|done].
  - split; [by split|]. apply Forall_app. split; [done|by constructor].
Qed.

Lemma rtc_conf_ok c c' : conf_ok c -> rtc cstep c c' -> conf_ok c'.
Proof. intros Hc Hr. induction Hr as [|c1 c2 c3 Hst _ IH]; [done|]. by apply IH, (cstep_conf_ok c1). Qed.

(** C19: the invariants of the two arrays (unique ids, records that passed
    the validators) hold in every state a concurrent host can reach,
    whatever the interleaving of the requests in flight: each validator
    reads the request only or leaves the arrays alone, and each handler
    keeps the invariant on whatever array it finds once the body has
    passed the validators before it ([update] on an order deleted in the
    meantime throws and writes nothing; [destroy] removes whatever order
    has the id). *)
Theorem interleaved_app_inv rqs s c : app_inv s -> rtc cstep (map spawn rqs, s) c -> app_inv c.2.
Proof.
  intros Hs Hr. apply (rtc_conf_ok (map spawn rqs, s)); [split; [done|]|done].
  simpl. rewrite map_fmap. apply Forall_fmap, Forall_forall. intros rq _. apply spawn_safe.
Qed.

End Safety.

(** ** Dish requests are linearizable *)

Section Linear.
Context `{!IdGen}.
Implicit Types (ds : list dish) (s : app_state) (c : config).

Notation dmw := (middleware (list dish) Dishes.locals Dishes.payload).

(** A function whose [next()] does not change the array, and survives
    any later growth of it. *)
Definition dish_stable (m : dmw) : Prop :=
  forall rq l ds l' ds' acts, m rq l ds = (l', ds', ANext :: acts) ->
    ds' = ds /\ forall ys, ids ds `prefix_of` ids ys -> m rq l ys = (l', ys, ANext :: acts).

(** A validator that reads only the request. *)
Lemma body_only_stable (m : dmw) (f : request -> Dishes.locals -> list (act Dishes.payload)) :
  (forall rq l ds, m rq l ds = (l, ds, f rq l)) -> dish_stable m.
Proof. intros Hm rq l ds l' ds' acts. rewrite !Hm. intros [= -> -> Hf]. split; [done|]. intros ys _. by rewrite Hm, Hf. Qed.

(** A handler: it never calls [next()]. *)
Lemma handler_stable (m : dmw) : (forall rq l ds l' ds' acts, m rq l ds <> (l', ds', ANext :: acts)) -> dish_stable m.
Proof. intros Hm rq l ds l' ds' acts Heq. by destruct (Hm _ _ _ _ _ _ Heq). Qed.

Ltac dish_unf :=
  unfold Dishes.bodyDataHas, Dishes.validatePrice, Dishes.list_, Dishes.create, Dishes.read, Dishes.update,
    mw_next, mw_fail, mw_throw, mw_send.

Lemma dishExists_stable : dish_stable Dishes.dishExists.
Proof.
  intros rq l ds l' ds' acts. unfold Dishes.dishExists.
  destruct (find_by_id (req_param rq) ds) as [[i d]|] eqn:Hf; [intros [= <- <- <-]|done].
  split; [done|]. intros ys Hp. destruct (find_by_id_prefix _ _ _ _ _ Hp Hf) as [y ->]. done.
Qed.

Lemma validateDishId_stable : dish_stable Dishes.validateDishId.
Proof.
  intros rq l ds l' ds' acts. unfold Dishes.validateDishId, Dishes.found_dish.
  destruct (Dishes.body_id rq) as [id|]; [|done]. destruct (truthy id); [|intros [= <- <- <-]; split; [done|]; by intros].
  destruct l as [i|]; simpl; [|done]. destruct (ds !! i) as [f|] eqn:Hi; [|done].
  destruct (strict_eq_str id (dish_id f)) eqn:He; [intros [= <- <- <-]|done].
  split; [done|]. intros ys Hp. destruct (ids_prefix_lookup _ _ _ _ Hp Hi) as (y & -> & Hid).
  change (dish_id y = dish_id f) in Hid. by rewrite Hid, He.
Qed.

Lemma dish_routes_stable n ms : dish_routes !! n = Some ms -> Forall dish_stable ms.
Proof.
  destruct n as [|[|[|[|n]]]]; simpl; intros [= <-];
    repeat apply List.Forall_cons; try apply List.Forall_nil;
    match goal with
    | |- dish_stable Dishes.dishExists => exact dishExists_stable
    | |- dish_stable Dishes.validateDishId => exact validateDishId_stable
    | |- dish_stable ?m =>
        first [apply handler_stable; intros ??????; dish_unf; repeat case_match; congruence
              |apply (body_only_stable m (fun rq l => (m rq l []).2)); intros ???; dish_unf; repeat case_match; done]
    end.
Qed.

(** A request the route table sends to a dish chain. *)
Definition dish_routed (rq : app_request) : Prop := exists ms, route (rq_method rq) (rq_path rq) = DishChain ms.

(** The simulation: running what is left of the thread's chain from any
    array that extends [ds] gives what the whole chain gives there. *)
Definition dish_sim (rq : app_request) (r : request) (ms : list dmw) (l : Dishes.locals) ds : Prop :=
  exists full, route (rq_method rq) (rq_path rq) = DishChain full /\ r = to_request rq /\ Forall dish_stable ms /\
    forall ys, ids ds `prefix_of` ids ys -> run_halt ms r l ys = run_halt full r None ys.

Definition thread_ok (rq : app_request) (t : thread) ds : Prop :=
  match t with TDish r ms l => dish_sim rq r ms l ds | TOrder _ _ _ => False | TDone _ => True end.

(** The invariant of a concurrent run of dish requests: the requests that
    have answered, in the order they answered, run one after the other
    from [s0], give the current arrays and their answers; every other
    thread simulates its request. *)
Definition lin_inv (rqs : list app_request) (s0 : app_state) (c : config) : Prop :=
  length c.1 = length rqs /\
  (forall i t, c.1 !! i = Some t -> thread_ok (rqs !!! i) t (st_dishes c.2)) /\
  exists p, NoDup p /\ (forall i, i ∈ p <-> exists o, c.1 !! i = Some (TDone o)) /\
            run_trace Halt (map (fun i => rqs !!! i) p) s0 = (c.2, map (fun i => done_out (c.1 !!! i)) p).

Lemma thread_ok_grow rq t ds ds' : ids ds `prefix_of` ids ds' -> thread_ok rq t ds -> thread_ok rq t ds'.
Proof.
  destruct t as [r ms l| |]; simpl; [|done..]. intros Hp (full & Hr & -> & Hs & Hsim).
  exists full. do 3 (split; [done|]). intros ys Hy. apply Hsim. by trans (ids ds').
Qed.

(** A validator that lets the request through leaves the arrays alone and
    the rest of the chain simulates the request. *)
Lemma dish_sim_cont rq r ms l ds rest l' ds' :
  dish_sim rq r ms l ds -> step_chain r ms l ds = (Cont rest l', ds') -> ds' = ds /\ dish_sim rq r rest l' ds.
Proof.
  intros (full & Hr & -> & Hs & Hsim). destruct ms as [|m ms]; simpl; [done|].
  destruct (m (to_request rq) l ds) as [[l1 ds1] acts] eqn:Hm. destruct acts as [|[] acts]; try done.
  intros [= <- <- <-]. apply List.Forall_cons_iff in Hs as [Hm' Hs]. destruct (Hm' _ _ _ _ _ _ Hm) as [-> Hy].
  split; [done|]. exists full. do 3 (split; [done|]). intros ys Hp.
  rewrite <- (Hsim ys Hp). simpl. by rewrite (Hy ys Hp).
Qed.

(** The step that answers is the whole request, run atomically there. *)
Lemma dish_sim_stop rq r ms l s out ds' :
  dish_sim rq r ms l (st_dishes s) -> step_chain r ms l (st_dishes s) = (Stop out, ds') ->
  handle Halt rq s = (mk_state ds' (st_orders s), ODish out).
Proof.
  intros (full & Hr & -> & _ & Hsim) Hst. rewrite (handle_dish Halt rq s full Hr). simpl.
  rewrite <- (Hsim (st_dishes s)) by done. rewrite run_halt_step, Hst. done.
Qed.

Lemma lin_inv_init rqs s0 : Forall dish_routed rqs -> lin_inv rqs s0 (map spawn rqs, s0).
Proof.
  intros Hd. unfold lin_inv. simpl. rewrite map_fmap. split; [apply length_fmap|]. split.
  - intros i t Ht. rewrite list_lookup_fmap in Ht. destruct (rqs !! i) as [rq|] eqn:Hi; simplify_eq/=.
    rewrite (list_lookup_total_correct _ _ _ Hi). apply Forall_lookup_1 with (i := i) (x := rq) in Hd as [ms Hr]; [|done].
    unfold spawn. rewrite Hr. exists ms. split_and!; [done|done| |done].
    destruct (route_dish _ _ _ Hr) as [n Hn]. exact (dish_routes_stable n ms Hn).
  - exists []. split_and!; [constructor| |done]. intros i. rewrite list_lookup_fmap. split; [by intros ?%not_elem_of_nil|].
    intros [o Ho]. destruct (rqs !! i) as [rq|] eqn:Hi; simplify_eq/=.
    apply Forall_lookup_1 with (i := i) (x := rq) in Hd as [ms Hr]; [|done]. unfold spawn in Ho. by rewrite Hr in Ho.
Qed.

(** Answers of the finished requests, after a thread that had not
    finished steps. *)
Lemma done_outs_insert (p : list nat) (ts : list thread) i (t t' : thread) :
  ts !! i = Some t -> (forall j, j ∈ p -> j <> i) ->
  map (fun j => done_out (<[i:=t']> ts !!! j)) p = map (fun j => done_out (ts !!! j)) p.
Proof.
  intros Hi Hp. apply map_ext_in. intros j Hj%list_elem_of_In.
  by rewrite list_lookup_total_insert_ne by (intros <-; by apply (Hp i)).
Qed.

Lemma lin_inv_step rqs s0 c i : lin_inv rqs s0 c -> lin_inv rqs s0 (sched_step c i).
Proof.
  intros Hinv. unfold sched_step. destruct (c.1 !! i) as [t|] eqn:Hi; [|exact Hinv].
  destruct c as [ts s]. pose proof Hinv as (Hlen & Hok & p & Hnd & Hp & Htr). simpl in *.
  pose proof (lookup_lt_Some _ _ _ Hi) as Hlt. pose proof (Hok i t Hi) as Ht.
  destruct t as [r ms l|r ms l|o]; simpl in Ht; [|done|].
  2:{ simpl. rewrite list_insert_id by done. exact Hinv. }
  assert (Hnot : forall j, j ∈ p -> j <> i).
  { intros j Hj Hji. subst j. apply Hp in Hj as [o Ho]. congruence. }
  simpl. destruct (step_chain r ms l (st_dishes s)) as [[rest l'|out] ds'] eqn:Hst; simpl.
  - destruct (dish_sim_cont _ _ _ _ _ _ _ _ Ht Hst) as [-> Hsim].
    unfold lin_inv. simpl. split; [by rewrite length_insert|]. split.
    + intros j t Hj. destruct (decide (i = j)) as [<-|Hne].
      * rewrite list_lookup_insert_eq in Hj by done. by injection Hj as <-.
      * rewrite list_lookup_insert_ne in Hj by done. destruct s. by apply Hok.
    + exists p. split_and!; [done| |].
      * intros j. rewrite Hp. destruct (decide (i = j)) as [<-|Hne].
        -- rewrite list_lookup_insert_eq, Hi by done. split; intros [o Ho]; discriminate.
        -- by rewrite list_lookup_insert_ne.
      * rewrite (done_outs_insert p ts i _ _ Hi Hnot), Htr. by destruct s.
  - pose proof (dish_sim_stop _ _ _ _ _ _ _ Ht Hst) as Hh.
    assert (Hpre : ids (st_dishes s) `prefix_of` ids ds').
    { pose proof (proj1 (handle_effect Halt (rqs !!! i) s)) as He. rewrite Hh in He. exact (dish_effect_ids _ _ He). }
    unfold lin_inv. simpl. split; [by rewrite length_insert|]. split.
    + intros j t Hj. destruct (decide (i = j)) as [<-|Hne].
      * rewrite list_lookup_insert_eq in Hj by done. by injection Hj as <-.
      * rewrite list_lookup_insert_ne in Hj by done. exact (thread_ok_grow _ _ _ _ Hpre (Hok j t Hj)).
    + exists (p ++ [i]). split_and!.
      * apply NoDup_app. split_and!; [done| |apply NoDup_singleton].
        intros j Hj ->%list_elem_of_singleton. exact (Hnot i Hj eq_refl).
      * intros j. rewrite elem_of_app, list_elem_of_singleton, Hp. destruct (decide (i = j)) as [<-|Hne].
        -- rewrite list_lookup_insert_eq by done. split; [eauto|by right].
        -- rewrite list_lookup_insert_ne by done. split; [intros [|]; [done|congruence]|by left].
      * rewrite map_app, run_trace_app, Htr, map_app. simpl. rewrite Hh.
        rewrite (done_outs_insert p ts i _ _ Hi Hnot), list_lookup_total_insert_eq by done. done.
Qed.

Lemma lin_inv_run rqs s0 sch c : lin_inv rqs s0 c -> lin_inv rqs s0 (run_sched sch c).
Proof.
  revert c. induction sch as [|i sch IH]; intros c Hc; [done|].
  rewrite run_sched_cons. apply IH, lin_inv_step, Hc.
Qed.

(** C17: dish requests are linearizable under any interleaving.  Start
    every request of [rqs] (each routed to a dish chain) at once from any
    state and run their middleware functions in any order [sch]; once
    all have answered, the arrays and the answers are those of some
    order of the same requests served one at a time.  The order is the
    order in which the requests answered: the dish array only grows and
    keeps its ids, so what [dishExists], [validateDishId] and the body
    validators let through stays let through until the handler runs, and
    the handler's step is the whole request, run atomically. *)
Theorem dish_requests_linearizable rqs s sch :
  Forall dish_routed rqs ->
  forallb is_done (run_sched sch (map spawn rqs, s)).1 = true ->
  linearizable rqs s (map done_out (run_sched sch (map spawn rqs, s)).1) (run_sched sch (map spawn rqs, s)).2.
Proof.
  intros Hd Hall. pose proof (lin_inv_run rqs s sch _ (lin_inv_init rqs s Hd)) as Hinv.
  destruct (run_sched sch (map spawn rqs, s)) as [ts s'] eqn:Hc. simpl in *.
  destruct Hinv as (Hlen & _ & p & Hnd & Hp & Htr). simpl in *.
  exists p. split.
  - apply NoDup_Permutation; [done|apply NoDup_seq|]. intros j. rewrite Hp, elem_of_seq. split.
    + intros [o Ho]. apply lookup_lt_Some in Ho. lia.
    + intros [_ Hj]. rewrite <- Hlen in Hj. destruct (lookup_lt_is_Some_2 ts j) as [t Ht]; [lia|].
      assert (Hdone : is_done t = true).
      { apply (proj1 (forallb_forall _ _) Hall), list_elem_of_In. by eapply list_elem_of_lookup_2. }
      destruct t; try done. eauto.
  - rewrite Htr. f_equal. apply map_ext_in. intros j Hj%list_elem_of_In. apply Hp in Hj as [o Ho].
    rewrite map_fmap. erewrite list_lookup_total_fmap; [done|]. by eapply lookup_lt_Some.
Qed.

End Linear.

(** ** A race on orders *)

(** PUT /orders/:orderId and DELETE /orders/:orderId on the same id. *)
Definition race_pair (k : string) (body : jsval) : list app_request :=
  [mk_app_request PUT (PathOrder k) body; mk_app_request DELETE (PathOrder k) (JObj [])].

(** The eight validators of the PUT, then the whole DELETE, then the
    PUT's [update]. *)
Definition race_schedule : list nat := replicate 8 0%nat ++ replicate 4 1%nat ++ [0%nat].

(** The functions of [exports_update] before its handler. *)
Definition put_validators : list (middleware (list order) Orders.locals Orders.payload) :=
  Orders.orderExists :: map rule_mw update_rules ++
  [Orders.validateOrderId; Orders.validateStatusProperty; Orders.validateDishQuantity].

Lemma exports_update_validators : Orders.exports_update = put_validators ++ [Orders.update].
Proof. reflexivity. Qed.

Lemma two_perms (p : list nat) : p ≡ₚ [0%nat; 1%nat] -> p = [0%nat; 1%nat] \/ p = [1%nat; 0%nat].
Proof. intros Hp. symmetry in Hp. by apply Permutation_length_2_inv in Hp. Qed.

(** [update] finds no order: [foundOrder.deliverTo = ...] throws. *)
Lemma update_missing rq l os : find_by_id (req_param rq) os = None -> Orders.update rq l os = (l, os, [AThrow]).
Proof. intros Hf. unfold Orders.update. rewrite Hf. by repeat case_match. Qed.

(** A pending order [k] at index [i], and a PUT body every validator of
    the update chain accepts. *)
Section Race.
Context `{!IdGen}.
Variables (s : app_state) (k : string) (body : jsval) (i : nat) (f : order) (st : jsval).
Hypothesis H_unique : unique_ids (st_orders s).
Hypothesis H_found : find_by_id k (st_orders s) = Some (i, f).
Hypothesis H_pending : is_pending f = true.
Hypothesis H_rules : check_rules body update_rules = Some None.
Hypothesis H_no_conflict : body_id_conflict (mk_request k body) = false.
Hypothesis H_status : body_status (mk_request k body) = Some st.
Hypothesis H_updatable : updatable_status st = true.
Hypothesis H_dishes : body_dishes_ok body = true.

Let put_rq : app_request := mk_app_request PUT (PathOrder k) body.
Let del_rq : app_request := mk_app_request DELETE (PathOrder k) (JObj []).

Lemma put_validators_pass : passes (mk_request k body) put_validators None (st_orders s) (Some i).
Proof.
  destruct (find_order_Some _ _ _ _ H_found) as [Hi Hid].
  destruct (update_rules_reads (mk_request k body) H_rules) as [[id Hbid] _].
  exists (Some i), []. split; [exact (orderExists_found (mk_request k body) None _ i f H_found)|].
  apply (passes_app _ _ _ _ _ (Some i)); [by apply rules_passes|].
  eexists _, []. split; [exact (validateOrderId_pass (mk_request k body) i f _ Hi Hid ltac:(by eexists) H_no_conflict)|].
  eexists _, []. split; [exact (validateStatusProperty_pass (mk_request k body) (Some i) _ st H_status H_updatable)|].
  eexists _, []. split; [exact (validateDishQuantity_pass (mk_request k body) (Some i) _ H_dishes)|]. done.
Qed.

(** Alone, the PUT answers 200. *)
Lemma put_alone : exists o', (handle Halt put_rq s).2 = OOrder [EResp (RJson 200 (POrder o'))].
Proof.
  destruct (update_chain_pass (mk_request k body) None (st_orders s) i f st H_found H_rules H_no_conflict
              H_status H_updatable H_dishes) as [Hrun _].
  destruct (order_rules_fields _ (update_rules_order_rules _ H_rules)) as (dt & mn & st' & ds & _ & _ & _ & _ & _ & _ & _ & Hu).
  rewrite (handle_order Halt put_rq s Orders.exports_update eq_refl).
  change (exists o', OOrder (run_halt Orders.exports_update (mk_request k body) None (st_orders s)).2 =
                     OOrder [EResp (RJson 200 (POrder o'))]).
  rewrite Hrun. simpl. unfold Orders.update. simpl. rewrite Hu, H_found. eexists. reflexivity.
Qed.

(** Alone, the DELETE removes the order and answers 204. *)
Lemma delete_alone : handle Halt del_rq s = (mk_state (st_dishes s) (delete i (st_orders s)), OOrder [EResp (RStatus 204)]).
Proof.
  destruct (delete_found_run (mk_request k (JObj [])) None (st_orders s) i f H_found) as [Hr _].
  rewrite H_pending in Hr. cbv beta iota in Hr.
  rewrite (handle_order Halt del_rq s Orders.exports_delete eq_refl).
  change ((mk_state (st_dishes s) (run_halt Orders.exports_delete (mk_request k (JObj [])) None (st_orders s)).1,
           OOrder (run_halt Orders.exports_delete (mk_request k (JObj [])) None (st_orders s)).2) =
          (mk_state (st_dishes s) (delete i (st_orders s)), OOrder [EResp (RStatus 204)])).
  by rewrite Hr.
Qed.

(** After the DELETE, the PUT answers 404. *)
Lemma put_after_delete :
  (handle Halt put_rq (mk_state (st_dishes s) (delete i (st_orders s)))).2 = OOrder [EError (Orders.not_found_error k)].
Proof.
  rewrite (handle_order Halt put_rq _ Orders.exports_update eq_refl).
  change (OOrder (run_halt Orders.exports_update (mk_request k body) None (delete i (st_orders s))).2 =
          OOrder [EError (Orders.not_found_error k)]).
  unfold Orders.exports_update.
  by rewrite (proj1 (order_missing_run _ (mk_request k body) None _ (find_by_id_delete_found _ _ _ _ H_unique H_found))).
Qed.

Lemma race_run :
  run_sched race_schedule (map spawn (race_pair k body), s) =
  ([TDone (OOrder [EThrow]); TDone (OOrder [EResp (RStatus 204)])], mk_state (st_dishes s) (delete i (st_orders s))).
Proof.
  unfold race_schedule. rewrite !run_sched_app.
  assert (S1 : run_sched (replicate 8 0%nat) (map spawn (race_pair k body), s) =
               ([TOrder (mk_request k body) [Orders.update] (Some i); spawn del_rq], s)).
  { rewrite (order_thread_run _ s 0 (mk_request k body) (Cont Orders.exports_update None) 8) by reflexivity.
    rewrite exports_update_validators.
    rewrite (chain_steps_passes (mk_request k body) put_validators [Orders.update] None (st_orders s) (Some i) 0 8
               eq_refl put_validators_pass).
    simpl. by destruct s. }
  rewrite S1.
  assert (S2 : run_sched (replicate 4 1%nat) ([TOrder (mk_request k body) [Orders.update] (Some i); spawn del_rq], s) =
               ([TOrder (mk_request k body) [Orders.update] (Some i); TDone (OOrder [EResp (RStatus 204)])],
                mk_state (st_dishes s) (delete i (st_orders s)))).
  { change (replicate 4 1%nat) with (replicate (thread_fuel (spawn del_rq)) 1%nat).
    rewrite spawn_run by reflexivity. by rewrite delete_alone. }
  rewrite S2.
  rewrite (order_thread_run _ _ 0 (mk_request k body) (Cont [Orders.update] (Some i)) 1) by reflexivity.
  simpl. rewrite update_missing by exact (find_by_id_delete_found _ _ _ _ H_unique H_found). done.
Qed.

(** C18: order requests are not linearizable when requests interleave
    between middleware functions.  For any state whose orders have
    unique ids, any pending order [k] and any PUT body the update chain
    accepts, the schedule that runs the PUT's eight validators, then the
    DELETE of [k] to its 204, then the PUT's [update] makes the PUT throw
    (orders.find gives undefined, a 500) and leaves the order removed;
    neither order of the two requests served one at a time answers so
    (PUT first: 200 then 204; DELETE first: 204 then 404). *)
Theorem order_race_not_linearizable :
  run_sched race_schedule (map spawn (race_pair k body), s) =
    ([TDone (OOrder [EThrow]); TDone (OOrder [EResp (RStatus 204)])], mk_state (st_dishes s) (delete i (st_orders s))) /\
  ~ linearizable (race_pair k body) s
      (map done_out (run_sched race_schedule (map spawn (race_pair k body), s)).1)
      (run_sched race_schedule (map spawn (race_pair k body), s)).2.
Proof.
  split; [exact race_run|]. rewrite race_run. intros (p & Hp & Hr). destruct (two_perms p Hp) as [->| ->].
  - change (run_trace Halt [put_rq; del_rq] s = (mk_state (st_dishes s) (delete i (st_orders s)),
              [OOrder [EThrow]; OOrder [EResp (RStatus 204)]])) in Hr.
    pose proof (run_trace_lookup Halt [] put_rq [del_rq] s) as Hl. simpl app in Hl. rewrite Hr in Hl.
    destruct put_alone as [o' Ho]. simpl in Hl. rewrite Ho in Hl. discriminate.
  - change (run_trace Halt [del_rq; put_rq] s = (mk_state (st_dishes s) (delete i (st_orders s)),
              [OOrder [EResp (RStatus 204)]; OOrder [EThrow]])) in Hr.
    pose proof (run_trace_lookup Halt [del_rq] put_rq [] s) as Hl. simpl app in Hl. rewrite Hr in Hl.
    simpl in Hl. rewrite delete_alone in Hl. simpl in Hl. rewrite put_after_delete in Hl. discriminate.
Qed.

End Race.

(** ** Witnesses *)

(** Two POST /dishes and a GET /dishes/d1 started together on [s_one],
    their functions interleaved round-robin. *)
Definition dish_burst : list app_request :=
  [post_taco; post_taco; mk_app_request GET (PathDish "d1") (JObj [])].

Definition dish_burst_schedule : list nat := [0; 1; 2; 0; 1; 2; 0; 1; 0; 1; 0; 1]%nat.

Lemma dish_requests_linearizable_witness :
  Forall dish_routed dish_burst /\
  forallb is_done (run_sched dish_burst_schedule (map spawn dish_burst, s_one)).1 = true /\
  linearizable dish_burst s_one (map done_out (run_sched dish_burst_schedule (map spawn dish_burst, s_one)).1)
    (run_sched dish_burst_schedule (map spawn dish_burst, s_one)).2.
Proof.
  assert (Hd : Forall dish_routed dish_burst) by (repeat constructor; eexists; reflexivity).
  assert (Hall : forallb is_done (run_sched dish_burst_schedule (map spawn dish_burst, s_one)).1 = true)
    by (vm_compute; reflexivity).
  split; [exact Hd|split; [exact Hall|]]. exact (dish_requests_linearizable _ _ _ Hd Hall).
Defined.

(** A pending order o1 and a PUT asking for "preparing". *)
Definition race_state : app_state := mk_state [] [Orders.o1 "pending"].
Definition race_body : jsval := order_body (JStr "preparing").

Lemma order_race_not_linearizable_witness :
  unique_ids (st_orders race_state) /\
  find_by_id "o1" (st_orders race_state) = Some (0%nat, Orders.o1 "pending") /\
  is_pending (Orders.o1 "pending") = true /\
  check_rules race_body update_rules = Some None /\
  body_id_conflict (mk_request "o1" race_body) = false /\
  body_status (mk_request "o1" race_body) = Some (JStr "preparing") /\
  updatable_status (JStr "preparing") = true /\
  body_dishes_ok race_body = true /\
  run_sched race_schedule (map spawn (race_pair "o1" race_body), race_state) =
    ([TDone (OOrder [EThrow]); TDone (OOrder [EResp (RStatus 204)])],
     mk_state (st_dishes race_state) (delete 0 (st_orders race_state))) /\
  ~ linearizable (race_pair "o1" race_body) race_state
      (map done_out (run_sched race_schedule (map spawn (race_pair "o1" race_body), race_state)).1)
      (run_sched race_schedule (map spawn (race_pair "o1" race_body), race_state)).2.
Proof.
  assert (Hu : unique_ids (st_orders race_state)) by apply NoDup_singleton.
  assert (Hf : find_by_id "o1" (st_orders race_state) = Some (0%nat, Orders.o1 "pending")) by reflexivity.
  assert (Hp : is_pending (Orders.o1 "pending") = true) by reflexivity.
  assert (Hc : check_rules race_body update_rules = Some None) by (vm_compute; reflexivity).
  assert (Hn : body_id_conflict (mk_request "o1" race_body) = false) by (vm_compute; reflexivity).
  assert (Hs : body_status (mk_request "o1" race_body) = Some (JStr "preparing")) by (vm_compute; reflexivity).
  assert (Hup : updatable_status (JStr "preparing") = true) by reflexivity.
  assert (Hd : body_dishes_ok race_body = true) by (vm_compute; reflexivity).
  do 8 (split; [assumption|]).
  exact (order_race_not_linearizable race_state "o1" race_body 0 (Orders.o1 "pending") (JStr "preparing")
           Hu Hf Hp Hc Hn Hs Hup Hd).
Defined.

(** The race leaves valid arrays: the order is gone and the PUT wrote
    nothing. *)
Lemma interleaved_app_inv_witness :
  app_inv race_state /\
  rtc cstep (map spawn (race_pair "o1" race_body), race_state)
    (run_sched race_schedule (map spawn (race_pair "o1" race_body), race_state)) /\
  app_inv (run_sched race_schedule (map spawn (race_pair "o1" race_body), race_state)).2.
Proof.
  assert (Hs : app_inv race_state) by (split; [split; constructor|by apply orders_inv_o1]).
  pose proof (run_sched_rtc race_schedule (map spawn (race_pair "o1" race_body), race_state)) as Hr.
  split; [exact Hs|split; [exact Hr|]]. exact (interleaved_app_inv _ _ _ Hs Hr).
Defined.

End Concurrent.
